(** * NairaSense: the tiered exchange-rate resolution service

    A shallow embedding of [services/gemini.ts] (oracle parser, retry
    wrapper, persistent-cache orchestrator, emergency table) and of the
    session cache in [App.tsx] ([loadData]), followed by the properties of
    the specification that concern them.

    Conventions of the embedding.
    - A JavaScript [number] is a binary64 value: a finite one is carried as
      the rational it denotes, next to [NaN] and the two infinities.  What
      the code computes from a decimal numeral or by a division is rounded
      to the nearest binary64 value, ties to even ([JS.round]), with
      underflow to zero and overflow to infinity.  The sign of zero is not
      modelled: no test of the code tells the two zeros apart.
    - A JavaScript string that the code inspects is a sequence of UTF-16
      code units ([text]).  Strings that it only passes on or extends
      (labels of instants, titles, addresses, messages of errors) are
      [string]s.
    - Asynchronous code is sequenced: a [World] carries the clock, the
      persistent store, the behaviour and the latency of the oracle and of
      the store accessor, and the trace of the external calls made so far.
      Console output is not modelled. *)

From Stdlib Require Import ZArith NArith QArith Ascii String List Bool Lia.
From stdpp Require Import gmap strings.
Set Warnings "-register-all".
Import ListNotations.
Local Open Scope string_scope.
Local Open Scope list_scope.

(** ** JavaScript numbers *)

Module JS.

Inductive number : Type :=
| Num (q : Q)
| NaN
| Infinity (negative : bool).

(** [- a] *)
Definition opp (a : number) : number :=
  match a with
  | Num q => Num (- q)
  | NaN => NaN
  | Infinity b => Infinity (negb b)
  end.

(** The binary64 value nearest to the positive rational [n / d].  With [l]
    the binary logarithm of the quotient, rounded down, the last place of
    the result has exponent [l - 52], and no less than -1074; the quotient
    is rounded to an integral multiple of that place, ties to even; from
    2^1024 on the result is infinite. *)
Definition round_pos (n d : positive) : number :=
  let a := Z.log2 (Zpos n) in
  let b := Z.log2 (Zpos d) in
  let below := if (b <=? a)%Z then (Zpos n <? Zpos d * 2 ^ (a - b))%Z
               else (Zpos n * 2 ^ (b - a) <? Zpos d)%Z in
  let l := if below then (a - b - 1)%Z else (a - b)%Z in
  let e := Z.max (l - 52) (-1074) in
  let num := if (e <? 0)%Z then (Zpos n * 2 ^ (- e))%Z else Zpos n in
  let den := if (e <? 0)%Z then Zpos d else (Zpos d * 2 ^ e)%Z in
  let m := (num / den)%Z in
  let m' := match (2 * (num mod den) ?= den)%Z with
            | Lt => m
            | Gt => (m + 1)%Z
            | Eq => if Z.even m then m else (m + 1)%Z
            end in
  if (e <? 0)%Z then Num (Qred (m' # Z.to_pos (2 ^ (- e))))
  else if (2 ^ 1024 <=? m' * 2 ^ e)%Z then Infinity false
  else Num (inject_Z (m' * 2 ^ e)).

(** The Number value of a rational. *)
Definition round (q : Q) : number :=
  match Qnum q with
  | Z0 => Num 0
  | Zpos n => round_pos n (Qden q)
  | Zneg n => opp (round_pos n (Qden q))
  end.

(** [a < b] *)
Definition ltb (a b : number) : bool :=
  match a, b with
  | Num p, Num q => negb (Qle_bool q p)
  | Num _, Infinity neg => negb neg
  | Infinity neg, Num _ => neg
  | Infinity n1, Infinity n2 => n1 && negb n2
  | _, _ => false
  end.

(** [a <= b] *)
Definition leb (a b : number) : bool :=
  match a, b with
  | Num p, Num q => Qle_bool p q
  | Num _, Infinity neg => negb neg
  | Infinity neg, Num _ => neg
  | Infinity n1, Infinity n2 => n1 || negb n2
  | _, _ => false
  end.

(** [a === b] on numbers *)
Definition eqb (a b : number) : bool :=
  match a, b with
  | Num p, Num q => Qeq_bool p q
  | Infinity n1, Infinity n2 => Bool.eqb n1 n2
  | _, _ => false
  end.

(** ToBoolean on a number: false exactly for 0 and NaN. *)
Definition truthy (a : number) : bool :=
  match a with
  | Num q => negb (Qeq_bool q 0)
  | NaN => false
  | Infinity _ => true
  end.

(** [1 / a] *)
Definition recip (a : number) : number :=
  match a with
  | Num q => if Qeq_bool q 0 then Infinity false else round (/ q)
  | NaN => NaN
  | Infinity _ => Num 0
  end.

(** [Number.isInteger(a)] *)
Definition isInteger (a : number) : bool :=
  match a with
  | Num q => (Qnum q mod Zpos (Qden q) =? 0)%Z
  | _ => false
  end.

End JS.

Abbreviation number := JS.number.
Abbreviation Num := JS.Num.
Abbreviation NaN := JS.NaN.

(** ** Text algorithms: the searches behind the regular expressions *)

(** A UTF-16 code unit. *)
Definition char := N.
Definition text := list char.

Definition ch (a : ascii) : char := N_of_ascii a.
Arguments ch a%_char : simpl never.

Definition txt (s : string) : text := map ch (list_ascii_of_string s).

(** Examples are written with an apostrophe where the text has a double
    quote. *)
Definition dq : char := 34%N.
Definition quoted (s : string) : text :=
  map (fun c => if (c =? ch "'")%N then dq else c) (txt s).

Definition nl : char := 10%N.

Fixpoint text_eqb (a b : text) : bool :=
  match a, b with
  | [], [] => true
  | x :: a', y :: b' => (x =? y)%N && text_eqb a' b'
  | _, _ => false
  end.

(** [\d] *)
Definition is_digit (c : char) : bool := (48 <=? c)%N && (c <=? 57)%N.
Arguments is_digit : simpl never.

(** JavaScript white space and line terminators: TAB, LF, VT, FF, CR,
    SPACE, NBSP, the other space separators of Unicode, LS, PS and
    ZWNBSP. *)
Definition is_space (c : char) : bool :=
  ((9 <=? c) && (c <=? 13) || (c =? 32) || (c =? 160) || (c =? 5760)
   || (8192 <=? c) && (c <=? 8202) || (c =? 8232) || (c =? 8233)
   || (c =? 8239) || (c =? 8287) || (c =? 12288) || (c =? 65279))%N.
Arguments is_space : simpl never.

Fixpoint strip_prefix (p s : text) : option text :=
  match p, s with
  | [], _ => Some s
  | a :: p', b :: s' => if (a =? b)%N then strip_prefix p' s' else None
  | _ :: _, [] => None
  end.

(** Split [s] around the leftmost occurrence of [p]. *)
Fixpoint find_first (p s : text) : option (text * text) :=
  match strip_prefix p s with
  | Some rest => Some ([], rest)
  | None =>
      match s with
      | [] => None
      | c :: s' =>
          match find_first p s' with
          | Some (a, b) => Some (c :: a, b)
          | None => None
          end
      end
  end.

(** Split [s] around the rightmost occurrence of [p]. *)
Fixpoint find_last (p s : text) : option (text * text) :=
  match s with
  | [] => match strip_prefix p [] with Some r => Some ([], r) | None => None end
  | c :: s' =>
      match find_last p s' with
      | Some (a, b) => Some (c :: a, b)
      | None =>
          match strip_prefix p s with
          | Some rest => Some ([], rest)
          | None => None
          end
      end
  end.

(** [s.includes(p)] *)
Definition includes (p s : text) : bool :=
  match find_first p s with Some _ => true | None => false end.

(** [s.trim()] *)
Fixpoint trim_start (s : text) : text :=
  match s with
  | c :: s' => if is_space c then trim_start s' else s
  | [] => []
  end.

Definition trim (s : text) : text := rev (trim_start (rev (trim_start s))).

(** [text.match(/```json\n([\s\S]*?)\n```/)]: the whole match and the
    captured group.  The match starts at the first opening fence and the
    lazy group ends at the first closing fence after it. *)
Definition fence_open : text := txt "```json" ++ [nl].
Definition fence_close : text := nl :: txt "```".

Definition match_fenced (t : text) : option (text * text) :=
  match find_first fence_open t with
  | Some (_, rest) =>
      match find_first fence_close rest with
      | Some (cap, _) => Some (fence_open ++ cap ++ fence_close, cap)
      | None => None
      end
  | None => None
  end.

(** [text.match(/{[\s\S]*"rate"[\s\S]*}/)]: from the first opening brace to
    the last closing brace, provided the quoted key occurs in between. *)
Definition match_object (t : text) : option text :=
  match find_first (txt "{") t with
  | Some (_, rest) =>
      match find_last (txt "}") rest with
      | Some (mid, _) =>
          if includes (quoted "'rate'") mid
          then Some (txt "{" ++ mid ++ txt "}")
          else None
      | None => None
      end
  | None => None
  end.

(** [text.replace(/202[0-9]/g, '')]: the matches are found from left to
    right, each search starting where the previous match ended. *)
Fixpoint strip_years (s : text) : text :=
  match s with
  | [] => []
  | c :: s' =>
      match s' with
      | c1 :: c2 :: d :: rest =>
          if ((c =? ch "2") && (c1 =? ch "0") && (c2 =? ch "2"))%N && is_digit d
          then strip_years rest
          else c :: strip_years s'
      | _ => c :: strip_years s'
      end
  end.

(** [summaryText.replace(/```json[\s\S]*```/, '')]: the greedy body runs to
    the last triple backquote of the text. *)
Definition strip_fence (s : text) : text :=
  match find_first (txt "```json") s with
  | Some (pre, rest) =>
      match find_last (txt "```") rest with
      | Some (_, suf) => pre ++ suf
      | None => s
      end
  | None => s
  end.

(** *** The numeric tokens of [/(\d{1,3}(,\d{3})*(\.\d+)?)/g] *)

Fixpoint take_digits (n : nat) (s : text) : text * text :=
  match n, s with
  | S n', c :: s' =>
      if is_digit c
      then let '(ds, r) := take_digits n' s' in (c :: ds, r)
      else ([], s)
  | _, _ => ([], s)
  end.

(** [(,\d{3})*], greedy *)
Fixpoint take_groups (fuel : nat) (s : text) : text * text :=
  match fuel, s with
  | S fuel', sep :: a :: b :: c :: r =>
      if (sep =? ch ",")%N && is_digit a && is_digit b && is_digit c
      then let '(g, r') := take_groups fuel' r in
           (sep :: a :: b :: c :: g, r')
      else ([], s)
  | _, _ => ([], s)
  end.

(** [(\.\d+)?], greedy *)
Definition take_fraction (s : text) : text * text :=
  match s with
  | dot :: r =>
      if (dot =? ch ".")%N then
        match take_digits (length r) r with
        | ([], _) => ([], s)
        | (ds, r') => (dot :: ds, r')
        end
      else ([], s)
  | [] => ([], s)
  end.

(** One match attempted at the head of [s]. *)
Definition match_token (s : text) : option (text * text) :=
  match take_digits 3 s with
  | ([], _) => None
  | (ds, r1) =>
      let '(gs, r2) := take_groups (length r1) r1 in
      let '(fr, r3) := take_fraction r2 in
      Some (ds ++ gs ++ fr, r3)
  end.

Fixpoint scan_tokens (fuel : nat) (s : text) : list text :=
  match fuel with
  | O => []
  | S fuel' =>
      match match_token s with
      | Some (tok, r) => tok :: scan_tokens fuel' r
      | None =>
          match s with
          | [] => []
          | _ :: s' => scan_tokens fuel' s'
          end
      end
  end.

Definition rate_tokens (s : text) : list text := scan_tokens (length s) s.

(** [m.replace(/,/g, '')] *)
Definition remove_commas (s : text) : text :=
  filter (fun c => negb (c =? ch ",")%N) s.

(** *** [parseFloat] on a string *)

Definition digit_val (c : char) : Z := Z.of_N c - 48.

Definition digits_val (ds : text) : Z :=
  fold_left (fun acc c => 10 * acc + digit_val c)%Z ds 0%Z.

Definition pow10 (e : Z) : Q :=
  match e with
  | Z0 => 1
  | Zpos p => inject_Z (10 ^ Zpos p)
  | Zneg p => / inject_Z (10 ^ Zpos p)
  end.

(** Value of [int.frac] *)
Definition decimal_val (int frac : text) : Q :=
  inject_Z (digits_val int)
  + inject_Z (digits_val frac) * pow10 (- Z.of_nat (length frac)).

(** An optional character at the head of [s]. *)
Definition take_char (c : char) (s : text) : bool * text :=
  match s with
  | c' :: r => if (c =? c')%N then (true, r) else (false, s)
  | [] => (false, s)
  end.

(** The sign of an exponent: whether it is negative, and the rest. *)
Definition take_sign (s : text) : bool * text :=
  match take_char (ch "-") s with
  | (true, r) => (true, r)
  | (false, _) => (false, snd (take_char (ch "+") s))
  end.

(** The exponent part [e[+-]?\d+] when it is complete, else nothing. *)
Definition take_exponent (s : text) : Z * text :=
  match s with
  | c :: r =>
      if ((c =? ch "e") || (c =? ch "E"))%N then
        let '(neg, r1) := take_sign r in
        match take_digits (length r1) r1 with
        | ([], _) => (0%Z, s)
        | (ds, r2) => ((if neg then - digits_val ds else digits_val ds)%Z, r2)
        end
      else (0%Z, s)
  | [] => (0%Z, s)
  end.

(** The unsigned part of a StrDecimalLiteral at the head of [s]. *)
Definition parse_unsigned (s : text) : number :=
  match strip_prefix (txt "Infinity") s with
  | Some _ => JS.Infinity false
  | None =>
      let '(int, r1) := take_digits (length s) s in
      let '(frac, r2) :=
        match take_char (ch ".") r1 with
        | (true, r) => take_digits (length r) r
        | (false, _) => ([], r1)
        end in
      match int, frac with
      | [], [] => NaN
      | _, _ =>
          let '(e, _) := take_exponent r2 in
          JS.round (decimal_val int frac * pow10 e)
      end
  end.

Definition parseFloat_text (s : text) : number :=
  match trim_start s with
  | c :: r =>
      if (c =? ch "-")%N then JS.opp (parse_unsigned r)
      else if (c =? ch "+")%N then parse_unsigned r
      else parse_unsigned (c :: r)
  | [] => NaN
  end.

(** ** JSON values and [JSON.parse]

    [JSON.parse] is a builtin of the platform; it is modelled after the JSON
    grammar (ECMA-404), a numeral denoting its Number value. *)

Inductive JSON : Type :=
| JNull
| JBool (b : bool)
| JNum (n : number)
| JStr (s : text)
| JArr (items : list JSON)
| JObj (members : list (text * JSON)).

Definition json_ws (c : char) : bool :=
  ((c =? 32) || (c =? 9) || (c =? 10) || (c =? 13))%N.
Arguments json_ws : simpl never.

Fixpoint skip_ws (s : text) : text :=
  match s with
  | c :: s' => if json_ws c then skip_ws s' else s
  | [] => []
  end.

Definition hex_val (c : char) : option N :=
  if ((48 <=? c) && (c <=? 57))%N then Some (c - 48)%N
  else if ((65 <=? c) && (c <=? 70))%N then Some (c - 55)%N
  else if ((97 <=? c) && (c <=? 102))%N then Some (c - 87)%N
  else None.

Definition unescape (c : char) : option char :=
  if (c =? dq)%N then Some dq
  else if (c =? ch "\")%N then Some (ch "\")
  else if (c =? ch "/")%N then Some (ch "/")
  else if (c =? ch "b")%N then Some 8%N
  else if (c =? ch "f")%N then Some 12%N
  else if (c =? ch "n")%N then Some 10%N
  else if (c =? ch "r")%N then Some 13%N
  else if (c =? ch "t")%N then Some 9%N
  else None.

(** The characters of a string literal after its opening quote. *)
Fixpoint parse_string_body (s : text) : option (text * text) :=
  match s with
  | [] => None
  | c :: s' =>
      if (c =? dq)%N then Some ([], s')
      else if (c =? ch "\")%N then
        match s' with
        | [] => None
        | e :: s'' =>
            if (e =? ch "u")%N then
              match s'' with
              | h1 :: h2 :: h3 :: h4 :: s3 =>
                  match hex_val h1, hex_val h2, hex_val h3, hex_val h4 with
                  | Some a, Some b, Some c', Some d =>
                      match parse_string_body s3 with
                      | Some (cs, r) =>
                          Some ((4096 * a + 256 * b + 16 * c' + d)%N :: cs, r)
                      | None => None
                      end
                  | _, _, _, _ => None
                  end
              | _ => None
              end
            else
              match unescape e, parse_string_body s'' with
              | Some c', Some (cs, r) => Some (c' :: cs, r)
              | _, _ => None
              end
        end
      else if (c <? 32)%N then None
      else
        match parse_string_body s' with
        | Some (cs, r) => Some (c :: cs, r)
        | None => None
        end
  end.

(** A non-empty run of digits, or nothing. *)
Definition take_digits1 (s : text) : option (text * text) :=
  match take_digits (length s) s with
  | ([], _) => None
  | (ds, r) => Some (ds, r)
  end.

(** The fraction of a JSON number: absent, or a point and digits. *)
Definition parse_fraction (s : text) : option (text * text) :=
  match take_char (ch ".") s with
  | (true, r) => take_digits1 r
  | (false, _) => Some ([], s)
  end.

(** The exponent of a JSON number: absent, or [e], a sign and digits. *)
Definition parse_exponent (s : text) : option (Z * text) :=
  match s with
  | c :: r =>
      if ((c =? ch "e") || (c =? ch "E"))%N then
        let '(eneg, r1) := take_sign r in
        match take_digits1 r1 with
        | Some (ds, r2) =>
            Some ((if eneg then - digits_val ds else digits_val ds)%Z, r2)
        | None => None
        end
      else Some (0%Z, s)
  | [] => Some (0%Z, s)
  end.

Definition leading_zero (int : text) : bool :=
  match int with
  | d :: _ :: _ => (d =? ch "0")%N
  | _ => false
  end.

Definition parse_number (s : text) : option (number * text) :=
  let '(neg, s1) := take_char (ch "-") s in
  match take_digits1 s1 with
  | None => None
  | Some (int, s2) =>
      if leading_zero int then None
      else
        match parse_fraction s2 with
        | None => None
        | Some (fr, s3) =>
            match parse_exponent s3 with
            | None => None
            | Some (e, s4) =>
                let v := JS.round (decimal_val int fr * pow10 e) in
                Some (if neg then JS.opp v else v, s4)
            end
        end
  end.

(** The text after insignificant white space and the character [c]. *)
Definition expect (c : char) (s : text) : option text :=
  match skip_ws s with
  | c' :: r => if (c =? c')%N then Some r else None
  | [] => None
  end.

Definition parse_literal (word : string) (v : JSON) (s : text)
  : option (JSON * text) :=
  match strip_prefix (txt word) s with
  | Some r => Some (v, r)
  | None => None
  end.

(** One level of each of the three mutually recursive parsers, over the
    parsers of the level below. *)
Section Steps.

Variable value : text -> option (JSON * text).
Variable members : text -> option (list (text * JSON) * text).
Variable elements : text -> option (list JSON * text).

Definition value_step (s : text) : option (JSON * text) :=
  match skip_ws s with
  | [] => None
  | c :: r =>
      if (c =? ch "{")%N then
        match expect (ch "}") r with
        | Some r' => Some (JObj [], r')
        | None =>
            match members r with
            | Some (ms, r') => Some (JObj ms, r')
            | None => None
            end
        end
      else if (c =? ch "[")%N then
        match expect (ch "]") r with
        | Some r' => Some (JArr [], r')
        | None =>
            match elements r with
            | Some (vs, r') => Some (JArr vs, r')
            | None => None
            end
        end
      else if (c =? dq)%N then
        match parse_string_body r with
        | Some (cs, r') => Some (JStr cs, r')
        | None => None
        end
      else if (c =? ch "t")%N then parse_literal "true" (JBool true) (c :: r)
      else if (c =? ch "f")%N then parse_literal "false" (JBool false) (c :: r)
      else if (c =? ch "n")%N then parse_literal "null" JNull (c :: r)
      else
        match parse_number (c :: r) with
        | Some (n, r') => Some (JNum n, r')
        | None => None
        end
  end.

Definition members_step (s : text) : option (list (text * JSON) * text) :=
  match expect dq s with
  | Some r =>
      match parse_string_body r with
      | Some (k, r1) =>
          match expect (ch ":") r1 with
          | Some r2 =>
              match value r2 with
              | Some (v, r3) =>
                  match skip_ws r3 with
                  | c :: r4 =>
                      if (c =? ch ",")%N then
                        match members r4 with
                        | Some (ms, r5) => Some ((k, v) :: ms, r5)
                        | None => None
                        end
                      else if (c =? ch "}")%N then Some ([(k, v)], r4)
                      else None
                  | [] => None
                  end
              | None => None
              end
          | None => None
          end
      | None => None
      end
  | None => None
  end.

Definition elements_step (s : text) : option (list JSON * text) :=
  match value s with
  | Some (v, r) =>
      match skip_ws r with
      | c :: r1 =>
          if (c =? ch ",")%N then
            match elements r1 with
            | Some (vs, r2) => Some (v :: vs, r2)
            | None => None
            end
          else if (c =? ch "]")%N then Some ([v], r1)
          else None
      | [] => None
      end
  | None => None
  end.

End Steps.

Fixpoint parse_value (fuel : nat) (s : text) : option (JSON * text) :=
  match fuel with
  | O => None
  | S fuel' => value_step (parse_members fuel') (parse_elements fuel') s
  end
with parse_members (fuel : nat) (s : text) : option (list (text * JSON) * text) :=
  match fuel with
  | O => None
  | S fuel' => members_step (parse_value fuel') (parse_members fuel') s
  end
with parse_elements (fuel : nat) (s : text) : option (list JSON * text) :=
  match fuel with
  | O => None
  | S fuel' => elements_step (parse_value fuel') (parse_elements fuel') s
  end.

(** [JSON.parse(s)]; [None] stands for the SyntaxError it throws.  The
    recursion is bounded by a fuel that twice the length of the text always
    covers. *)
Definition JSON_parse (s : text) : option JSON :=
  match parse_value (2 + 2 * length s) s with
  | Some (v, r) => match skip_ws r with [] => Some v | _ => None end
  | None => None
  end.

(** ToBoolean on a parsed value *)
Definition json_truthy (v : JSON) : bool :=
  match v with
  | JNull => false
  | JBool b => b
  | JNum n => JS.truthy n
  | JStr s => match s with [] => false | _ => true end
  | JArr _ | JObj _ => true
  end.

(** The value of a member, the last one winning among duplicates. *)
Fixpoint lookup_member (k : text) (ms : list (text * JSON)) : option JSON :=
  match ms with
  | [] => None
  | (k', v) :: ms' =>
      match lookup_member k ms' with
      | Some v' => Some v'
      | None => if text_eqb k k' then Some v else None
      end
  end.

(** ToString(v) throws a TypeError.  A parsed object prints through
    [Object.prototype.toString], unless it has a property [toString] of its
    own: no parsed value is callable, and the [valueOf] tried next returns
    the object itself or is not callable either.  An array prints its
    elements, so it throws when one of them does. *)
Fixpoint toString_throws (v : JSON) : bool :=
  match v with
  | JObj ms =>
      match lookup_member (txt "toString") ms with
      | Some _ => true
      | None => false
      end
  | JArr items => existsb toString_throws items
  | _ => false
  end.

(** [parseFloat(v)] when ToString(v) does not throw: [v] is converted to
    a string first.  A number prints and reads back as itself; an array
    prints its elements separated by commas, so only its first element can
    be read; [true], [false], [null] and objects print as words. *)
Fixpoint parseFloat (v : JSON) : number :=
  match v with
  | JNum n => n
  | JStr s => parseFloat_text s
  | JArr (x :: _) => parseFloat x
  | _ => NaN
  end.

(** [parsed.k] for [k] among [rate], [parallelRate], [summary]: [None] is
    [undefined]; reading a property of [null] is handled by the caller. *)
Definition prop (parsed : JSON) (k : string) : option JSON :=
  match parsed with
  | JObj ms => lookup_member (txt k) ms
  | _ => None
  end.

(** ** Data model ([types.ts]) *)

Inductive CurrencyCode : Type := USD | NGN | EUR | GBP | CAD.

Definition code_name (c : CurrencyCode) : string :=
  match c with
  | USD => "USD" | NGN => "NGN" | EUR => "EUR" | GBP => "GBP" | CAD => "CAD"
  end.

Definition code_eqb (a b : CurrencyCode) : bool :=
  String.eqb (code_name a) (code_name b).

(** The template [`${a}-${b}`] *)
Definition pairKey (a b : CurrencyCode) : string :=
  String.append (code_name a) (String.append "-" (code_name b)).

Record Source : Type := { title : string; uri : string }.

Record ExchangeData : Type := {
  rate : number;
  parallelRate : option number;
  lastUpdated : string;
  summary : text;
  sources : list Source
}.

(** A row of the table [currency_rates]; the column [pair] is the key of the
    store. *)
Record DbRow : Type := {
  db_rate : number;
  db_parallel_rate : option number;
  db_summary : text;
  db_sources : option (list Source);
  db_updated_at : Z
}.

(** A thrown value, with the three properties the retry wrapper inspects. *)
Record JsError : Type := {
  err_status : option Z;
  err_code : option Z;
  err_message : option string
}.

Definition Error (msg : string) : JsError :=
  {| err_status := None; err_code := None; err_message := Some msg |}.

Inductive outcome (A : Type) : Type :=
| Returns (a : A)
| Throws (e : JsError).
Arguments Returns {A} a.
Arguments Throws {A} e.

(** ** The outside world *)

Record GroundingChunk : Type := { web : option Source }.

Record GenerateContentResponse : Type := {
  resp_text : option text;
  groundingChunks : list GroundingChunk
}.

Inductive OracleOutcome : Type :=
| Responds (response : GenerateContentResponse)
| Fails (e : JsError).

Inductive SelectMode : Type :=
| SelectAnswers   (* the accessor answers from the store *)
| SelectErrors    (* it resolves with an error and no data *)
| SelectThrows.   (* the awaited call rejects *)

Inductive Event : Type :=
| EvSelect (pair : string)
| EvGenerate (from to : CurrencyCode)
| EvSleep (ms : Z)
| EvUpsert (pair : string) (row : DbRow).

Record World : Type := {
  clock : Z;                       (* [new Date().getTime()] *)
  locale_time : Z -> string;       (* [toLocaleTimeString] of an instant *)
  store : gmap string DbRow;       (* table [currency_rates], by [pair] *)
  select_mode : SelectMode;
  select_latency : Z -> N;         (* duration of a cache read begun at an instant *)
  upsert_fails : bool;
  oracle : CurrencyCode -> CurrencyCode -> nat -> OracleOutcome;
  oracle_latency : nat -> N;       (* duration of the n-th oracle query *)
  calls : nat;                     (* oracle queries made so far *)
  trace : list Event
}.

Definition log_event (e : Event) (w : World) : World :=
  {| clock := clock w; locale_time := locale_time w; store := store w;
     select_mode := select_mode w; select_latency := select_latency w;
     upsert_fails := upsert_fails w;
     oracle := oracle w; oracle_latency := oracle_latency w;
     calls := calls w; trace := trace w ++ [e] |}.

(** Time passes while a call is awaited. *)
Definition advance (d : Z) (w : World) : World :=
  {| clock := clock w + d; locale_time := locale_time w; store := store w;
     select_mode := select_mode w; select_latency := select_latency w;
     upsert_fails := upsert_fails w;
     oracle := oracle w; oracle_latency := oracle_latency w;
     calls := calls w; trace := trace w |}.

(** [await sleep(ms)] *)
Definition sleep (ms : Z) (w : World) : World :=
  advance ms (log_event (EvSleep ms) w).

(** [await ai.models.generateContent(...)] for the pair named in the
    prompt. *)
Definition generateContent (from to : CurrencyCode) (w : World)
  : OracleOutcome * World :=
  (oracle w from to (calls w),
   {| clock := clock w + Z.of_N (oracle_latency w (calls w));
      locale_time := locale_time w; store := store w;
      select_mode := select_mode w; select_latency := select_latency w;
      upsert_fails := upsert_fails w;
      oracle := oracle w; oracle_latency := oracle_latency w;
      calls := S (calls w);
      trace := trace w ++ [EvGenerate from to] |}).

Record SelectResult : Type := { sel_data : option DbRow; sel_error : bool }.

(** [await supabase.from('currency_rates').select('*').eq('pair', k).single()]:
    [None] when the awaited call rejects; a missing row is an error of
    [single()]. *)
Definition select_single (k : string) (w : World) : option SelectResult * World :=
  (match select_mode w with
   | SelectThrows => None
   | SelectErrors => Some {| sel_data := None; sel_error := true |}
   | SelectAnswers =>
       match store w !! k with
       | Some row => Some {| sel_data := Some row; sel_error := false |}
       | None => Some {| sel_data := None; sel_error := true |}
       end
   end,
   advance (Z.of_N (select_latency w (clock w))) (log_event (EvSelect k) w)).

(** [supabase.from('currency_rates').upsert(row).then(...)]: the write is
    not awaited; when it fails the store keeps its content and the failure
    is only reported on the console. *)
Definition upsert (k : string) (row : DbRow) (w : World) : World :=
  {| clock := clock w; locale_time := locale_time w;
     store := if upsert_fails w then store w else <[k := row]> (store w);
     select_mode := select_mode w; select_latency := select_latency w;
     upsert_fails := upsert_fails w;
     oracle := oracle w; oracle_latency := oracle_latency w;
     calls := calls w;
     trace := trace w ++ [EvUpsert k row] |}.

(** ** [services/gemini.ts] *)

Definition CACHE_DURATION_MS : Z := 30 * 60 * 1000.

Definition EMERGENCY_RATES : gmap string number :=
  <["USD-NGN" := Num 1580.00]>
  (<["GBP-NGN" := Num 2050.00]>
  (<["EUR-NGN" := Num 1720.00]>
  (<["CAD-NGN" := Num 1150.00]> ∅))).

(** *** [fetchFromAI]: the parsing logic *)

(** [jsonMatch[1] || jsonMatch[0]], when [jsonMatch] is not null *)
Definition jsonMatch (t : text) : option text :=
  match match_fenced t with
  | Some (whole, cap) => Some (match cap with [] => whole | _ => cap end)
  | None => match_object t
  end.

(** The variables assigned by the parsing logic. *)
Record Parsing : Type := {
  detectedRate : number;
  detectedParallel : option number;
  summaryText : JSON
}.

(** [if (v) x = parseFloat(v)]: [None] when the conversion throws, else
    the number assigned, if any. *)
Definition read_number (v : option JSON) : option (option number) :=
  match v with
  | Some x =>
      if json_truthy x
      then if toString_throws x then None else Some (Some (parseFloat x))
      else Some None
  | None => Some None
  end.

(** The [try] block: a SyntaxError of [JSON.parse], the TypeError of
    reading a property of [null] and the TypeError of a conversion are
    caught, leaving the variables as they are at that point. *)
Definition json_path (t : text) (st : Parsing) : Parsing :=
  match jsonMatch t with
  | None => st
  | Some jsonStr =>
      match JSON_parse jsonStr with
      | None => st
      | Some JNull => st
      | Some parsed =>
          match read_number (prop parsed "rate") with
          | None => st
          | Some r =>
              let st1 :=
                {| detectedRate := default (detectedRate st) r;
                   detectedParallel := detectedParallel st;
                   summaryText := summaryText st |} in
              match read_number (prop parsed "parallelRate") with
              | None => st1
              | Some p =>
                  {| detectedRate := detectedRate st1;
                     detectedParallel :=
                       match p with
                       | Some n => Some n
                       | None => detectedParallel st1
                       end;
                     summaryText :=
                       match prop parsed "summary" with
                       | Some v => if json_truthy v then v else summaryText st1
                       | None => summaryText st1
                       end |}
              end
          end
      end
  end.

Definition valid_candidate (n : number) : bool :=
  JS.ltb (Num 0) n && JS.ltb n (Num 10000) && negb (JS.isInteger n)
  && negb (JS.eqb n (Num 2024)) && negb (JS.eqb n (Num 2025)).

Definition rate_candidates (t : text) : list number :=
  map (fun m => parseFloat_text (remove_commas m)) (rate_tokens (strip_years t)).

(** The block guarded by [if (!detectedRate)] *)
Definition regex_path (t : text) (st : Parsing) : Parsing :=
  if JS.truthy (detectedRate st) then st
  else
    match find valid_candidate (rate_candidates t) with
    | Some valid =>
        if JS.truthy valid
        then {| detectedRate := valid;
                detectedParallel := detectedParallel st;
                summaryText := summaryText st |}
        else st
    | None => st
    end.

(** [let detectedRate = 0; let parallelRate = undefined; let summaryText = text] *)
Definition initial_parsing (t : text) : Parsing :=
  {| detectedRate := Num 0; detectedParallel := None; summaryText := JStr t |}.

Definition detect (t : text) : Parsing :=
  regex_path t (json_path t (initial_parsing t)).

Definition extract_sources (chunks : list GroundingChunk) : list Source :=
  omap web chunks.

(** Lines 52-106 of [fetchFromAI], on the response received at the instant
    displayed as [nowLabel]. *)
Definition parse_response (nowLabel : string) (response : GenerateContentResponse)
  : outcome ExchangeData :=
  let t := default [] (resp_text response) in
  let st := detect t in
  if JS.eqb (detectedRate st) (Num 0) then Throws (Error "AI returned 0 rate")
  else
    match summaryText st with
    | JStr s =>
        Returns {| rate := detectedRate st;
                   parallelRate := detectedParallel st;
                   summary := trim (strip_fence s);
                   lastUpdated := nowLabel;
                   sources := extract_sources (groundingChunks response) |}
    | _ => Throws (Error "summaryText.replace is not a function")
    end.

Definition fetchFromAI (from to : CurrencyCode) (w : World)
  : outcome ExchangeData * World :=
  let '(o, w1) := generateContent from to w in
  match o with
  | Fails e => (Throws e, w1)
  | Responds response =>
      (parse_response (locale_time w1 (clock w1)) response, w1)
  end.

(** *** [attemptAIFetchWithRetry] *)

Definition isQuota (err : JsError) : bool :=
  match err_status err with Some n => (n =? 429)%Z | None => false end
  || match err_code err with Some n => (n =? 429)%Z | None => false end
  || match err_message err with
     | Some m => includes (txt "429") (txt m) || includes (txt "quota") (txt m)
     | None => false
     end.

Fixpoint attemptAIFetchWithRetry (from to : CurrencyCode) (retries : nat)
  (w : World) : outcome ExchangeData * World :=
  match fetchFromAI from to w with
  | (Returns d, w1) => (Returns d, w1)
  | (Throws err, w1) =>
      match retries with
      | S retries' =>
          if isQuota err
          then attemptAIFetchWithRetry from to retries' (sleep 2000 w1)
          else (Throws err, w1)
      | O => (Throws err, w1)
      end
  end.

(** *** Helpers *)

(** [x || undefined] and [x || null] on an optional number *)
Definition or_absent (x : option number) : option number :=
  match x with
  | Some p => if JS.truthy p then Some p else None
  | None => None
  end.

Definition mapDbToExchangeData (fmt : Z -> string) (dbData : DbRow) : ExchangeData :=
  {| rate := db_rate dbData;
     parallelRate := or_absent (db_parallel_rate dbData);
     summary := db_summary dbData;
     lastUpdated := fmt (db_updated_at dbData);
     sources := default [] (db_sources dbData) |}.

(** [x ? 1 / x : undefined] *)
Definition recip_or_absent (x : option number) : option number :=
  match x with
  | Some p => if JS.truthy p then Some (JS.recip p) else None
  | None => None
  end.

Definition invertExchangeData (data : ExchangeData) : ExchangeData :=
  if JS.leb (rate data) (Num 0) then data
  else {| rate := JS.recip (rate data);
          parallelRate := recip_or_absent (parallelRate data);
          lastUpdated := lastUpdated data;
          summary := summary data;
          sources := sources data |}.

(** *** [fetchRealTimeRate] *)

Definition emergency_quote (r : number) : ExchangeData :=
  {| rate := r;
     parallelRate := None;
     lastUpdated := "Offline Estimate";
     summary := txt "High demand detected. Showing estimated market rates while we reconnect to live data.";
     sources := [] |}.

Definition mark_cached (d : ExchangeData) : ExchangeData :=
  {| rate := rate d; parallelRate := parallelRate d;
     lastUpdated := String.append (lastUpdated d) " (Cached)";
     summary := summary d; sources := sources d |}.

Definition upsert_row (aiResult : ExchangeData) (now : Z) : DbRow :=
  {| db_rate := rate aiResult;
     db_parallel_rate := or_absent (parallelRate aiResult);
     db_summary := summary aiResult;
     db_sources := Some (sources aiResult);
     db_updated_at := now |}.

(** Step 1: the pair searched for and the invert flag. *)
Definition canonical (from to : CurrencyCode)
  : CurrencyCode * CurrencyCode * bool :=
  if code_eqb from NGN && negb (code_eqb to NGN)
  then (to, from, true)
  else (from, to, false).

(** Step 2: the fresh result, if any, and the record kept as fallback. *)
Definition check_cache (r : option SelectResult) (w : World)
  : option ExchangeData * option DbRow :=
  match r with
  | Some {| sel_data := Some data; sel_error := false |} =>
      (if (clock w - db_updated_at data <? CACHE_DURATION_MS)%Z
       then Some (mapDbToExchangeData (locale_time w) data)
       else None,
       Some data)
  | _ => (None, None)
  end.

(** Step 7 *)
Definition finish (shouldInvert : bool) (resultToReturn : ExchangeData)
  : ExchangeData :=
  if shouldInvert then invertExchangeData resultToReturn else resultToReturn.

Definition fetchRealTimeRate (from to : CurrencyCode) (w : World)
  : outcome ExchangeData * World :=
  let '(searchFrom, searchTo, shouldInvert) := canonical from to in
  let pairId := pairKey searchFrom searchTo in
  let '(r, w1) := select_single pairId w in
  let '(resultToReturn, staleRecord) := check_cache r w1 in
  match resultToReturn with
  | Some fresh => (Returns (finish shouldInvert fresh), w1)
  | None =>
      match attemptAIFetchWithRetry searchFrom searchTo 1 w1 with
      | (Returns aiResult, w2) =>
          let w3 :=
            if JS.ltb (Num 0) (rate aiResult)
            then upsert pairId (upsert_row aiResult (clock w2)) w2
            else w2 in
          (Returns (finish shouldInvert aiResult), w3)
      | (Throws aiError, w2) =>
          match staleRecord with
          | Some stale =>
              (Returns (finish shouldInvert
                          (mark_cached (mapDbToExchangeData (locale_time w2) stale))),
               w2)
          | None =>
              match EMERGENCY_RATES !! pairId with
              | Some r =>
                  if JS.truthy r
                  then (Returns (finish shouldInvert (emergency_quote r)), w2)
                  else (Throws aiError, w2)
              | None => (Throws aiError, w2)
              end
          end
      end
  end.

(** ** The session cache of [App.tsx] *)

Record AppState : Type := {
  data : option ExchangeData;
  loading : bool;
  error : option string;
  fromCurrency : CurrencyCode;
  toCurrency : CurrencyCode;
  ratesCache : gmap string ExchangeData
}.

(** The inverse computed on an inverse cache hit. *)
Definition invertedData (invData : ExchangeData) : ExchangeData :=
  {| rate := if JS.truthy (rate invData) then JS.recip (rate invData) else Num 0;
     parallelRate := recip_or_absent (parallelRate invData);
     lastUpdated := lastUpdated invData;
     summary := summary invData;
     sources := sources invData |}.

(** The inverse stored next to a fetched result. *)
Definition inverse_of_result (result : ExchangeData) : ExchangeData :=
  {| rate := JS.recip (rate result);
     parallelRate := recip_or_absent (parallelRate result);
     lastUpdated := lastUpdated result;
     summary := summary result;
     sources := sources result |}.

Definition generic_error : string :=
  "Unable to retrieve real-time data. Please check your connection or try again later.".

Definition show_quote (d : ExchangeData) (cache : gmap string ExchangeData)
  (st : AppState) : AppState :=
  {| data := Some d; loading := false; error := None;
     fromCurrency := fromCurrency st; toCurrency := toCurrency st;
     ratesCache := cache |}.

Definition fetch_and_cache (st : AppState) (w : World) : AppState * World :=
  let cacheKey := pairKey (fromCurrency st) (toCurrency st) in
  let inverseKey := pairKey (toCurrency st) (fromCurrency st) in
  match fetchRealTimeRate (fromCurrency st) (toCurrency st) w with
  | (Returns result, w') =>
      let c1 := <[cacheKey := result]> (ratesCache st) in
      let c2 :=
        if JS.ltb (Num 0) (rate result)
        then <[inverseKey := inverse_of_result result]> c1
        else c1 in
      (show_quote result c2 st, w')
  | (Throws _, w') =>
      ({| data := data st; loading := false; error := Some generic_error;
          fromCurrency := fromCurrency st; toCurrency := toCurrency st;
          ratesCache := ratesCache st |}, w')
  end.

Definition loadData (forceRefresh : bool) (st : AppState) (w : World)
  : AppState * World :=
  let cacheKey := pairKey (fromCurrency st) (toCurrency st) in
  let inverseKey := pairKey (toCurrency st) (fromCurrency st) in
  if forceRefresh then fetch_and_cache st w
  else
    match ratesCache st !! cacheKey with
    | Some hit => (show_quote hit (ratesCache st) st, w)
    | None =>
        match ratesCache st !! inverseKey with
        | Some invData =>
            (show_quote (invertedData invData)
               (<[cacheKey := invertedData invData]> (ratesCache st)) st, w)
        | None => fetch_and_cache st w
        end
    end.


Definition handleSwap (st : AppState) : AppState :=
  {| data := data st; loading := loading st; error := error st;
     fromCurrency := toCurrency st; toCurrency := fromCurrency st;
     ratesCache := ratesCache st |}.

(** ** The earlier variant of [services/gemini.ts]

    The repository also holds an earlier state of the service.  Its parsing
    logic, helpers and canonical orientation are the ones above; it differs
    in three places: a rate that was not detected is replaced by 1600 for
    the pair USD to NGN instead of being an error, the retry budget is 2,
    and there is no emergency table. *)

Module Legacy.

(** Lines 43-97 of [fetchFromAI] *)
Definition parse_response (from to : CurrencyCode) (nowLabel : string)
  (response : GenerateContentResponse) : outcome ExchangeData :=
  let t := default [] (resp_text response) in
  let st := detect t in
  let detectedRate' :=
    if JS.eqb (detectedRate st) (Num 0) && code_eqb from USD && code_eqb to NGN
    then Num 1600
    else detectedRate st in
  match summaryText st with
  | JStr s =>
      Returns {| rate := detectedRate';
                 parallelRate := detectedParallel st;
                 summary := trim (strip_fence s);
                 lastUpdated := nowLabel;
                 sources := extract_sources (groundingChunks response) |}
  | _ => Throws (Error "summaryText.replace is not a function")
  end.

Definition fetchFromAI (from to : CurrencyCode) (w : World)
  : outcome ExchangeData * World :=
  let '(o, w1) := generateContent from to w in
  match o with
  | Fails e => (Throws e, w1)
  | Responds response =>
      (parse_response from to (locale_time w1 (clock w1)) response, w1)
  end.

Fixpoint attemptAIFetchWithRetry (from to : CurrencyCode) (retries : nat)
  (w : World) : outcome ExchangeData * World :=
  match fetchFromAI from to w with
  | (Returns d, w1) => (Returns d, w1)
  | (Throws err, w1) =>
      match retries with
      | S retries' =>
          if isQuota err
          then attemptAIFetchWithRetry from to retries' (sleep 2000 w1)
          else (Throws err, w1)
      | O => (Throws err, w1)
      end
  end.

Definition fetchRealTimeRate (from to : CurrencyCode) (w : World)
  : outcome ExchangeData * World :=
  let '(searchFrom, searchTo, shouldInvert) := canonical from to in
  let pairId := pairKey searchFrom searchTo in
  let '(r, w1) := select_single pairId w in
  let '(fresh, staleRecord) := check_cache r w1 in
  match fresh with
  | Some result => (Returns (finish shouldInvert result), w1)
  | None =>
      match attemptAIFetchWithRetry searchFrom searchTo 2 w1 with
      | (Returns aiResult, w2) =>
          let w3 :=
            if JS.ltb (Num 0) (rate aiResult)
            then upsert pairId (upsert_row aiResult (clock w2)) w2
            else w2 in
          (Returns (finish shouldInvert aiResult), w3)
      | (Throws aiError, w2) =>
          match staleRecord with
          | Some stale =>
              (Returns (finish shouldInvert
                          (mark_cached (mapDbToExchangeData (locale_time w2) stale))),
               w2)
          | None => (Throws aiError, w2)
          end
      end
  end.

End Legacy.
(** * Vocabulary of the properties *)

(** [p] occurs in [s]. *)
Definition occurs (p s : text) : Prop := exists a b, s = a ++ p ++ b.



(** The instant at which a cache read begun now ends, and the instant at
    which an oracle query begun now ends. *)
Definition read_end (w : World) : Z :=
  (clock w + Z.of_N (select_latency w (clock w)))%Z.
Definition query_end (w : World) : Z :=
  (clock w + Z.of_N (oracle_latency w (calls w)))%Z.

(** The pair searched for, the key of its cache record and the invert flag
    of a request. *)
Definition searchFrom (from to : CurrencyCode) : CurrencyCode :=
  fst (fst (canonical from to)).
Definition searchTo (from to : CurrencyCode) : CurrencyCode :=
  snd (fst (canonical from to)).
Definition shouldInvert (from to : CurrencyCode) : bool :=
  snd (canonical from to).
Definition pairId (from to : CurrencyCode) : string :=
  pairKey (searchFrom from to) (searchTo from to).

(** Steps 1-2 of a resolution: what the cache check yields, and the world
    after it. *)
Definition cache_lookup (from to : CurrencyCode) (w : World)
  : option ExchangeData * option DbRow :=
  check_cache (fst (select_single (pairId from to) w))
              (snd (select_single (pairId from to) w)).

Definition after_select (from to : CurrencyCode) (w : World) : World :=
  snd (select_single (pairId from to) w).

(** Step 3: the retry-wrapped oracle query of a resolution. *)
Definition oracle_attempt (from to : CurrencyCode) (w : World)
  : outcome ExchangeData * World :=
  attemptAIFetchWithRetry (searchFrom from to) (searchTo from to) 1
    (after_select from to w).


(** The two keys of the session cache for the pair on display. *)
Definition cacheKey (st : AppState) : string :=
  pairKey (fromCurrency st) (toCurrency st).
Definition inverseKey (st : AppState) : string :=
  pairKey (toCurrency st) (fromCurrency st).

(** The text handed to the parser. *)
Definition response_text (response : GenerateContentResponse) : text :=
  default [] (resp_text response).

Definition with_upsert_fails (b : bool) (w : World) : World :=
  {| clock := clock w; locale_time := locale_time w; store := store w;
     select_mode := select_mode w; select_latency := select_latency w;
     upsert_fails := b;
     oracle := oracle w; oracle_latency := oracle_latency w;
     calls := calls w; trace := trace w |}.

(** The key an event reads or writes in the persistent cache. *)
Definition event_pair (e : Event) : option string :=
  match e with
  | EvSelect k | EvUpsert k _ => Some k
  | _ => None
  end.

Definition outcome_map {A B : Type} (f : A -> B) (o : outcome A) : outcome B :=
  match o with
  | Returns a => Returns (f a)
  | Throws e => Throws e
  end.

(** What a run of the oracle path may change: the clock, the count of
    queries and the trace, the latter only by oracle events. *)
Record oracle_step (w w' : World) : Prop := {
  step_store : store w' = store w;
  step_mode : select_mode w' = select_mode w;
  step_upsert : upsert_fails w' = upsert_fails w;
  step_oracle : oracle w' = oracle w;
  step_locale : locale_time w' = locale_time w;
  step_calls : (calls w < calls w')%nat;
  step_trace : exists evs, trace w' = trace w ++ evs /\
                           Forall (fun e => event_pair e = None) evs
}.

(** [cap] is the content of the first fenced block of [t]: no opening
    fence starts before the one of the block, and no closing fence starts
    after that opening fence before the one that ends the block. *)
Definition first_fenced_block (t cap : text) : Prop :=
  exists a b,
    t = a ++ fence_open ++ cap ++ fence_close ++ b /\
    (forall a' b', t = a' ++ fence_open ++ b' -> (length a <= length a')%nat) /\
    (forall c' b', cap ++ fence_close ++ b = c' ++ fence_close ++ b' ->
                   (length cap <= length c')%nat).



(** *** The regular expressions of the fallback, in words *)

(** A year of the decade at the head of a text: 202 and a digit. *)
Definition year_at (s : text) : Prop :=
  exists d rest, s = ch "2" :: ch "0" :: ch "2" :: d :: rest /\ is_digit d = true.











(** *** The claims that fail as they are stated *)

(** Inversion maps a present [parallelRate] to its reciprocal whenever it
    inverts. *)
Definition inversion_as_stated : Prop :=
  forall d : ExchangeData,
    JS.ltb (Num 0) (rate d) = true ->
    parallelRate (invertExchangeData d) = option_map JS.recip (parallelRate d).

(** A successful resolution has a strictly positive rate. *)
Definition positive_rate_as_stated : Prop :=
  forall from to w q w',
    fetchRealTimeRate from to w = (Returns q, w') ->
    JS.ltb (Num 0) (rate q) = true.

(** No quote is surfaced with a [parallelRate] equal to 0. *)
Definition no_zero_parallel_surfaced : Prop :=
  forall from to w q w' p,
    fetchRealTimeRate from to w = (Returns q, w') ->
    parallelRate q = Some p ->
    JS.eqb p (Num 0) = false.

(** The inversion of the orchestrator maps a [parallelRate] of 0 to absent. *)
Definition inversion_drops_zero_parallel : Prop :=
  forall d p,
    parallelRate d = Some p -> JS.eqb p (Num 0) = true ->
    parallelRate (invertExchangeData d) = None.

(** The quotes of the two orientations are reciprocal in [rate] and
    [parallelRate]. *)
Definition reciprocal_quotes (direct inverse : ExchangeData) : Prop :=
  rate inverse = JS.recip (rate direct) /\
  parallelRate inverse = option_map JS.recip (parallelRate direct).

Definition symmetry_as_stated : Prop :=
  forall foreign w q w1 q' w2,
    foreign <> NGN ->
    fetchRealTimeRate foreign NGN w = (Returns q, w1) ->
    fetchRealTimeRate NGN foreign w = (Returns q', w2) ->
    JS.ltb (Num 0) (rate q) = true ->
    reciprocal_quotes q q'.

(** On an inverse cache hit the quote shown is the inverted quote of the
    cached entry, by the inversion step of the orchestrator. *)
Definition inverse_hit_as_stated : Prop :=
  forall st w invData,
    ratesCache st !! cacheKey st = None ->
    ratesCache st !! inverseKey st = Some invData ->
    data (fst (loadData false st w)) = Some (invertExchangeData invData).

(** *** Worlds and texts of the examples *)

Definition respond_with (t : text) : CurrencyCode -> CurrencyCode -> nat -> OracleOutcome :=
  fun _ _ _ =>
    Responds {| resp_text := Some t; groundingChunks := [] |}.

Definition fail_with (e : JsError) : CurrencyCode -> CurrencyCode -> nat -> OracleOutcome :=
  fun _ _ _ => Fails e.

Definition make_world (now : Z) (st : gmap string DbRow) (mode : SelectMode)
  (o : CurrencyCode -> CurrencyCode -> nat -> OracleOutcome) : World :=
  {| clock := now; locale_time := fun _ => "10:15:00 AM"; store := st;
     select_mode := mode; select_latency := fun _ => 0%N;
     upsert_fails := false; oracle := o; oracle_latency := fun _ => 0%N;
     calls := 0; trace := [] |}.

Definition text_zero_parallel : text :=
  quoted "```json
{'rate': 1500.5, 'parallelRate': '0'}
```".

Definition text_negative : text :=
  quoted "```json
{'rate': -5}
```".

Definition world_zero_parallel : World :=
  make_world 1700000000000 ∅ SelectAnswers (respond_with text_zero_parallel).

Definition world_negative : World :=
  make_world 1700000000000 ∅ SelectAnswers (respond_with text_negative).

(** An oracle that declares an infinite rate. *)
Definition text_infinite : text :=
  quoted "```json
{'rate': 'Infinity'}
```".

Definition world_infinite : World :=
  make_world 1700000000000 ∅ SelectAnswers (respond_with text_infinite).

Definition quote_zero_parallel : ExchangeData :=
  {| rate := Num 2; parallelRate := Some (Num 0);
     lastUpdated := "10:15:00 AM"; summary := txt "Stable."; sources := [] |}.

Definition quote_all_zero : ExchangeData :=
  {| rate := Num 0; parallelRate := Some (Num 0);
     lastUpdated := "10:15:00 AM"; summary := txt "Stable."; sources := [] |}.

Definition quote_zero_rate : ExchangeData :=
  {| rate := Num 0; parallelRate := Some (Num 1600);
     lastUpdated := "10:15:00 AM"; summary := txt "Stable."; sources := [] |}.

Definition error_429 : JsError :=
  {| err_status := Some 429%Z; err_code := None;
     err_message := Some "Resource has been exhausted" |}.

Definition error_network : JsError :=
  {| err_status := None; err_code := None; err_message := Some "fetch failed" |}.

Definition world_rate_limited : World :=
  make_world 1700000000000 ∅ SelectAnswers (fail_with error_429).

Definition world_offline : World :=
  make_world 1700000000000 ∅ SelectAnswers (fail_with error_network).

Definition row_1600 (updated : Z) : DbRow :=
  {| db_rate := Num 1600; db_parallel_rate := None; db_summary := txt "Stable.";
     db_sources := None; db_updated_at := updated |}.

Definition minutes (m s : Z) : Z := ((m * 60 + s) * 1000)%Z.

(** A record aged 29 min 59 s, and one aged 30 min 01 s. *)
Definition world_fresh : World :=
  make_world 1700000000000
    (<["USD-NGN" := row_1600 (1700000000000 - minutes 29 59)]> ∅)
    SelectAnswers (fail_with error_network).

Definition world_stale : World :=
  make_world 1700000000000
    (<["USD-NGN" := row_1600 (1700000000000 - minutes 30 1)]> ∅)
    SelectAnswers (fail_with error_network).

(** A stale record and an oracle that declares a negative rate. *)
Definition world_stale_negative : World :=
  make_world 1700000000000
    (<["USD-NGN" := row_1600 (1700000000000 - minutes 30 1)]> ∅)
    SelectAnswers (respond_with text_negative).

(** The same records behind a store accessor that takes 2 seconds to
    answer. *)
Definition slow_read (w : World) : World :=
  {| clock := clock w; locale_time := locale_time w; store := store w;
     select_mode := select_mode w; select_latency := fun _ => 2000%N;
     upsert_fails := upsert_fails w;
     oracle := oracle w; oracle_latency := fun _ => 700%N;
     calls := calls w; trace := trace w |}.

Definition text_scenario : text :=
  quoted "Today the naira trades near 1,545.10 per dollar.
```json
{'rate': 1550.25, 'parallelRate': 1600.0, 'summary': 'Stable.'}
```".

Definition world_scenario : World :=
  make_world 1700000000000 ∅ SelectAnswers (respond_with text_scenario).

Definition quote_scenario : ExchangeData :=
  {| rate := JS.round 1550.25; parallelRate := Some (JS.round 1600.0);
     lastUpdated := "10:15:00 AM"; summary := txt "Stable."; sources := [] |}.

Definition quote_1600 : ExchangeData :=
  {| rate := Num 1600; parallelRate := None;
     lastUpdated := "10:15:00 AM"; summary := txt "Stable."; sources := [] |}.

Definition app_with (from to : CurrencyCode) (cache : gmap string ExchangeData)
  : AppState :=
  {| data := None; loading := true; error := None;
     fromCurrency := from; toCurrency := to; ratesCache := cache |}.

Definition text_prose : text :=
  txt "In 2024 the dollar sold at 1,545.10 naira, up from 1,500 last week.".

Definition response_two_citations : GenerateContentResponse :=
  {| resp_text := Some text_scenario;
     groundingChunks :=
       [ {| web := Some {| title := "CBN"; uri := "https://www.cbn.gov.ng" |} |};
         {| web := None |};
         {| web := Some {| title := "AbokiFX"; uri := "https://abokifx.com" |} |} ] |}.


(** *** Vocabulary of the further properties *)

(** Time passing between two resolutions. *)
Definition elapse (dt : Z) (w : World) : World :=
  {| clock := clock w + dt; locale_time := locale_time w; store := store w;
     select_mode := select_mode w; select_latency := select_latency w;
     upsert_fails := upsert_fails w;
     oracle := oracle w; oracle_latency := oracle_latency w;
     calls := calls w; trace := trace w |}.

(** A row as the resolution writes them: a positive rate, and a parallel
    rate that is either null or neither 0 nor NaN. *)
Definition clean_row (row : DbRow) : Prop :=
  JS.ltb (Num 0) (db_rate row) = true /\
  forall p, db_parallel_rate row = Some p -> JS.truthy p = true.

(** The orchestrator is called by [loadData]: on a forced refresh, or when
    neither key of the pair is cached. *)
Definition needs_fetch (forceRefresh : bool) (st : AppState) : Prop :=
  forceRefresh = true \/
  (ratesCache st !! cacheKey st = None /\ ratesCache st !! inverseKey st = None).

(** The legacy counterpart of [oracle_attempt]. *)
Definition legacy_attempt (from to : CurrencyCode) (w : World)
  : outcome ExchangeData * World :=
  Legacy.attemptAIFetchWithRetry (searchFrom from to) (searchTo from to) 2
    (after_select from to w).

Definition brace_open : char := ch "{".
Definition brace_close : char := ch "}".

Definition text_bare_object : text :=
  quoted "Here you go: {'rate': 1550.25, 'summary': 'Stable.'} as asked".

Definition text_no_number : text :=
  txt "I could not find a current rate for this pair.".

Definition world_no_number : World :=
  make_world 1700000000000 ∅ SelectAnswers (respond_with text_no_number).

(** A fenced block that is not JSON, followed by a bare object. *)
Definition text_malformed_fence : text :=
  quoted "```json
{rate: 1550.25}
```
{'rate': 1550.25}".

Definition response_of (t : text) : GenerateContentResponse :=
  {| resp_text := Some t; groundingChunks := [] |}.

(** The state of the application after the pair on display was swapped and
    the effect reloaded the data. *)
Definition swap_and_load (st : AppState) (w : World) : AppState * World :=
  loadData false (handleSwap st) w.

(** Exactly one side of the pair on display is the domestic currency. *)
Definition naira_pair (st : AppState) : Prop :=
  (fromCurrency st = NGN /\ toCurrency st <> NGN) \/
  (fromCurrency st <> NGN /\ toCurrency st = NGN).

Definition quote_negative : ExchangeData :=
  {| rate := Num (-5); parallelRate := Some (Num 4);
     lastUpdated := "10:15:00 AM"; summary := txt "Stable."; sources := [] |}.

(** The quote the parsing logic builds once the rate is settled. *)
Definition quote_of (r : number) (st : Parsing) (s : text) (nowLabel : string)
  (response : GenerateContentResponse) : ExchangeData :=
  {| rate := r;
     parallelRate := detectedParallel st;
     lastUpdated := nowLabel;
     summary := trim (strip_fence s);
     sources := extract_sources (groundingChunks response) |}.

Definition with_select_mode (m : SelectMode) (w : World) : World :=
  {| clock := clock w; locale_time := locale_time w; store := store w;
     select_mode := m; select_latency := select_latency w;
     upsert_fails := upsert_fails w;
     oracle := oracle w; oracle_latency := oracle_latency w;
     calls := calls w; trace := trace w |}.

(** The time taken by [n] oracle queries in a row, from the [k]-th on. *)
Fixpoint queries_time (latency : nat -> N) (k n : nat) : Z :=
  match n with
  | O => 0
  | S n' => Z.of_N (latency k) + queries_time latency (S k) n'
  end.

(** The events of [n] retries: a pause of 2000 ms and a query, [n] times. *)
Fixpoint retries_events (query : Event) (n : nat) : list Event :=
  match n with
  | O => []
  | S n' => EvSleep 2000 :: query :: retries_events query n'
  end.
(** * Properties *)

(** ** Occurrences of a pattern in a text *)

Section Occurrences.

Implicit Types p s a b : text.

Lemma strip_prefix_Some p s r : strip_prefix p s = Some r <-> s = p ++ r.
Proof.
  revert s; induction p as [|c p IH]; intros s; simpl.
  - split; congruence.
  - destruct s as [|d s]; [split; discriminate|].
    destruct (N.eqb_spec c d) as [->|Hne].
    + rewrite IH. split; congruence.
    + split; [discriminate | intros [=]; congruence].
Qed.

Lemma strip_prefix_app p r : strip_prefix p (p ++ r) = Some r.
Proof. now apply strip_prefix_Some. Qed.

Lemma find_first_Some p s a b : find_first p s = Some (a, b) -> s = a ++ p ++ b.
Proof.
  revert a; induction s as [|c s IH]; intros a; simpl.
  - destruct (strip_prefix p []) eqn:E; [|discriminate].
    intros [= <- <-]. now apply strip_prefix_Some in E.
  - destruct (strip_prefix p (c :: s)) eqn:E.
    + intros [= <- <-]. now apply strip_prefix_Some in E.
    + destruct (find_first p s) as [[a0 b0]|]; [|discriminate].
      intros [= <- <-]. simpl. f_equal. now apply IH.
Qed.

Lemma find_first_leftmost p s a b :
  find_first p s = Some (a, b) ->
  forall a' b', s = a' ++ p ++ b' -> (length a <= length a')%nat.
Proof.
  revert a; induction s as [|c s IH]; intros a; simpl.
  - destruct (strip_prefix p []); [|discriminate].
    intros [= <- <-] a' b' _. simpl. lia.
  - destruct (strip_prefix p (c :: s)) eqn:E.
    + intros [= <- <-] a' b' _. simpl. lia.
    + destruct (find_first p s) as [[a0 b0]|] eqn:F; [|discriminate].
      intros [= <- <-] a' b' Hs. destruct a' as [|c' a'].
      * simpl in Hs. rewrite Hs, strip_prefix_app in E. discriminate.
      * simpl in Hs. injection Hs as _ Hs. simpl.
        specialize (IH a0 eq_refl a' b' Hs). lia.
Qed.

Lemma find_first_None p s : find_first p s = None -> ~ occurs p s.
Proof.
  induction s as [|c s IH]; simpl.
  - destruct (strip_prefix p []) eqn:E; [discriminate|].
    intros _ (a & b & Hs). destruct a; [|discriminate].
    simpl in Hs. rewrite Hs, strip_prefix_app in E. discriminate.
  - destruct (strip_prefix p (c :: s)) eqn:E; [discriminate|].
    destruct (find_first p s) as [[a0 b0]|]; [discriminate|].
    intros _ (a & b & Hs). destruct a as [|c' a].
    + simpl in Hs. rewrite Hs, strip_prefix_app in E. discriminate.
    + injection Hs as _ Hs. apply IH; [reflexivity|]. now exists a, b.
Qed.

Lemma find_last_Some p s a b : find_last p s = Some (a, b) -> s = a ++ p ++ b.
Proof.
  revert a; induction s as [|c s IH]; intros a; simpl.
  - destruct (strip_prefix p []) eqn:E; [|discriminate].
    intros [= <- <-]. now apply strip_prefix_Some in E.
  - destruct (find_last p s) as [[a0 b0]|].
    + intros [= <- <-]. simpl. f_equal. now apply IH.
    + destruct (strip_prefix p (c :: s)) eqn:E; [|discriminate].
      intros [= <- <-]. now apply strip_prefix_Some in E.
Qed.



Lemma includes_true p s : includes p s = true <-> occurs p s.
Proof.
  unfold includes. destruct (find_first p s) as [[a b]|] eqn:F.
  - split; [intros _|reflexivity]. exists a, b. now apply find_first_Some.
  - split; [discriminate|]. intros H. now apply find_first_None in F.
Qed.

Lemma trim_start_suffix s : exists a, s = a ++ trim_start s.
Proof.
  induction s as [|c s [a IH]]; simpl.
  - now exists [].
  - destruct (is_space c).
    + exists (c :: a). simpl. now f_equal.
    + now exists [].
Qed.


Lemma find_first_complete p s a b :
  s = a ++ p ++ b ->
  (forall a' b', s = a' ++ p ++ b' -> (length a <= length a')%nat) ->
  find_first p s = Some (a, b).
Proof.
  intros Hs Hmin.
  destruct (find_first p s) as [[a0 b0]|] eqn:F.
  - pose proof (find_first_Some _ _ _ _ F) as Hs0.
    pose proof (find_first_leftmost _ _ _ _ F a b Hs) as H1.
    pose proof (Hmin a0 b0 Hs0) as H2.
    rewrite Hs in Hs0.
    apply app_inj_1 in Hs0 as [-> Hb]; [|lia].
    now apply app_inv_head in Hb as ->.
  - exfalso. apply (find_first_None _ _ F). now exists a, b.
Qed.

End Occurrences.

(** ** The fenced block and the summary *)




(** ** The first fenced block *)

Lemma match_fenced_spec t cap :
  match_fenced t = Some (fence_open ++ cap ++ fence_close, cap)
  <-> first_fenced_block t cap.
Proof.
  unfold match_fenced, first_fenced_block. split.
  - destruct (find_first fence_open t) as [[a rest]|] eqn:F; [|discriminate].
    destruct (find_first fence_close rest) as [[cap0 b]|] eqn:G; [|discriminate].
    intros [= _ ->].
    pose proof (find_first_Some _ _ _ _ F) as ->.
    pose proof (find_first_Some _ _ _ _ G) as Hr.
    exists a, b. split; [now rewrite Hr|]. split.
    + exact (find_first_leftmost _ _ _ _ F).
    + rewrite <- Hr. exact (find_first_leftmost _ _ _ _ G).
  - intros (a & b & Ht & Hmin & Hlazy).
    rewrite (find_first_complete fence_open t a (cap ++ fence_close ++ b) Ht Hmin).
    now rewrite (find_first_complete fence_close _ cap b eq_refl Hlazy).
Qed.

(** ** Shape of the numeric tokens *)

Lemma take_digits_spec n s ds r :
  take_digits n s = (ds, r) ->
  s = ds ++ r /\ (length ds <= n)%nat /\ forallb is_digit ds = true.
Proof.
  revert s ds r; induction n as [|n IH]; intros s ds r; simpl.
  - destruct s; intros [= <- <-]; simpl; auto with arith.
  - destruct s as [|c s]; [intros [= <- <-]; simpl; auto with arith|].
    destruct (is_digit c) eqn:D; [|intros [= <- <-]; simpl; auto with arith].
    destruct (take_digits n s) as [ds0 r0] eqn:T. intros [= <- <-].
    destruct (IH _ _ _ T) as (-> & Hl & Hd). simpl.
    rewrite D, Hd. repeat split; auto with arith.
Qed.






(** ** The fuel of the scanners is enough *)

Lemma take_digits_fuel n m s :
  (length s <= n)%nat -> (length s <= m)%nat ->
  take_digits n s = take_digits m s.
Proof.
  revert m s; induction n as [|n IH]; intros m s Hn Hm.
  - destruct s; [|simpl in Hn; lia]. now destruct m.
  - destruct m as [|m]; [destruct s; [reflexivity | simpl in Hm; lia]|].
    destruct s as [|c s]; [reflexivity|]. simpl in *.
    destruct (is_digit c); [|reflexivity].
    rewrite (IH m s); [reflexivity | lia | lia].
Qed.


Lemma take_groups_fuel n m s :
  (length s <= n)%nat -> (length s <= m)%nat ->
  take_groups n s = take_groups m s.
Proof.
  revert m s; induction n as [|n IH]; intros m s Hn Hm.
  - destruct s; [|simpl in Hn; lia]. now destruct m.
  - destruct m as [|m]; [destruct s; [reflexivity | simpl in Hm; lia]|].
    destruct s as [|sep [|a [|b [|c r]]]]; try reflexivity. simpl in *.
    destruct (N.eqb sep (ch ",") && is_digit a && is_digit b && is_digit c);
      [|reflexivity].
    rewrite (IH m r); [reflexivity | lia | lia].
Qed.



(** The tokens and what is left between them make up the text: scanning
    [a ++ s] where [a] holds no digit gives the tokens of [s]. *)
Lemma scan_tokens_skip fuel c s :
  is_digit c = false ->
  scan_tokens (S fuel) (c :: s) = scan_tokens fuel s.
Proof.
  intros D. simpl. unfold match_token. simpl. now rewrite D.
Qed.

(** ** The fuel of the JSON parser is enough *)

Lemma skip_ws_length s : (length (skip_ws s) <= length s)%nat.
Proof.
  induction s as [|c s IH]; simpl; [lia|].
  destruct (json_ws c); simpl; lia.
Qed.

Lemma expect_length c s r : expect c s = Some r -> (length r < length s)%nat.
Proof.
  unfold expect. pose proof (skip_ws_length s) as H.
  destruct (skip_ws s) as [|c' r']; [discriminate|].
  destruct (N.eqb c c'); [|discriminate].
  intros [= <-]. simpl in H. lia.
Qed.

Lemma parse_string_body_length s cs r :
  parse_string_body s = Some (cs, r) -> (length r < length s)%nat.
Proof.
  assert (G : forall n s0, (length s0 <= n)%nat ->
              forall cs0 r0, parse_string_body s0 = Some (cs0, r0) ->
                             (length r0 < length s0)%nat).
  { induction n as [|n IH]; intros s0 Hn cs0 r0.
    - destruct s0; [discriminate | simpl in Hn; lia].
    - destruct s0 as [|c s']; [discriminate|]. simpl in Hn. simpl.
      destruct (N.eqb c dq); [intros [= _ <-]; lia|].
      destruct (N.eqb c (ch "\")).
      + destruct s' as [|e s'']; [discriminate|]. simpl in Hn.
        destruct (N.eqb e (ch "u")).
        * destruct s'' as [|h1 [|h2 [|h3 [|h4 s3]]]]; try discriminate.
          simpl in Hn.
          destruct (hex_val h1) as [a1|]; try discriminate.
          destruct (hex_val h2) as [a2|]; try discriminate.
          destruct (hex_val h3) as [a3|]; try discriminate.
          destruct (hex_val h4) as [a4|]; try discriminate.
          destruct (parse_string_body s3) as [[cs1 r1]|] eqn:E; [|discriminate].
          intros [= _ <-]. apply IH in E; [|lia]. simpl. lia.
        * destruct (unescape e); [|discriminate].
          destruct (parse_string_body s'') as [[cs1 r1]|] eqn:E; [|discriminate].
          intros [= _ <-]. apply IH in E; [|lia]. simpl. lia.
      + destruct (c <? 32)%N; [discriminate|].
        destruct (parse_string_body s') as [[cs1 r1]|] eqn:E; [|discriminate].
        intros [= _ <-]. apply IH in E; [|lia]. simpl. lia. }
  apply (G (length s)). lia.
Qed.

Lemma take_char_length c s b r :
  take_char c s = (b, r) -> (length r <= length s)%nat.
Proof.
  unfold take_char. destruct s as [|c' s']; [intros [= _ <-]; lia|].
  destruct (N.eqb c c'); intros [= _ <-]; simpl; lia.
Qed.

Lemma take_sign_length s b r :
  take_sign s = (b, r) -> (length r <= length s)%nat.
Proof.
  unfold take_sign.
  destruct (take_char (ch "-") s) as [[|] r1] eqn:E1.
  - intros [= _ <-]. now apply take_char_length in E1.
  - destruct (take_char (ch "+") s) as [b2 r2] eqn:E2.
    intros [= _ <-]. now apply take_char_length in E2.
Qed.

Lemma take_digits1_length s ds r :
  take_digits1 s = Some (ds, r) -> (length r < length s)%nat.
Proof.
  unfold take_digits1.
  destruct (take_digits (length s) s) as [ds0 r0] eqn:T.
  destruct (take_digits_spec _ _ _ _ T) as (Hs & _ & _).
  destruct ds0; [discriminate|]. intros [= <- <-].
  rewrite Hs, length_app. simpl. lia.
Qed.

Lemma parse_fraction_length s fr r :
  parse_fraction s = Some (fr, r) -> (length r <= length s)%nat.
Proof.
  unfold parse_fraction. destruct (take_char (ch ".") s) as [[|] r1] eqn:E.
  - intros H. apply take_digits1_length in H. apply take_char_length in E. lia.
  - intros [= _ <-]. lia.
Qed.

Lemma parse_exponent_length s e r :
  parse_exponent s = Some (e, r) -> (length r <= length s)%nat.
Proof.
  unfold parse_exponent. destruct s as [|c s']; [intros [= _ <-]; lia|].
  destruct (N.eqb c (ch "e") || N.eqb c (ch "E"));
    [|intros [= _ <-]; lia].
  destruct (take_sign s') as [eneg r1] eqn:S1.
  destruct (take_digits1 r1) as [[ds r2]|] eqn:D; [|discriminate].
  intros [= _ <-]. apply take_sign_length in S1.
  apply take_digits1_length in D. simpl. lia.
Qed.

Lemma parse_number_length s q r :
  parse_number s = Some (q, r) -> (length r < length s)%nat.
Proof.
  unfold parse_number.
  destruct (take_char (ch "-") s) as [neg s1] eqn:E1.
  destruct (take_digits1 s1) as [[int s2]|] eqn:E2; [|discriminate].
  destruct (leading_zero int); [discriminate|].
  destruct (parse_fraction s2) as [[fr s3]|] eqn:E3; [|discriminate].
  destruct (parse_exponent s3) as [[e s4]|] eqn:E4; [|discriminate].
  intros [= _ <-].
  apply take_char_length in E1. apply take_digits1_length in E2.
  apply parse_fraction_length in E3. apply parse_exponent_length in E4. lia.
Qed.

Lemma parse_literal_length word v s x r :
  parse_literal word v s = Some (x, r) ->
  (0 < length (txt word))%nat ->
  (length r < length s)%nat.
Proof.
  unfold parse_literal. destruct (strip_prefix (txt word) s) as [r0|] eqn:E;
    [|discriminate].
  intros [= _ <-] Hw. apply strip_prefix_Some in E.
  rewrite E, length_app. lia.
Qed.

Ltac refuel f' :=
  intros [|f'] ?; [lia|];
  cbn [parse_value parse_members parse_elements];
  unfold value_step, members_step, elements_step.

Lemma parse_fuel_enough f :
  (forall s v r,
     parse_value f s = Some (v, r) ->
     (length r < length s)%nat /\
     forall f', (2 * (length s - length r) <= f')%nat ->
                parse_value f' s = Some (v, r)) /\
  (forall s ms r,
     parse_members f s = Some (ms, r) ->
     (length r < length s)%nat /\
     forall f', (2 * (length s - length r) <= f')%nat ->
                parse_members f' s = Some (ms, r)) /\
  (forall s vs r,
     parse_elements f s = Some (vs, r) ->
     (length r < length s)%nat /\
     forall f', (2 * (length s - length r) <= f')%nat ->
                parse_elements f' s = Some (vs, r)).
Proof.
  induction f as [|f (IHv & IHm & IHe)]; [repeat split; discriminate|].
  split; [|split].
  - intros s v r. cbn [parse_value]. unfold value_step.
    pose proof (skip_ws_length s) as Hws.
    destruct (skip_ws s) as [|c r0] eqn:Es; [discriminate|]. simpl in Hws.
    destruct (N.eqb c (ch "{")) eqn:E1.
    { destruct (expect (ch "}") r0) as [r'|] eqn:Ex.
      - intros [= <- <-]. pose proof (expect_length _ _ _ Ex).
        split; [lia|]. refuel f'. now rewrite Es, E1, Ex.
      - destruct (parse_members f r0) as [[ms r']|] eqn:Em; [|discriminate].
        intros [= <- <-]. destruct (IHm _ _ _ Em) as [Hl Hf0].
        split; [lia|]. refuel f'. rewrite Es, E1, Ex, (Hf0 f'); [reflexivity|lia]. }
    destruct (N.eqb c (ch "[")) eqn:E2.
    { destruct (expect (ch "]") r0) as [r'|] eqn:Ex.
      - intros [= <- <-]. pose proof (expect_length _ _ _ Ex).
        split; [lia|]. refuel f'. now rewrite Es, E1, E2, Ex.
      - destruct (parse_elements f r0) as [[vs r']|] eqn:Em; [|discriminate].
        intros [= <- <-]. destruct (IHe _ _ _ Em) as [Hl Hf0].
        split; [lia|]. refuel f'.
        rewrite Es, E1, E2, Ex, (Hf0 f'); [reflexivity|lia]. }
    destruct (N.eqb c dq) eqn:E3.
    { destruct (parse_string_body r0) as [[cs r']|] eqn:Eb; [|discriminate].
      intros [= <- <-]. pose proof (parse_string_body_length _ _ _ Eb).
      split; [lia|]. refuel f'. now rewrite Es, E1, E2, E3, Eb. }
    destruct (N.eqb c (ch "t")) eqn:E4.
    { intros H. pose proof (parse_literal_length "true" _ _ _ _ H ltac:(simpl; lia)) as Hlen.
      simpl in Hlen. split; [lia|]. refuel f'. now rewrite Es, E1, E2, E3, E4. }
    destruct (N.eqb c (ch "f")) eqn:E5.
    { intros H. pose proof (parse_literal_length "false" _ _ _ _ H ltac:(simpl; lia)) as Hlen.
      simpl in Hlen. split; [lia|]. refuel f'. now rewrite Es, E1, E2, E3, E4, E5. }
    destruct (N.eqb c (ch "n")) eqn:E6.
    { intros H. pose proof (parse_literal_length "null" _ _ _ _ H ltac:(simpl; lia)) as Hlen.
      simpl in Hlen. split; [lia|]. refuel f'. now rewrite Es, E1, E2, E3, E4, E5, E6. }
    destruct (parse_number (c :: r0)) as [[q r']|] eqn:En; [|discriminate].
    intros [= <- <-]. pose proof (parse_number_length _ _ _ En) as Hlen.
    simpl in Hlen. split; [lia|]. refuel f'. now rewrite Es, E1, E2, E3, E4, E5, E6, En.
  - intros s ms r. cbn [parse_members]. unfold members_step.
    destruct (expect dq s) as [r0|] eqn:Eq; [|discriminate].
    destruct (parse_string_body r0) as [[k r1]|] eqn:Eb; [|discriminate].
    destruct (expect (ch ":") r1) as [r2|] eqn:Ec; [|discriminate].
    destruct (parse_value f r2) as [[v r3]|] eqn:Ev; [|discriminate].
    pose proof (skip_ws_length r3) as Hws.
    destruct (skip_ws r3) as [|c r4] eqn:Es; [discriminate|]. simpl in Hws.
    pose proof (expect_length _ _ _ Eq).
    pose proof (parse_string_body_length _ _ _ Eb).
    pose proof (expect_length _ _ _ Ec).
    destruct (IHv _ _ _ Ev) as [Hl Hf0].
    destruct (N.eqb c (ch ",")) eqn:E1.
    + destruct (parse_members f r4) as [[ms0 r5]|] eqn:Em; [|discriminate].
      intros [= <- <-]. destruct (IHm _ _ _ Em) as [Hl1 Hf1].
      split; [lia|]. refuel f'.
      rewrite Eq, Eb, Ec, (Hf0 f'), Es, E1, (Hf1 f'); [reflexivity|lia|lia].
    + destruct (N.eqb c (ch "}")) eqn:E2; [|discriminate].
      intros [= <- <-]. split; [lia|]. refuel f'.
      rewrite Eq, Eb, Ec, (Hf0 f'), Es, E1, E2; [reflexivity|lia].
  - intros s vs r. cbn [parse_elements]. unfold elements_step.
    destruct (parse_value f s) as [[v r0]|] eqn:Ev; [|discriminate].
    pose proof (skip_ws_length r0) as Hws.
    destruct (skip_ws r0) as [|c r1] eqn:Es; [discriminate|]. simpl in Hws.
    destruct (IHv _ _ _ Ev) as [Hl Hf0].
    destruct (N.eqb c (ch ",")) eqn:E1.
    + destruct (parse_elements f r1) as [[vs0 r2]|] eqn:Em; [|discriminate].
      intros [= <- <-]. destruct (IHe _ _ _ Em) as [Hl1 Hf1].
      split; [lia|]. refuel f'.
      rewrite (Hf0 f'), Es, E1, (Hf1 f'); [reflexivity|lia|lia].
    + destruct (N.eqb c (ch "]")) eqn:E2; [|discriminate].
      intros [= <- <-]. split; [lia|]. refuel f'.
      rewrite (Hf0 f'), Es, E1, E2; [reflexivity|lia].
Qed.

(** Whatever a run of the parser with some fuel accepts, [JSON_parse]
    accepts. *)
Lemma JSON_parse_complete f s v r :
  parse_value f s = Some (v, r) -> skip_ws r = [] -> JSON_parse s = Some v.
Proof.
  intros H Hr. unfold JSON_parse.
  destruct (proj1 (parse_fuel_enough f) _ _ _ H) as [_ Hf].
  rewrite (Hf (2 + 2 * length s)%nat); [now rewrite Hr | lia].
Qed.

(** ** Numbers *)

Lemma ltb_zero_not_leb r : JS.ltb (Num 0) r = true -> JS.leb r (Num 0) = false.
Proof.
  destruct r as [q| |[|]]; simpl; try discriminate; try reflexivity.
  now destruct (Qle_bool q 0).
Qed.

Lemma Qeq_bool_zero_le q : Qeq_bool q 0 = true -> Qle_bool q 0 = true.
Proof.
  intros H. apply Qeq_bool_eq in H. apply Qle_bool_iff. rewrite H. apply Qle_refl.
Qed.

Lemma ltb_zero_truthy r : JS.ltb (Num 0) r = true -> JS.truthy r = true.
Proof.
  destruct r as [q| |[|]]; simpl; try discriminate; try reflexivity.
  destruct (Qeq_bool q 0) eqn:E; [|reflexivity].
  now rewrite (Qeq_bool_zero_le _ E).
Qed.

Lemma eqb_zero_falsy p : JS.eqb p (Num 0) = true -> JS.truthy p = false.
Proof. destruct p as [q| |b]; simpl; try discriminate. now intros ->. Qed.

Lemma falsy_or_absent x :
  (forall p, x = Some p -> JS.truthy p = false) ->
  or_absent x = None /\ recip_or_absent x = None.
Proof.
  destruct x as [p|]; [|now split]. intros H. simpl.
  now rewrite (H p eq_refl).
Qed.

Lemma EMERGENCY_RATES_positive k r :
  EMERGENCY_RATES !! k = Some r -> JS.ltb (Num 0) r = true.
Proof.
  unfold EMERGENCY_RATES. rewrite !lookup_insert.
  repeat case_decide; try (intros [= <-]; reflexivity);
    rewrite lookup_empty; discriminate.
Qed.


(** ** The two branches of the inversion *)

Lemma invert_noop d :
  JS.leb (rate d) (Num 0) = true -> invertExchangeData d = d.
Proof. unfold invertExchangeData. now intros ->. Qed.

Lemma invert_positive d :
  JS.ltb (Num 0) (rate d) = true ->
  invertExchangeData d =
    {| rate := JS.recip (rate d);
       parallelRate := recip_or_absent (parallelRate d);
       lastUpdated := lastUpdated d;
       summary := summary d;
       sources := sources d |}.
Proof.
  intros H. unfold invertExchangeData. now rewrite (ltb_zero_not_leb _ H).
Qed.

Lemma recip_or_absent_truthy p :
  JS.truthy p = true -> recip_or_absent (Some p) = Some (JS.recip p).
Proof. simpl. now intros ->. Qed.

Lemma recip_or_absent_falsy p :
  JS.truthy p = false -> recip_or_absent (Some p) = None.
Proof. simpl. now intros ->. Qed.

(** ** The regular expressions of the fallback *)


Lemma year_at_test c s :
  year_at (c :: s) <->
  match s with
  | c1 :: c2 :: d :: _ =>
      ((c =? ch "2") && (c1 =? ch "0") && (c2 =? ch "2"))%N && is_digit d = true
  | _ => False
  end.
Proof.
  split.
  - intros (d & rest & [= -> ->] & D). now rewrite !N.eqb_refl, D.
  - destruct s as [|c1 [|c2 [|d rest]]]; try tauto.
    rewrite !andb_true_iff, !N.eqb_eq. intros [[[-> ->] ->] D].
    now exists d, rest.
Qed.

Lemma strip_years_keep c s :
  ~ year_at (c :: s) -> strip_years (c :: s) = c :: strip_years s.
Proof.
  rewrite year_at_test. intros H. cbn [strip_years].
  destruct s as [|c1 [|c2 [|d rest]]]; try reflexivity.
  destruct (((c =? ch "2") && (c1 =? ch "0") && (c2 =? ch "2"))%N && is_digit d);
    [now exfalso | reflexivity].
Qed.


(** *** One token *)











(** *** All tokens *)





(** ** Effects of the oracle path on the world *)

Lemma fetchFromAI_world from to w :
  snd (fetchFromAI from to w) = snd (generateContent from to w).
Proof.
  unfold fetchFromAI, generateContent.
  now destruct (oracle w from to (calls w)).
Qed.

Lemma fetchFromAI_fails from to w e :
  oracle w from to (calls w) = Fails e ->
  fetchFromAI from to w = (Throws e, snd (generateContent from to w)).
Proof. unfold fetchFromAI, generateContent. now intros ->. Qed.

Lemma fetchFromAI_responds from to w response :
  oracle w from to (calls w) = Responds response ->
  fetchFromAI from to w =
    (parse_response (locale_time w (query_end w)) response,
     snd (generateContent from to w)).
Proof. unfold fetchFromAI, generateContent. now intros ->. Qed.

Lemma attempt_S from to n w :
  attemptAIFetchWithRetry from to (S n) w =
  match fetchFromAI from to w with
  | (Returns d, w1) => (Returns d, w1)
  | (Throws err, w1) =>
      if isQuota err
      then attemptAIFetchWithRetry from to n (sleep 2000 w1)
      else (Throws err, w1)
  end.
Proof. reflexivity. Qed.

Lemma fetchFromAI_step from to w : oracle_step w (snd (fetchFromAI from to w)).
Proof.
  rewrite fetchFromAI_world. unfold generateContent. simpl.
  split; simpl; try reflexivity; try lia.
  eexists. split; [reflexivity|]. repeat constructor.
Qed.

Lemma oracle_step_trans_sleep w w1 w2 ms :
  oracle_step w w1 -> oracle_step (sleep ms w1) w2 -> oracle_step w w2.
Proof.
  intros [S1 M1 U1 O1 L1 C1 (e1 & T1 & F1)] [S2 M2 U2 O2 L2 C2 (e2 & T2 & F2)].
  simpl in *. split; try congruence; try lia.
  exists (e1 ++ EvSleep ms :: e2). split.
  - rewrite T2, T1, <- !app_assoc. reflexivity.
  - apply Forall_app. split; [exact F1|]. now constructor.
Qed.

Lemma attempt_step from to n w :
  oracle_step w (snd (attemptAIFetchWithRetry from to n w)).
Proof.
  revert w; induction n as [|n IH]; intros w; simpl;
    pose proof (fetchFromAI_step from to w) as Hs;
    destruct (fetchFromAI from to w) as [[d|err] w1]; simpl in *; auto.
  destruct (isQuota err); simpl; auto.
  eapply oracle_step_trans_sleep; [exact Hs | apply IH].
Qed.

Lemma attempt_calls_bound from to n w :
  (calls (snd (attemptAIFetchWithRetry from to n w)) <= calls w + S n)%nat.
Proof.
  revert w; induction n as [|n IH]; intros w; simpl;
    pose proof (fetchFromAI_world from to w) as Hw;
    destruct (fetchFromAI from to w) as [[d|err] w1]; simpl in *;
    subst w1; simpl; try lia.
  destruct (isQuota err); simpl; try lia.
  etransitivity; [apply IH|]. simpl. lia.
Qed.

(** The outcome of the write plays no part in the oracle path. *)
Lemma attempt_upsert_irrelevant b from to n w :
  attemptAIFetchWithRetry from to n (with_upsert_fails b w) =
  (fst (attemptAIFetchWithRetry from to n w),
   with_upsert_fails b (snd (attemptAIFetchWithRetry from to n w))).
Proof.
  revert w; induction n as [|n IH]; intros w; simpl.
  - unfold fetchFromAI, generateContent. simpl.
    destruct (oracle w from to (calls w)) as [resp|e]; simpl.
    + now destruct (parse_response _ resp).
    + reflexivity.
  - unfold fetchFromAI, generateContent. simpl.
    destruct (oracle w from to (calls w)) as [resp|e]; simpl.
    + destruct (parse_response _ resp) as [d|err]; simpl; [reflexivity|].
      destruct (isQuota err); [|reflexivity].
      apply (IH (sleep 2000 (snd (generateContent from to w)))).
    + destruct (isQuota e); [|reflexivity].
      apply (IH (sleep 2000 (snd (generateContent from to w)))).
Qed.

(** ** The resolution, step by step *)

Lemma fetchRealTimeRate_unfold from to w :
  fetchRealTimeRate from to w =
  match fst (cache_lookup from to w) with
  | Some fresh =>
      (Returns (finish (shouldInvert from to) fresh), after_select from to w)
  | None =>
      match oracle_attempt from to w with
      | (Returns aiResult, w2) =>
          (Returns (finish (shouldInvert from to) aiResult),
           if JS.ltb (Num 0) (rate aiResult)
           then upsert (pairId from to) (upsert_row aiResult (clock w2)) w2
           else w2)
      | (Throws aiError, w2) =>
          match snd (cache_lookup from to w) with
          | Some stale =>
              (Returns (finish (shouldInvert from to)
                          (mark_cached (mapDbToExchangeData (locale_time w2) stale))),
               w2)
          | None =>
              match EMERGENCY_RATES !! pairId from to with
              | Some r =>
                  (Returns (finish (shouldInvert from to) (emergency_quote r)), w2)
              | None => (Throws aiError, w2)
              end
          end
      end
  end.
Proof.
  unfold fetchRealTimeRate, cache_lookup, oracle_attempt, after_select,
    pairId, searchFrom, searchTo, shouldInvert.
  destruct (canonical from to) as [[sf st] flag].
  unfold select_single. cbn [fst snd].
  destruct (check_cache _ _) as [[fresh|] stale]; cbn [fst snd]; [reflexivity|].
  destruct (attemptAIFetchWithRetry _ _ _ _) as [[d|err] w2]; [reflexivity|].
  destruct stale; [reflexivity|].
  destruct (EMERGENCY_RATES !! pairKey sf st) as [r|] eqn:E; [|reflexivity].
  now rewrite (ltb_zero_truthy _ (EMERGENCY_RATES_positive _ _ E)).
Qed.

Lemma cache_lookup_no_record from to w :
  snd (cache_lookup from to w) = None -> fst (cache_lookup from to w) = None.
Proof.
  unfold cache_lookup, check_cache.
  destruct (fst (select_single _ w)) as [[[row|] [|]]|]; simpl; congruence.
Qed.


(** ** Inversion *)

(** C4, as stated, fails: a quote with a positive rate and a
    [parallelRate] of zero is inverted to a quote without [parallelRate],
    not to one carrying the reciprocal of zero. *)
Lemma inversion_as_stated_fails : ~ inversion_as_stated.
Proof.
  intros H. specialize (H quote_zero_parallel eq_refl). discriminate H.
Qed.

(** C4 (amended): [invertExchangeData] returns the quote itself when its
    rate is zero or negative; when the rate is positive it maps the rate to
    its reciprocal, maps a [parallelRate] that is present and nonzero to its
    reciprocal and any other to absent, and leaves [summary], [sources] and
    [lastUpdated] unchanged. *)
Theorem invertExchangeData_spec (d : ExchangeData) :
  (JS.leb (rate d) (Num 0) = true -> invertExchangeData d = d) /\
  (JS.ltb (Num 0) (rate d) = true ->
     rate (invertExchangeData d) = JS.recip (rate d) /\
     (forall p, parallelRate d = Some p -> JS.truthy p = true ->
        parallelRate (invertExchangeData d) = Some (JS.recip p)) /\
     (forall p, parallelRate d = Some p -> JS.truthy p = false ->
        parallelRate (invertExchangeData d) = None) /\
     (parallelRate d = None -> parallelRate (invertExchangeData d) = None) /\
     summary (invertExchangeData d) = summary d /\
     sources (invertExchangeData d) = sources d /\
     lastUpdated (invertExchangeData d) = lastUpdated d).
Proof.
  split.
  - apply invert_noop.
  - intros H. rewrite (invert_positive d H). cbn [rate parallelRate summary
      sources lastUpdated].
    split; [reflexivity|]. split; [|split; [|split]].
    + intros p -> Hp. now apply recip_or_absent_truthy.
    + intros p -> Hp. now apply recip_or_absent_falsy.
    + now intros ->.
    + auto.
Qed.

Lemma invertExchangeData_spec_witness :
  invertExchangeData quote_zero_rate = quote_zero_rate /\
  rate (invertExchangeData quote_zero_parallel) = JS.recip (Num 2) /\
  parallelRate (invertExchangeData quote_zero_parallel) = None.
Proof.
  split.
  - apply (proj1 (invertExchangeData_spec quote_zero_rate)). reflexivity.
  - destruct (proj2 (invertExchangeData_spec quote_zero_parallel) eq_refl)
      as (Hr & _ & Hz & _).
    split; [exact Hr | apply (Hz (Num 0)); reflexivity].
Defined.

(** ** Zero parallel rates *)

(** C10, as stated, fails twice: the parser reads a [parallelRate] written
    as the string ['0'] as the number 0 and the resolution returns it; and
    the inversion of the orchestrator, which returns a quote whose rate is
    not positive as it is, keeps a [parallelRate] of 0 there. *)
Lemma no_zero_parallel_as_stated_fails :
  ~ no_zero_parallel_surfaced /\ ~ inversion_drops_zero_parallel.
Proof.
  split.
  - intros H.
    assert (E : exists q w' p,
               fetchRealTimeRate USD NGN world_zero_parallel = (Returns q, w') /\
               parallelRate q = Some p /\ JS.eqb p (Num 0) = true).
    { eexists _, _, _. split; [vm_compute; reflexivity|].
      split; [reflexivity | vm_compute; reflexivity]. }
    destruct E as (q & w' & p & Hq & Hp & Hz).
    specialize (H _ _ _ _ _ _ Hq Hp). congruence.
  - intros H. specialize (H quote_all_zero (Num 0) eq_refl eq_refl).
    discriminate H.
Qed.

(** C10 (amended): a stored record whose [parallel_rate] is null or 0 maps
    to a quote without [parallelRate]; the inversion of the orchestrator,
    whenever it inverts (rate > 0), and both inversions of the session
    cache map a [parallelRate] of 0 to absent; on a rate that is zero or
    negative the inversion of the orchestrator returns the quote as it is. *)
Theorem zero_parallel_becomes_absent :
  (forall fmt row,
     (forall p, db_parallel_rate row = Some p -> JS.eqb p (Num 0) = true) ->
     parallelRate (mapDbToExchangeData fmt row) = None) /\
  (forall d p,
     parallelRate d = Some p -> JS.eqb p (Num 0) = true ->
     JS.ltb (Num 0) (rate d) = true ->
     parallelRate (invertExchangeData d) = None) /\
  (forall d p,
     parallelRate d = Some p -> JS.eqb p (Num 0) = true ->
     parallelRate (invertedData d) = None /\
     parallelRate (inverse_of_result d) = None) /\
  (forall d, JS.leb (rate d) (Num 0) = true -> invertExchangeData d = d).
Proof.
  split; [|split; [|split]].
  - intros fmt row H. simpl. apply falsy_or_absent.
    intros p Hp. apply eqb_zero_falsy; auto.
  - intros d p Hp Hz Hr. rewrite (invert_positive d Hr). cbn [parallelRate].
    rewrite Hp. apply recip_or_absent_falsy. now apply eqb_zero_falsy.
  - intros d p Hp Hz. cbn [invertedData inverse_of_result parallelRate].
    rewrite Hp. split; apply recip_or_absent_falsy; now apply eqb_zero_falsy.
  - exact invert_noop.
Qed.

Lemma zero_parallel_becomes_absent_witness :
  parallelRate (invertExchangeData quote_zero_parallel) = None /\
  parallelRate (invertedData quote_zero_parallel) = None /\
  invertExchangeData quote_zero_rate = quote_zero_rate.
Proof.
  destruct zero_parallel_becomes_absent as (_ & Hinv & Hsess & Hnoop).
  split; [|split].
  - apply (Hinv quote_zero_parallel (Num 0)); reflexivity.
  - apply (Hsess quote_zero_parallel (Num 0)); reflexivity.
  - apply Hnoop. reflexivity.
Defined.

(** ** Rates of the oracle path *)

Lemma valid_candidate_bounds v :
  valid_candidate v = true ->
  JS.ltb (Num 0) v = true /\ JS.ltb v (Num 10000) = true.
Proof.
  unfold valid_candidate. rewrite !andb_true_iff. tauto.
Qed.

Lemma regex_path_found t st v :
  JS.truthy (detectedRate st) = false ->
  find valid_candidate (rate_candidates t) = Some v ->
  detectedRate (regex_path t st) = v /\ valid_candidate v = true.
Proof.
  intros Hf Hv. unfold regex_path. rewrite Hf, Hv.
  apply find_some in Hv as [_ Hv].
  destruct (valid_candidate_bounds _ Hv) as [Hpos _].
  now rewrite (ltb_zero_truthy _ Hpos).
Qed.

Lemma parse_response_nonzero nowLabel response q :
  parse_response nowLabel response = Returns q ->
  JS.eqb (rate q) (Num 0) = false.
Proof.
  unfold parse_response.
  destruct (JS.eqb (detectedRate _) (Num 0)) eqn:E; [discriminate|].
  destruct (summaryText _); try discriminate.
  now intros [= <-].
Qed.

Lemma fetchFromAI_nonzero from to w q w' :
  fetchFromAI from to w = (Returns q, w') ->
  JS.eqb (rate q) (Num 0) = false.
Proof.
  unfold fetchFromAI, generateContent.
  destruct (oracle w from to (calls w)) as [response|e]; [|discriminate].
  intros [= Hq _]. now apply parse_response_nonzero in Hq.
Qed.

Lemma attempt_nonzero from to retries w q w' :
  attemptAIFetchWithRetry from to retries w = (Returns q, w') ->
  JS.eqb (rate q) (Num 0) = false.
Proof.
  revert w; induction retries as [|n IH]; intros w; simpl;
    destruct (fetchFromAI from to w) as [[d|err] w1] eqn:F;
    try discriminate;
    try (intros [= <- _]; now apply fetchFromAI_nonzero in F).
  destruct (isQuota err); [apply IH | discriminate].
Qed.

Lemma ltb_zero_not_eqb r : JS.ltb (Num 0) r = true -> JS.eqb r (Num 0) = false.
Proof.
  intros H. pose proof (ltb_zero_truthy _ H) as T.
  destruct r as [q| |b]; simpl in *; try reflexivity.
  now destruct (Qeq_bool q 0).
Qed.

(** ** The retry wrapper *)

Lemma isQuota_spec err :
  isQuota err = true <->
  err_status err = Some 429%Z \/ err_code err = Some 429%Z \/
  exists m, err_message err = Some m /\
            (occurs (txt "429") (txt m) \/ occurs (txt "quota") (txt m)).
Proof.
  unfold isQuota. rewrite !orb_true_iff.
  destruct err as [st co msg]; simpl.
  assert (A : forall o : option Z,
             match o with Some n => (n =? 429)%Z | None => false end = true
             <-> o = Some 429%Z).
  { intros [n|]; [|split; discriminate].
    rewrite Z.eqb_eq. split; congruence. }
  rewrite !A. destruct msg as [m|].
  - rewrite orb_true_iff, !includes_true. split.
    + intros [[H|H]|H]; auto. right; right. now exists m.
    + intros [H|[H|(m' & [= <-] & H)]]; auto.
  - split.
    + intros [[H|H]|H]; auto. discriminate.
    + intros [H|[H|(m' & [=] & _)]]; auto.
Qed.

Lemma zero_rate_not_quota : isQuota (Error "AI returned 0 rate") = false.
Proof. reflexivity. Qed.

(** C5: the wrapper retries only on a rate-limit signal with a positive
    budget, after a pause of 2000 ms and with the budget decreased by one;
    a success, an error of another kind or an exhausted budget ends it at
    once; with a budget of 1, two rate-limit failures in a row make exactly
    two oracle queries and one pause, and the second error is thrown. *)
Theorem retry_policy (from to : CurrencyCode) (w : World) :
  (forall err,
     isQuota err = true <->
     err_status err = Some 429%Z \/ err_code err = Some 429%Z \/
     exists m, err_message err = Some m /\
               (occurs (txt "429") (txt m) \/ occurs (txt "quota") (txt m))) /\
  (forall d w1 retries,
     fetchFromAI from to w = (Returns d, w1) ->
     attemptAIFetchWithRetry from to retries w = (Returns d, w1)) /\
  (forall err w1 retries,
     fetchFromAI from to w = (Throws err, w1) ->
     isQuota err = true ->
     attemptAIFetchWithRetry from to (S retries) w =
     attemptAIFetchWithRetry from to retries (sleep 2000 w1)) /\
  (forall err w1 retries,
     fetchFromAI from to w = (Throws err, w1) ->
     retries = 0%nat \/ isQuota err = false ->
     attemptAIFetchWithRetry from to retries w = (Throws err, w1)) /\
  (forall e1 w1 e2 w2,
     fetchFromAI from to w = (Throws e1, w1) ->
     isQuota e1 = true ->
     fetchFromAI from to (sleep 2000 w1) = (Throws e2, w2) ->
     attemptAIFetchWithRetry from to 1 w = (Throws e2, w2) /\
     calls w2 = (calls w + 2)%nat /\
     clock w2 = (clock w + Z.of_N (oracle_latency w (calls w)) + 2000
                 + Z.of_N (oracle_latency w (S (calls w))))%Z /\
     trace w2 =
       trace w ++ [EvGenerate from to; EvSleep 2000; EvGenerate from to]) /\
  (forall retries,
     (calls (snd (attemptAIFetchWithRetry from to retries w))
      <= calls w + S retries)%nat).
Proof.
  split; [exact isQuota_spec|].
  split; [|split; [|split; [|split]]].
  - intros d w1 [|n] H; simpl; now rewrite H.
  - intros err w1 n H Hq. simpl. now rewrite H, Hq.
  - intros err w1 [|n] H [Hn|Hq]; simpl; rewrite H; try reflexivity;
      try discriminate. now rewrite Hq.
  - intros e1 w1 e2 w2 H1 Hq H2. simpl. rewrite H1, Hq, H2.
    split; [reflexivity|].
    pose proof (fetchFromAI_world from to w) as W1.
    pose proof (fetchFromAI_world from to (sleep 2000 w1)) as W2.
    rewrite H1 in W1. rewrite H2 in W2. simpl in W1, W2. subst w1 w2.
    simpl. repeat split; try lia.
    now rewrite <- !app_assoc.
  - intros retries. apply attempt_calls_bound.
Qed.

Lemma retry_policy_witness :
  isQuota error_429 = true /\
  fst (attemptAIFetchWithRetry USD NGN 1 world_rate_limited) = Throws error_429 /\
  calls (snd (attemptAIFetchWithRetry USD NGN 1 world_rate_limited)) = 2%nat.
Proof.
  split; [reflexivity|].
  destruct (proj1 (proj2 (proj2 (proj2 (proj2
              (retry_policy USD NGN world_rate_limited)))))
            error_429 (snd (fetchFromAI USD NGN world_rate_limited))
            error_429
            (snd (fetchFromAI USD NGN
                    (sleep 2000 (snd (fetchFromAI USD NGN world_rate_limited)))))
            eq_refl eq_refl eq_refl) as (Ha & Hc & _).
  rewrite Ha. split; [reflexivity | exact Hc].
Defined.

(** ** The fallback chain *)

Lemma zero_rate_is_failure from to retries w response :
  oracle w from to (calls w) = Responds response ->
  JS.eqb (detectedRate (detect (response_text response))) (Num 0) = true ->
  attemptAIFetchWithRetry from to retries w =
    (Throws (Error "AI returned 0 rate"), snd (generateContent from to w)).
Proof.
  intros Ho Hz.
  assert (F : fetchFromAI from to w =
              (Throws (Error "AI returned 0 rate"),
               snd (generateContent from to w))).
  { rewrite (fetchFromAI_responds _ _ _ _ Ho). unfold parse_response.
    fold (response_text response). now rewrite Hz. }
  destruct retries; simpl; rewrite F; [reflexivity|].
  now rewrite zero_rate_not_quota.
Qed.

Lemma invertExchangeData_unfold d :
  invertExchangeData d =
    if JS.leb (rate d) (Num 0) then d
    else {| rate := JS.recip (rate d);
            parallelRate :=
              match parallelRate d with
              | Some p => if JS.truthy p then Some (JS.recip p) else None
              | None => None
              end;
            lastUpdated := lastUpdated d;
            summary := summary d;
            sources := sources d |}.
Proof. reflexivity. Qed.

Lemma shouldInvert_spec from to :
  shouldInvert from to = true <-> from = NGN /\ to <> NGN.
Proof.
  assert (E : shouldInvert from to
              = match from, to with
                | NGN, NGN => false
                | NGN, _ => true
                | _, _ => false
                end) by (now destruct from, to).
  rewrite E.
  destruct from, to;
    (split;
     [first [discriminate | intros _; split; [reflexivity | discriminate]]
     | intros [H1 H2]; congruence]).
Qed.

Lemma pairId_spec from to :
  pairId from to
  = if shouldInvert from to then pairKey to from else pairKey from to.
Proof. now destruct from, to. Qed.

Lemma cache_lookup_record from to w row :
  select_mode w = SelectAnswers ->
  store w !! pairId from to = Some row ->
  snd (cache_lookup from to w) = Some row.
Proof.
  intros Hm Hr. unfold cache_lookup, select_single. cbn [fst snd].
  now rewrite Hm, Hr.
Qed.

Lemma cache_lookup_nothing from to w :
  select_mode w <> SelectAnswers \/ store w !! pairId from to = None ->
  cache_lookup from to w = (None, None).
Proof.
  intros H. unfold cache_lookup, select_single. cbn [fst snd].
  destruct (select_mode w); try reflexivity.
  destruct H as [H|H]; [congruence|]. now rewrite H.
Qed.

Lemma EMERGENCY_RATES_entries k r :
  EMERGENCY_RATES !! k = Some r <->
  In (k, r) [("USD-NGN", Num 1580.00); ("GBP-NGN", Num 2050.00);
             ("EUR-NGN", Num 1720.00); ("CAD-NGN", Num 1150.00)].
Proof.
  unfold EMERGENCY_RATES. rewrite !lookup_insert_Some, lookup_empty. simpl.
  split.
  - intros [[<- <-]|[_ [[<- <-]|[_ [[<- <-]|[_ [[<- <-]|[_ H]]]]]]]];
      [tauto | tauto | tauto | tauto | discriminate].
  - intros [[= <- <-]|[[= <- <-]|[[= <- <-]|[[= <- <-]|[]]]]].
    + now left.
    + right. split; [discriminate|]. now left.
    + right. split; [discriminate|]. right. split; [discriminate|]. now left.
    + right. split; [discriminate|]. right. split; [discriminate|].
      right. split; [discriminate|]. now left.
Qed.

(** C1: when the cache holds no fresh record and the retry-wrapped oracle
    query fails, the resolution returns the quote built from the stale
    record if one was read (its rate, its parallel rate unless null or
    zero, its summary and sources, and the label of its instant followed by
    " (Cached)"), else the quote built from the entry of the emergency
    table for the canonical key if there is one (that rate, no parallel
    rate, the label "Offline Estimate", the fixed summary, no sources),
    either of them inverted for an NGN-first request, else it throws the
    oracle error; a resolution throws on no other path; a response whose
    detected rate is zero is such a failure.  The record read is the row of
    the store under the canonical key, when the accessor answers, and the
    table holds the four foreign-to-NGN rates.  The inversion returns a
    quote whose rate is zero or negative as it is, and otherwise replaces
    the rate by its reciprocal and the parallel rate by its reciprocal, or
    by nothing when it is absent or zero. *)
Theorem fallback_chain (from to : CurrencyCode) (w : World) :
  (forall aiError w2,
     fst (cache_lookup from to w) = None ->
     oracle_attempt from to w = (Throws aiError, w2) ->
     fetchRealTimeRate from to w =
       (match snd (cache_lookup from to w) with
        | Some stale =>
            let q :=
              {| rate := db_rate stale;
                 parallelRate :=
                   match db_parallel_rate stale with
                   | Some p => if JS.truthy p then Some p else None
                   | None => None
                   end;
                 lastUpdated :=
                   String.append (locale_time w2 (db_updated_at stale))
                     " (Cached)";
                 summary := db_summary stale;
                 sources := match db_sources stale with
                            | Some l => l
                            | None => []
                            end |} in
            Returns (if shouldInvert from to then invertExchangeData q else q)
        | None =>
            match EMERGENCY_RATES !! pairId from to with
            | Some r =>
                let q :=
                  {| rate := r;
                     parallelRate := None;
                     lastUpdated := "Offline Estimate";
                     summary := txt "High demand detected. Showing estimated market rates while we reconnect to live data.";
                     sources := [] |} in
                Returns (if shouldInvert from to then invertExchangeData q else q)
            | None => Throws aiError
            end
        end, w2)) /\
  (forall e w',
     fetchRealTimeRate from to w = (Throws e, w') ->
     fst (cache_lookup from to w) = None /\
     oracle_attempt from to w = (Throws e, w') /\
     snd (cache_lookup from to w) = None /\
     EMERGENCY_RATES !! pairId from to = None) /\
  (forall response,
     fst (cache_lookup from to w) = None ->
     oracle (after_select from to w) (searchFrom from to) (searchTo from to)
       (calls (after_select from to w)) = Responds response ->
     JS.eqb (detectedRate (detect (response_text response))) (Num 0) = true ->
     exists w2,
       oracle_attempt from to w = (Throws (Error "AI returned 0 rate"), w2)) /\
  (forall row,
     select_mode w = SelectAnswers ->
     store w !! pairId from to = Some row ->
     snd (cache_lookup from to w) = Some row) /\
  (select_mode w <> SelectAnswers \/ store w !! pairId from to = None ->
   snd (cache_lookup from to w) = None) /\
  (shouldInvert from to = true <-> from = NGN /\ to <> NGN) /\
  pairId from to
    = (if shouldInvert from to then pairKey to from else pairKey from to) /\
  (forall k r,
     EMERGENCY_RATES !! k = Some r <->
     In (k, r) [("USD-NGN", Num 1580.00); ("GBP-NGN", Num 2050.00);
                ("EUR-NGN", Num 1720.00); ("CAD-NGN", Num 1150.00)]) /\
  (forall d,
     invertExchangeData d =
       if JS.leb (rate d) (Num 0) then d
       else {| rate := JS.recip (rate d);
               parallelRate :=
                 match parallelRate d with
                 | Some p => if JS.truthy p then Some (JS.recip p) else None
                 | None => None
                 end;
               lastUpdated := lastUpdated d;
               summary := summary d;
               sources := sources d |}).
Proof.
  split; [|split; [|split; [|split; [|split; [|split; [|split; [|split]]]]]]].
  - intros aiError w2 Hc Ha. rewrite fetchRealTimeRate_unfold, Hc, Ha.
    destruct (snd (cache_lookup from to w)); [reflexivity|].
    now destruct (EMERGENCY_RATES !! pairId from to).
  - intros e w'. rewrite fetchRealTimeRate_unfold.
    destruct (fst (cache_lookup from to w)); [discriminate|].
    destruct (oracle_attempt from to w) as [[d|err] w2]; [discriminate|].
    destruct (snd (cache_lookup from to w)); [discriminate|].
    destruct (EMERGENCY_RATES !! pairId from to); [discriminate|].
    now intros [= -> ->].
  - intros response _ Ho Hz. eexists. unfold oracle_attempt.
    now apply zero_rate_is_failure with (response := response).
  - apply cache_lookup_record.
  - intros H. now rewrite (cache_lookup_nothing from to w H).
  - apply shouldInvert_spec.
  - apply pairId_spec.
  - apply EMERGENCY_RATES_entries.
  - apply invertExchangeData_unfold.
Qed.

Lemma fallback_chain_witness :
  fst (fetchRealTimeRate USD NGN world_stale)
    = Returns {| rate := Num 1600; parallelRate := None;
                 lastUpdated := "10:15:00 AM (Cached)";
                 summary := txt "Stable."; sources := [] |} /\
  fst (fetchRealTimeRate NGN USD world_stale)
    = Returns {| rate := JS.recip (Num 1600); parallelRate := None;
                 lastUpdated := "10:15:00 AM (Cached)";
                 summary := txt "Stable."; sources := [] |} /\
  fst (fetchRealTimeRate NGN USD world_offline)
    = Returns {| rate := JS.recip (Num 1580.00); parallelRate := None;
                 lastUpdated := "Offline Estimate";
                 summary := txt "High demand detected. Showing estimated market rates while we reconnect to live data.";
                 sources := [] |} /\
  fst (fetchRealTimeRate EUR USD world_offline) = Throws error_network.
Proof.
  split; [|split; [|split]].
  - rewrite (proj1 (fallback_chain USD NGN world_stale) error_network
               (snd (oracle_attempt USD NGN world_stale)) eq_refl eq_refl).
    reflexivity.
  - rewrite (proj1 (fallback_chain NGN USD world_stale) error_network
               (snd (oracle_attempt NGN USD world_stale)) eq_refl eq_refl).
    reflexivity.
  - rewrite (proj1 (fallback_chain NGN USD world_offline) error_network
               (snd (oracle_attempt NGN USD world_offline)) eq_refl eq_refl).
    reflexivity.
  - rewrite (proj1 (fallback_chain EUR USD world_offline) error_network
               (snd (oracle_attempt EUR USD world_offline)) eq_refl eq_refl).
    reflexivity.
Defined.

(** ** The freshness window *)

Lemma cache_lookup_row from to w row :
  select_mode w = SelectAnswers ->
  store w !! pairId from to = Some row ->
  cache_lookup from to w =
    (if (read_end w - db_updated_at row <? CACHE_DURATION_MS)%Z
     then Some (mapDbToExchangeData (locale_time w) row) else None,
     Some row).
Proof.
  intros Hm Hr. unfold cache_lookup, select_single. cbn [fst snd].
  now rewrite Hm, Hr.
Qed.





(** ** The detached write *)

Lemma oracle_attempt_upsert_irrelevant b from to w :
  oracle_attempt from to (with_upsert_fails b w) =
  (fst (oracle_attempt from to w),
   with_upsert_fails b (snd (oracle_attempt from to w))).
Proof.
  unfold oracle_attempt.
  apply (attempt_upsert_irrelevant b _ _ 1 (after_select from to w)).
Qed.

Lemma cache_lookup_upsert_irrelevant b from to w :
  cache_lookup from to (with_upsert_fails b w) = cache_lookup from to w.
Proof. reflexivity. Qed.

(** C9: when no fresh record is at hand and the oracle path returns a quote
    with a positive rate, the resolution issues one upsert for the
    canonical key, of a row that carries the rate, the summary and the
    sources of that quote, its parallel rate unless absent or zero, and the
    instant of the write, and it returns that quote (inverted when the
    request was NGN-first, unchanged otherwise); whether the write fails or
    not changes neither the outcome nor the calls made, only the content of
    the store afterwards.  The canonical key is that of the pair, swapped
    for an NGN-first request; the inversion keeps a quote whose rate is
    zero or negative and otherwise takes the reciprocal of the rate and of
    a nonzero parallel rate. *)
Theorem persistence_detached (from to : CurrencyCode) (w : World)
  (aiResult : ExchangeData) (w2 : World) :
  fst (cache_lookup from to w) = None ->
  oracle_attempt from to w = (Returns aiResult, w2) ->
  JS.ltb (Num 0) (rate aiResult) = true ->
  let row :=
    {| db_rate := rate aiResult;
       db_parallel_rate :=
         match parallelRate aiResult with
         | Some p => if JS.truthy p then Some p else None
         | None => None
         end;
       db_summary := summary aiResult;
       db_sources := Some (sources aiResult);
       db_updated_at := clock w2 |} in
  (forall b,
     fst (fetchRealTimeRate from to (with_upsert_fails b w)) =
       Returns (if shouldInvert from to
                then invertExchangeData aiResult else aiResult) /\
     trace (snd (fetchRealTimeRate from to (with_upsert_fails b w))) =
       trace w2 ++ [EvUpsert (pairId from to) row] /\
     store (snd (fetchRealTimeRate from to (with_upsert_fails b w))) =
       (if b then store w else <[pairId from to := row]> (store w)) /\
     calls (snd (fetchRealTimeRate from to (with_upsert_fails b w))) = calls w2 /\
     clock (snd (fetchRealTimeRate from to (with_upsert_fails b w))) = clock w2) /\
  (shouldInvert from to = false ->
     forall b,
       fst (fetchRealTimeRate from to (with_upsert_fails b w)) = Returns aiResult) /\
  (shouldInvert from to = true <-> from = NGN /\ to <> NGN) /\
  pairId from to
    = (if shouldInvert from to then pairKey to from else pairKey from to) /\
  (forall d,
     invertExchangeData d =
       if JS.leb (rate d) (Num 0) then d
       else {| rate := JS.recip (rate d);
               parallelRate :=
                 match parallelRate d with
                 | Some p => if JS.truthy p then Some (JS.recip p) else None
                 | None => None
                 end;
               lastUpdated := lastUpdated d;
               summary := summary d;
               sources := sources d |}).
Proof.
  intros Hc Ha Hpos row.
  assert (Hs : store w2 = store w).
  { pose proof (attempt_step (searchFrom from to) (searchTo from to) 1
                  (after_select from to w)) as [Hs _ _ _ _ _ _].
    fold (oracle_attempt from to w) in Hs. now rewrite Ha in Hs. }
  assert (R : forall b,
             fetchRealTimeRate from to (with_upsert_fails b w) =
             (Returns (finish (shouldInvert from to) aiResult),
              upsert (pairId from to) row (with_upsert_fails b w2))).
  { intros b. rewrite fetchRealTimeRate_unfold.
    rewrite cache_lookup_upsert_irrelevant, Hc.
    rewrite oracle_attempt_upsert_irrelevant, Ha. cbn [fst snd].
    now rewrite Hpos. }
  split; [|split; [|split; [apply shouldInvert_spec|
                            split; [apply pairId_spec|
                                    apply invertExchangeData_unfold]]]].
  - intros b. rewrite R. cbn [fst snd]. split; [reflexivity|].
    split; [reflexivity|]. split; [|split; reflexivity].
    simpl. rewrite Hs. now destruct b.
  - intros Hi b. rewrite R. simpl. now rewrite Hi.
Qed.

Lemma persistence_detached_witness :
  fst (fetchRealTimeRate USD NGN (with_upsert_fails true world_scenario))
    = Returns quote_scenario /\
  fst (fetchRealTimeRate USD NGN (with_upsert_fails false world_scenario))
    = Returns quote_scenario /\
  store (snd (fetchRealTimeRate USD NGN (with_upsert_fails true world_scenario)))
    = ∅ /\
  store (snd (fetchRealTimeRate NGN USD (with_upsert_fails false world_scenario)))
    !! "USD-NGN"
    = Some {| db_rate := JS.round 1550.25;
              db_parallel_rate := Some (Num 1600);
              db_summary := txt "Stable.";
              db_sources := Some [];
              db_updated_at := 1700000000000 |}.
Proof.
  assert (Ha : oracle_attempt USD NGN world_scenario
               = (Returns quote_scenario,
                  snd (oracle_attempt USD NGN world_scenario)))
    by (vm_compute; reflexivity).
  destruct (persistence_detached USD NGN world_scenario _ _ eq_refl Ha eq_refl)
    as (Hb & Hu & _).
  split; [apply (Hu eq_refl true)|].
  split; [apply (Hu eq_refl false)|].
  split.
  - destruct (Hb true) as (_ & _ & -> & _). reflexivity.
  - assert (Ha' : oracle_attempt NGN USD world_scenario
                  = (Returns quote_scenario,
                     snd (oracle_attempt NGN USD world_scenario)))
      by (vm_compute; reflexivity).
    destruct (persistence_detached NGN USD world_scenario _ _ eq_refl Ha'
                eq_refl) as (Hb' & _).
    destruct (Hb' false) as (_ & _ & -> & _).
    vm_compute. reflexivity.
Defined.

(** ** Canonical orientation *)

Lemma canonical_domestic_first foreign :
  foreign <> NGN ->
  canonical NGN foreign = (foreign, NGN, true) /\
  canonical foreign NGN = (foreign, NGN, false).
Proof. destruct foreign; try congruence; intros _; split; reflexivity. Qed.

Lemma pairId_never_domestic_first from to x :
  x <> NGN -> pairId from to <> pairKey NGN x.
Proof.
  intros Hx. destruct from, to, x; try congruence; vm_compute; discriminate.
Qed.

(** The domestic-first request is the canonical one followed by the
    inversion of its quote. *)
Lemma fetch_domestic_first foreign w :
  foreign <> NGN ->
  fetchRealTimeRate NGN foreign w =
    (outcome_map invertExchangeData (fst (fetchRealTimeRate foreign NGN w)),
     snd (fetchRealTimeRate foreign NGN w)).
Proof.
  intros Hf. unfold fetchRealTimeRate.
  destruct (canonical_domestic_first foreign Hf) as [-> ->].
  cbv beta iota.
  destruct (select_single (pairKey foreign NGN) w) as [r w1].
  destruct (check_cache r w1) as [[fresh|] stale]; [reflexivity|].
  destruct (attemptAIFetchWithRetry foreign NGN 1 w1) as [[d|err] w2];
    [reflexivity|].
  destruct stale; [reflexivity|].
  destruct (EMERGENCY_RATES !! pairKey foreign NGN) as [r0|]; [|reflexivity].
  now destruct (JS.truthy r0).
Qed.

Lemma fetch_events from to w :
  exists evs,
    trace (snd (fetchRealTimeRate from to w)) = trace w ++ evs /\
    Forall (fun ev => forall k, event_pair ev = Some k -> k = pairId from to) evs.
Proof.
  rewrite fetchRealTimeRate_unfold.
  destruct (fst (cache_lookup from to w)).
  { exists [EvSelect (pairId from to)]. split; [reflexivity|].
    repeat constructor. simpl. congruence. }
  unfold oracle_attempt.
  pose proof (attempt_step (searchFrom from to) (searchTo from to) 1
                (after_select from to w)) as [_ _ _ _ _ _ (evs & Ht & Hev)].
  assert (Hev' : Forall (fun ev => forall k, event_pair ev = Some k ->
                                             k = pairId from to)
                   (EvSelect (pairId from to) :: evs)).
  { constructor; [simpl; congruence|].
    eapply List.Forall_impl; [|exact Hev]. simpl. intros ev -> k. discriminate. }
  assert (T : trace (snd (attemptAIFetchWithRetry (searchFrom from to)
                 (searchTo from to) 1 (after_select from to w)))
              = trace w ++ EvSelect (pairId from to) :: evs).
  { rewrite Ht. simpl. now rewrite <- !app_assoc. }
  destruct (attemptAIFetchWithRetry _ _ _ _) as [[d|err] w2];
    cbn [fst snd] in *.
  - destruct (JS.ltb (Num 0) (rate d)); [|now eauto].
    exists ((EvSelect (pairId from to) :: evs)
            ++ [EvUpsert (pairId from to) (upsert_row d (clock w2))]).
    split; [simpl; rewrite T; now rewrite <- !app_assoc|].
    apply Forall_app. split; [exact Hev'|].
    repeat constructor. simpl. congruence.
  - destruct (snd (cache_lookup from to w)); [now eauto|].
    destruct (EMERGENCY_RATES !! pairId from to); now eauto.
Qed.

Lemma fetch_store_frame from to w k :
  k <> pairId from to ->
  store (snd (fetchRealTimeRate from to w)) !! k = store w !! k.
Proof.
  intros Hk. rewrite fetchRealTimeRate_unfold.
  destruct (fst (cache_lookup from to w)); [reflexivity|].
  unfold oracle_attempt.
  pose proof (attempt_step (searchFrom from to) (searchTo from to) 1
                (after_select from to w)) as [Hs _ _ _ _ _ _].
  destruct (attemptAIFetchWithRetry _ _ _ _) as [[d|err] w2];
    cbn [fst snd] in *.
  - destruct (JS.ltb (Num 0) (rate d)); simpl; [|now rewrite Hs].
    destruct (upsert_fails w2); rewrite Hs; [reflexivity|].
    now rewrite lookup_insert_ne.
  - destruct (snd (cache_lookup from to w)); cbn [snd]; [now rewrite Hs|].
    destruct (EMERGENCY_RATES !! pairId from to); cbn [snd]; now rewrite Hs.
Qed.

(** C2, as stated, fails: for a response declaring the [parallelRate] as
    the string ['0'], the canonical request returns a [parallelRate] of 0
    and the domestic-first request returns none. *)
Lemma symmetry_as_stated_fails : ~ symmetry_as_stated.
Proof.
  intros H.
  assert (E : exists q w1 q' w2,
             fetchRealTimeRate USD NGN world_zero_parallel = (Returns q, w1) /\
             fetchRealTimeRate NGN USD world_zero_parallel = (Returns q', w2) /\
             JS.ltb (Num 0) (rate q) = true /\
             parallelRate q' = None /\ parallelRate q <> None).
  { eexists _, _, _, _. split; [vm_compute; reflexivity|].
    split; [vm_compute; reflexivity|].
    split; [reflexivity|]. split; [reflexivity|]. discriminate. }
  destruct E as (q & w1 & q' & w2 & Hq & Hq' & Hpos & Hnone & Hsome).
  assert (Hf : USD <> NGN) by discriminate.
  destruct (H USD _ _ _ _ _ Hf Hq Hq' Hpos) as [_ Hp].
  rewrite Hnone in Hp. destruct (parallelRate q); [discriminate | congruence].
Qed.

(** C2 (amended): for a foreign currency, the request (NGN, foreign) and
    the request (foreign, NGN) read and write the persistent cache under
    the key 'foreign-NGN' alone and leave the same world behind; no request
    changes the record of a key 'NGN-x' with x foreign; and when the quote
    of (foreign, NGN) has a positive rate, the quote of (NGN, foreign) has
    the reciprocal rate, the reciprocal [parallelRate] when that one is
    present and nonzero, and no [parallelRate] otherwise. *)
Theorem canonical_symmetry (foreign : CurrencyCode) (w : World) :
  foreign <> NGN ->
  (pairId NGN foreign = pairKey foreign NGN /\
   pairId foreign NGN = pairKey foreign NGN) /\
  snd (fetchRealTimeRate NGN foreign w) = snd (fetchRealTimeRate foreign NGN w) /\
  (exists evs,
     trace (snd (fetchRealTimeRate NGN foreign w)) = trace w ++ evs /\
     Forall (fun ev => forall k, event_pair ev = Some k -> k = pairKey foreign NGN)
       evs) /\
  (forall from to w0 x,
     x <> NGN ->
     pairId from to <> pairKey NGN x /\
     store (snd (fetchRealTimeRate from to w0)) !! pairKey NGN x
       = store w0 !! pairKey NGN x /\
     exists evs,
       trace (snd (fetchRealTimeRate from to w0)) = trace w0 ++ evs /\
       Forall (fun ev => event_pair ev <> Some (pairKey NGN x)) evs) /\
  (forall q,
     fst (fetchRealTimeRate foreign NGN w) = Returns q ->
     JS.ltb (Num 0) (rate q) = true ->
     exists q',
       fst (fetchRealTimeRate NGN foreign w) = Returns q' /\
       rate q' = JS.recip (rate q) /\
       (forall p, parallelRate q = Some p -> JS.truthy p = true ->
          parallelRate q' = Some (JS.recip p)) /\
       (forall p, parallelRate q = Some p -> JS.truthy p = false ->
          parallelRate q' = None) /\
       (parallelRate q = None -> parallelRate q' = None)).
Proof.
  intros Hf.
  assert (Hk : pairId NGN foreign = pairKey foreign NGN /\
               pairId foreign NGN = pairKey foreign NGN).
  { unfold pairId, searchFrom, searchTo.
    now destruct (canonical_domestic_first foreign Hf) as [-> ->]. }
  split; [exact Hk|]. split; [|split; [|split]].
  - now rewrite (fetch_domestic_first foreign w Hf).
  - destruct (fetch_events NGN foreign w) as (evs & Ht & Hev).
    exists evs. split; [exact Ht|]. now rewrite <- (proj1 Hk).
  - intros from to w0 x Hx.
    pose proof (pairId_never_domestic_first from to x Hx) as Hne.
    split; [exact Hne|]. split; [apply fetch_store_frame; congruence|].
    destruct (fetch_events from to w0) as (evs & Ht & Hev).
    exists evs. split; [exact Ht|].
    eapply List.Forall_impl; [|exact Hev]. simpl.
    intros ev Hkey E. apply Hne. symmetry. now apply Hkey.
  - intros q Hq Hpos. exists (invertExchangeData q).
    rewrite (fetch_domestic_first foreign w Hf), Hq. split; [reflexivity|].
    rewrite (invert_positive q Hpos). cbn [rate parallelRate].
    split; [reflexivity|]. split; [|split].
    + intros p -> Hp. now apply recip_or_absent_truthy.
    + intros p -> Hp. now apply recip_or_absent_falsy.
    + now intros ->.
Qed.

Lemma canonical_symmetry_witness :
  pairId NGN USD = "USD-NGN" /\
  rate quote_scenario = JS.round 1550.25 /\
  exists q',
    fst (fetchRealTimeRate NGN USD world_scenario) = Returns q' /\
    rate q' = JS.recip (JS.round 1550.25) /\
    parallelRate q' = Some (JS.recip (JS.round 1600.0)).
Proof.
  assert (Hf : USD <> NGN) by discriminate.
  destruct (canonical_symmetry USD world_scenario Hf)
    as ((Hk & _) & _ & _ & _ & Hq).
  split; [exact Hk|]. split; [reflexivity|].
  assert (Hd : fst (fetchRealTimeRate USD NGN world_scenario)
               = Returns quote_scenario) by (vm_compute; reflexivity).
  destruct (Hq quote_scenario Hd eq_refl) as (q' & H1 & H2 & H3 & _).
  exists q'. split; [exact H1|]. split; [exact H2|].
  apply H3; reflexivity.
Defined.

(** ** The session cache *)

(** C7, as stated, fails: after the oracle declared a rate of -5 for USD to
    NGN, the swapped pair is served from the inverse key with the rate
    1 / -5, where the inversion step of the orchestrator returns a quote
    with a negative rate as it is. *)
Lemma inverse_hit_as_stated_fails : ~ inverse_hit_as_stated.
Proof.
  intros H.
  specialize (H (handleSwap (fst (loadData false (app_with USD NGN ∅)
                                    world_negative)))
                world_offline
                {| rate := Num (-5); parallelRate := None;
                   lastUpdated := "10:15:00 AM"; summary := [];
                   sources := [] |}).
  assert (Hc : ratesCache (handleSwap (fst (loadData false (app_with USD NGN ∅)
                                              world_negative)))
               !! "NGN-USD" = None) by (vm_compute; reflexivity).
  assert (Hi : ratesCache (handleSwap (fst (loadData false (app_with USD NGN ∅)
                                              world_negative)))
               !! "USD-NGN"
               = Some {| rate := Num (-5); parallelRate := None;
                         lastUpdated := "10:15:00 AM"; summary := [];
                         sources := [] |}) by (vm_compute; reflexivity).
  specialize (H Hc Hi). vm_compute in H. discriminate H.
Qed.

(** C7 (amended): without a forced refresh and with the requested key
    absent, a cached inverse key yields, with no orchestrator call, the
    quote obtained from that entry by replacing its rate by the reciprocal
    when it is neither 0 nor NaN, whatever its sign, and by 0 otherwise,
    and its parallel rate by the reciprocal when present and nonzero and by
    nothing otherwise, label, summary and sources being kept; that quote is
    shown and stored under the requested key; it is the inversion of the
    orchestrator when the rate is positive.  More generally a hit on
    either key leaves the world as it was and only adds to the cache.  When
    the orchestrator is called and returns a quote, it is shown and stored
    under the requested key and then, only if its rate is positive, the
    quote with the reciprocal rate (and parallel rate as above) under the
    swapped key; when the orchestrator throws, the generic message is
    shown and the quote on display and the cache are unchanged. *)
Theorem session_cache (forceRefresh : bool) (st : AppState) (w : World) :
  (forall invData,
     forceRefresh = false ->
     ratesCache st !! cacheKey st = None ->
     ratesCache st !! inverseKey st = Some invData ->
     let inv :=
       {| rate := if JS.truthy (rate invData)
                  then JS.recip (rate invData) else Num 0;
          parallelRate :=
            match parallelRate invData with
            | Some p => if JS.truthy p then Some (JS.recip p) else None
            | None => None
            end;
          lastUpdated := lastUpdated invData;
          summary := summary invData;
          sources := sources invData |} in
     loadData forceRefresh st w =
       ({| data := Some inv; loading := false; error := None;
           fromCurrency := fromCurrency st; toCurrency := toCurrency st;
           ratesCache := <[cacheKey st := inv]> (ratesCache st) |}, w) /\
     (JS.ltb (Num 0) (rate invData) = true ->
      inv = invertExchangeData invData)) /\
  (forceRefresh = false ->
   is_Some (ratesCache st !! cacheKey st) \/
   is_Some (ratesCache st !! inverseKey st) ->
   snd (loadData forceRefresh st w) = w /\
   ratesCache st ⊆ ratesCache (fst (loadData forceRefresh st w))) /\
  (forceRefresh = true \/
   (ratesCache st !! cacheKey st = None /\ ratesCache st !! inverseKey st = None) ->
   (forall result w',
      fetchRealTimeRate (fromCurrency st) (toCurrency st) w = (Returns result, w') ->
      let inverse :=
        {| rate := JS.recip (rate result);
           parallelRate :=
             match parallelRate result with
             | Some p => if JS.truthy p then Some (JS.recip p) else None
             | None => None
             end;
           lastUpdated := lastUpdated result;
           summary := summary result;
           sources := sources result |} in
      loadData forceRefresh st w =
        ({| data := Some result; loading := false; error := None;
            fromCurrency := fromCurrency st; toCurrency := toCurrency st;
            ratesCache :=
              if JS.ltb (Num 0) (rate result)
              then <[inverseKey st := inverse]>
                     (<[cacheKey st := result]> (ratesCache st))
              else <[cacheKey st := result]> (ratesCache st) |}, w')) /\
   (forall e w',
      fetchRealTimeRate (fromCurrency st) (toCurrency st) w = (Throws e, w') ->
      loadData forceRefresh st w =
        ({| data := data st; loading := false;
            error := Some "Unable to retrieve real-time data. Please check your connection or try again later.";
            fromCurrency := fromCurrency st; toCurrency := toCurrency st;
            ratesCache := ratesCache st |}, w'))).
Proof.
  unfold cacheKey, inverseKey. split; [|split].
  - intros invData -> Hc Hi. cbv zeta. unfold loadData. rewrite Hc, Hi.
    split; [reflexivity|]. intros Hpos.
    rewrite (invert_positive invData Hpos).
    now rewrite (ltb_zero_truthy _ Hpos).
  - intros -> Hhit. unfold loadData.
    destruct (ratesCache st !! pairKey (fromCurrency st) (toCurrency st))
      as [hit|] eqn:Hc; [now split|].
    destruct (ratesCache st !! pairKey (toCurrency st) (fromCurrency st))
      as [invData|] eqn:Hi.
    + split; [reflexivity|]. simpl. now apply insert_subseteq.
    + destruct Hhit as [[x Hx]|[x Hx]]; discriminate.
  - intros Hcond.
    assert (L : loadData forceRefresh st w = fetch_and_cache st w).
    { unfold loadData. destruct Hcond as [->|[Hc Hi]]; [reflexivity|].
      rewrite Hc, Hi. now destruct forceRefresh. }
    rewrite L. unfold fetch_and_cache. split.
    + intros result w' ->. cbv zeta. unfold show_quote.
      now destruct (JS.ltb (Num 0) (rate result)).
    + now intros e w' ->.
Qed.

Lemma session_cache_witness :
  loadData false (app_with NGN USD (<["USD-NGN" := quote_1600]> ∅)) world_offline
  = ({| data := Some {| rate := JS.recip (Num 1600); parallelRate := None;
                        lastUpdated := "10:15:00 AM";
                        summary := txt "Stable."; sources := [] |};
        loading := false; error := None;
        fromCurrency := NGN; toCurrency := USD;
        ratesCache :=
          <["NGN-USD" := {| rate := JS.recip (Num 1600); parallelRate := None;
                            lastUpdated := "10:15:00 AM";
                            summary := txt "Stable."; sources := [] |}]>
            (<["USD-NGN" := quote_1600]> ∅) |},
     world_offline) /\
  ratesCache (fst (loadData false (app_with USD NGN ∅) world_stale))
  = <["NGN-USD" := {| rate := JS.recip (Num 1600); parallelRate := None;
                      lastUpdated := "10:15:00 AM (Cached)";
                      summary := txt "Stable."; sources := [] |}]>
      (<["USD-NGN" := {| rate := Num 1600; parallelRate := None;
                         lastUpdated := "10:15:00 AM (Cached)";
                         summary := txt "Stable."; sources := [] |}]> ∅) /\
  error (fst (loadData true (app_with EUR USD ∅) world_offline))
    = Some generic_error.
Proof.
  assert (Hc : ratesCache (app_with NGN USD (<["USD-NGN" := quote_1600]> ∅))
               !! cacheKey (app_with NGN USD (<["USD-NGN" := quote_1600]> ∅))
               = None) by (vm_compute; reflexivity).
  assert (Hi : ratesCache (app_with NGN USD (<["USD-NGN" := quote_1600]> ∅))
               !! inverseKey (app_with NGN USD (<["USD-NGN" := quote_1600]> ∅))
               = Some quote_1600) by (vm_compute; reflexivity).
  destruct (proj1 (session_cache false
                     (app_with NGN USD (<["USD-NGN" := quote_1600]> ∅))
                     world_offline)
              quote_1600 eq_refl Hc Hi) as (H1 & _).
  split; [rewrite H1; vm_compute; reflexivity|]. split.
  - assert (Hn : false = true \/
                 (ratesCache (app_with USD NGN ∅)
                    !! cacheKey (app_with USD NGN ∅) = None /\
                  ratesCache (app_with USD NGN ∅)
                    !! inverseKey (app_with USD NGN ∅) = None))
      by (right; split; reflexivity).
    destruct (proj2 (proj2 (session_cache false (app_with USD NGN ∅) world_stale))
                Hn) as [Hok _].
    rewrite (Hok {| rate := Num 1600; parallelRate := None;
                    lastUpdated := "10:15:00 AM (Cached)";
                    summary := txt "Stable."; sources := [] |}
                 (snd (fetchRealTimeRate USD NGN world_stale)));
      [reflexivity | vm_compute; reflexivity].
  - destruct (proj2 (proj2 (session_cache true (app_with EUR USD ∅) world_offline))
                (or_introl eq_refl)) as [_ Hfail].
    rewrite (Hfail error_network
               (snd (fetchRealTimeRate EUR USD world_offline)));
      [reflexivity | vm_compute; reflexivity].
Defined.

(** After USD to NGN was resolved at 1600, the swapped request is served
    from the session cache with the reciprocal rate, and the world is not
    touched. *)
Example session_cache_swap :
  let st1 := fst (loadData false (app_with USD NGN ∅)
                    (make_world 1700000000000
                       (<["USD-NGN" := row_1600 1700000000000]> ∅)
                       SelectAnswers (fail_with error_network))) in
  forall w,
    snd (loadData false (handleSwap st1) w) = w /\
    option_map rate (data (fst (loadData false (handleSwap st1) w)))
      = Some (JS.recip (Num 1600)).
Proof. intros st1 w. split; reflexivity. Qed.

(** ** The parser *)











Lemma json_rate_assigned t j ms n :
  jsonMatch t = Some j ->
  JSON_parse j = Some (JObj ms) ->
  lookup_member (txt "rate") ms = Some (JNum n) ->
  JS.truthy n = true ->
  detect t = json_path t (initial_parsing t) /\
  detectedRate (detect t) = n.
Proof.
  intros Hm Hp Hl Hr.
  assert (Hj : detectedRate (json_path t (initial_parsing t)) = n).
  { unfold json_path. rewrite Hm, Hp. unfold prop at 1, read_number at 1.
    rewrite Hl. cbn [json_truthy toString_throws parseFloat]. rewrite Hr.
    cbn [default]. now destruct (read_number _). }
  assert (Hd : detect t = json_path t (initial_parsing t)).
  { unfold detect, regex_path. now rewrite Hj, Hr. }
  split; [exact Hd | now rewrite Hd].
Qed.

Lemma json_rate_wins t cap ms n :
  first_fenced_block t cap ->
  JSON_parse cap = Some (JObj ms) ->
  lookup_member (txt "rate") ms = Some (JNum n) ->
  JS.truthy n = true ->
  detect t = json_path t (initial_parsing t) /\
  detectedRate (detect t) = n.
Proof.
  intros Hm Hp Hl Hr. apply match_fenced_spec in Hm.
  apply (json_rate_assigned t cap ms n); auto.
  unfold jsonMatch. rewrite Hm.
  destruct cap as [|c cap]; [discriminate Hp | reflexivity].
Qed.

Lemma parse_response_fields nowLabel response q :
  parse_response nowLabel response = Returns q ->
  rate q = detectedRate (detect (response_text response)) /\
  exists s, summaryText (detect (response_text response)) = JStr s /\
            summary q = trim (strip_fence s).
Proof.
  unfold parse_response. fold (response_text response).
  destruct (JS.eqb _ _); [discriminate|].
  destruct (summaryText _) as [| | |s| |]; try discriminate.
  intros [= <-]. split; [reflexivity|]. now exists s.
Qed.




(** ** Positivity of the rate *)

(** C8, as stated, fails: a negative rate declared in the fenced block is
    neither rejected by the parser nor by the orchestrator. *)
Lemma positive_rate_as_stated_fails : ~ positive_rate_as_stated.
Proof.
  intros H.
  assert (E : exists q w',
             fetchRealTimeRate USD NGN world_negative = (Returns q, w') /\
             JS.ltb (Num 0) (rate q) = false).
  { eexists _, _. split; vm_compute; reflexivity. }
  destruct E as (q & w' & Hq & Hneg).
  specialize (H _ _ _ _ _ Hq). congruence.
Qed.

Lemma invert_rate d :
  rate (invertExchangeData d)
  = if JS.ltb (Num 0) (rate d) then JS.recip (rate d) else rate d.
Proof.
  unfold invertExchangeData.
  destruct (rate d) as [q| |b] eqn:R; simpl.
  - destruct (Qle_bool q 0) eqn:L; simpl; [exact R|].
    assert (E : Qeq_bool q 0 = false).
    { destruct (Qeq_bool q 0) eqn:E; [|reflexivity].
      apply Qeq_bool_zero_le in E. congruence. }
    now rewrite E.
  - reflexivity.
  - destruct b; simpl; [exact R | reflexivity].
Qed.

Lemma settled_by from to w q w' :
  fetchRealTimeRate from to w = (Returns q, w') ->
  exists base,
    q = (if shouldInvert from to then invertExchangeData base else base) /\
    ((exists row,
        snd (cache_lookup from to w) = Some row /\ rate base = db_rate row) \/
     (exists w2,
        oracle_attempt from to w = (Returns base, w2) /\
        JS.eqb (rate base) (Num 0) = false) \/
     (exists r,
        EMERGENCY_RATES !! pairId from to = Some r /\
        rate base = r /\ JS.ltb (Num 0) r = true)).
Proof.
  rewrite fetchRealTimeRate_unfold. unfold finish.
  destruct (fst (cache_lookup from to w)) as [fresh|] eqn:Hc.
  { intros [= <- _]. exists fresh. split; [reflexivity|]. left.
    unfold cache_lookup, check_cache in *.
    destruct (fst (select_single _ w)) as [[[row|] [|]]|];
      try discriminate Hc. cbn [fst snd] in *.
    destruct (_ <? _)%Z; [|discriminate Hc]. injection Hc as <-.
    now exists row. }
  destruct (oracle_attempt from to w) as [[d|err] w2] eqn:A.
  { intros [= <- _]. exists d. split; [reflexivity|]. right; left.
    exists w2. split; [reflexivity|].
    unfold oracle_attempt in A. now apply attempt_nonzero in A. }
  destruct (snd (cache_lookup from to w)) as [stale|].
  { intros [= <- _]. eexists. split; [reflexivity|]. left. now exists stale. }
  destruct (EMERGENCY_RATES !! pairId from to) as [r|] eqn:E; [|discriminate].
  intros [= <- _]. eexists. split; [reflexivity|]. right; right.
  exists r. split; [reflexivity|]. split; [reflexivity|].
  now apply EMERGENCY_RATES_positive in E.
Qed.

(** C8 (amended): the oracle path rejects a detected rate of exactly zero,
    so every quote it returns has a rate different from 0; a rate obtained
    by regex extraction is strictly positive and below 10000, and every
    entry of the emergency table is strictly positive.  Every quote
    returned by a resolution is built, and inverted for an NGN-first
    request, from the record read, whose rate it carries, or from a quote
    of the oracle path, or from an entry of the emergency table; so a
    resolution that is not settled by a record and does not invert returns
    a rate different from 0, whether a record was read or not.  The rate
    need not be positive: a number other than zero declared as [rate] in
    the first fenced block is returned whatever its sign; and the
    inversion replaces a positive rate by its reciprocal and keeps any
    other, so that an NGN-first request answered with an infinite rate
    returns the rate 0. *)
Theorem oracle_rate_nonzero :
  (forall nowLabel response q,
     parse_response nowLabel response = Returns q ->
     JS.eqb (rate q) (Num 0) = false) /\
  (forall t v,
     JS.truthy (detectedRate (json_path t (initial_parsing t))) = false ->
     find valid_candidate (rate_candidates t) = Some v ->
     detectedRate (detect t) = v /\
     JS.ltb (Num 0) v = true /\ JS.ltb v (Num 10000) = true) /\
  (forall k r, EMERGENCY_RATES !! k = Some r -> JS.ltb (Num 0) r = true) /\
  (forall from to w q w',
     fetchRealTimeRate from to w = (Returns q, w') ->
     exists base,
       q = (if shouldInvert from to then invertExchangeData base else base) /\
       ((exists row,
           snd (cache_lookup from to w) = Some row /\ rate base = db_rate row) \/
        (exists w2,
           oracle_attempt from to w = (Returns base, w2) /\
           JS.eqb (rate base) (Num 0) = false) \/
        (exists r,
           EMERGENCY_RATES !! pairId from to = Some r /\
           rate base = r /\ JS.ltb (Num 0) r = true))) /\
  (forall from to w q w',
     fetchRealTimeRate from to w = (Returns q, w') ->
     shouldInvert from to = false ->
     fst (cache_lookup from to w) = None ->
     snd (cache_lookup from to w) = None \/
     (exists d w2, oracle_attempt from to w = (Returns d, w2)) ->
     JS.eqb (rate q) (Num 0) = false) /\
  (forall t cap ms n nowLabel response q,
     first_fenced_block t cap ->
     JSON_parse cap = Some (JObj ms) ->
     lookup_member (txt "rate") ms = Some (JNum n) ->
     JS.truthy n = true ->
     response_text response = t ->
     parse_response nowLabel response = Returns q ->
     rate q = n) /\
  (forall d,
     rate (invertExchangeData d)
     = if JS.ltb (Num 0) (rate d) then JS.recip (rate d) else rate d) /\
  (forall from to w d w2,
     shouldInvert from to = true ->
     fst (cache_lookup from to w) = None ->
     oracle_attempt from to w = (Returns d, w2) ->
     rate d = JS.Infinity false ->
     exists q,
       fst (fetchRealTimeRate from to w) = Returns q /\ rate q = Num 0).
Proof.
  split; [exact parse_response_nonzero|].
  split; [|split; [|split; [|split; [|split; [|split]]]]].
  - intros t v Hf Hv. unfold detect.
    destruct (regex_path_found t _ v Hf Hv) as [-> Hvalid].
    split; [reflexivity|]. now apply valid_candidate_bounds.
  - exact EMERGENCY_RATES_positive.
  - exact settled_by.
  - intros from to w q w' Hq Hi Hc Hs. revert Hq.
    rewrite fetchRealTimeRate_unfold, Hc, Hi. unfold finish.
    destruct (oracle_attempt from to w) as [[d|err] w2] eqn:A.
    + intros [= <- _]. unfold oracle_attempt in A.
      now apply attempt_nonzero in A.
    + destruct Hs as [Hs|(d & w3 & [=])]. rewrite Hs.
      destruct (EMERGENCY_RATES !! pairId from to) as [r|] eqn:E;
        [|discriminate].
      intros [= <- _]. simpl. apply ltb_zero_not_eqb.
      now apply EMERGENCY_RATES_positive in E.
  - intros t cap ms n nowLabel response q Hm Hp Hl Hr <- Hq.
    apply parse_response_fields in Hq as [-> _].
    now apply (json_rate_wins _ cap ms n).
  - exact invert_rate.
  - intros from to w d w2 Hi Hc Ha Hr.
    rewrite fetchRealTimeRate_unfold, Hc, Ha. unfold finish. rewrite Hi.
    eexists. split; [reflexivity|]. rewrite invert_rate, Hr. reflexivity.
Qed.

Lemma oracle_rate_nonzero_witness :
  (exists q,
     fst (fetchRealTimeRate USD NGN world_negative) = Returns q /\
     rate q = Num (-5) /\ JS.eqb (rate q) (Num 0) = false) /\
  (exists row q,
     snd (cache_lookup USD NGN world_stale_negative) = Some row /\
     fst (fetchRealTimeRate USD NGN world_stale_negative) = Returns q /\
     rate q = Num (-5) /\ JS.eqb (rate q) (Num 0) = false) /\
  (exists q,
     fst (fetchRealTimeRate NGN USD world_infinite) = Returns q /\
     rate q = Num 0).
Proof.
  destruct oracle_rate_nonzero as (_ & _ & _ & _ & Hnz & _ & _ & Hinf).
  split; [|split].
  - eexists. split; [vm_compute; reflexivity|]. split; [reflexivity|].
    apply (Hnz USD NGN world_negative _
             (snd (fetchRealTimeRate USD NGN world_negative)));
      [vm_compute; reflexivity | reflexivity | reflexivity | now left].
  - eexists _, _. split; [vm_compute; reflexivity|].
    split; [vm_compute; reflexivity|]. split; [reflexivity|].
    apply (Hnz USD NGN world_stale_negative _
             (snd (fetchRealTimeRate USD NGN world_stale_negative)));
      [vm_compute; reflexivity | reflexivity | reflexivity |].
    right. eexists _, _. vm_compute. reflexivity.
  - apply (Hinf NGN USD world_infinite
             {| rate := JS.Infinity false; parallelRate := None;
                lastUpdated := "10:15:00 AM"; summary := [];
                sources := [] |}
             (snd (oracle_attempt NGN USD world_infinite)));
      [reflexivity | reflexivity | vm_compute; reflexivity | reflexivity].
Defined.

(** ** Scenarios of the specification *)

(** A fenced block with rate 1550.25, parallel rate 1600.0 and summary
    "Stable.", with two web citations among the grounding chunks. *)
Example scenario_two_citations :
  match parse_response "10:15:00 AM" response_two_citations with
  | Returns q =>
      rate q = JS.round 1550.25 /\ parallelRate q = Some (Num 1600) /\
      summary q = txt "Stable." /\ length (sources q) = 2%nat /\
      lastUpdated q = "10:15:00 AM"
  | Throws _ => False
  end.
Proof. vm_compute. repeat split; reflexivity. Qed.

(** The token pattern has no word boundary: an ungrouped amount is cut
    after its third digit. *)
Example ungrouped_amount_is_cut :
  rate_tokens (txt "1580.50") = [txt "158"; txt "0.50"].
Proof. reflexivity. Qed.

(** A stale record is preferred to the emergency table. *)
Example stale_before_emergency :
  option_map (fun q => (rate q, lastUpdated q))
    (match fst (fetchRealTimeRate USD NGN world_stale) with
     | Returns q => Some q
     | Throws _ => None
     end)
  = Some (Num 1600, "10:15:00 AM (Cached)").
Proof. vm_compute. reflexivity. Qed.

(** Numbers are binary64 values: a quotient or a literal is rounded to the
    nearest one, ties to the even significand; what is too small becomes 0
    and what is too large Infinity. *)
Example binary64_rounding :
  JS.round 0.1 = Num (3602879701896397 # 36028797018963968) /\
  JS.round (1 # 3) = Num (6004799503160661 # 18014398509481984) /\
  JS.round (inject_Z (2 ^ 53 + 1)) = Num (inject_Z (2 ^ 53)) /\
  JS.round (inject_Z (2 ^ 53 + 3)) = Num (inject_Z (2 ^ 53 + 4)) /\
  JS.round (1 # Pos.pow 2 1075) = Num 0 /\
  JS.round (3 # Pos.pow 2 1075) = Num (1 # Pos.pow 2 1073) /\
  JS.round (inject_Z (2 ^ 1024 - 2 ^ 970)) = JS.Infinity false /\
  JS.recip (Num 1580) = Num (5837577238515681 # 9223372036854775808).
Proof. vm_compute. repeat split; reflexivity. Qed.

(** A declared rate too small for a binary64 value is read as 0: it is not
    assigned, no token is a candidate, and the response is refused. *)
Example underflowing_rate_is_refused :
  JSON_parse (quoted "{'rate': 1e-400}") = Some (JObj [(txt "rate", JNum (Num 0))]) /\
  parse_response "10:15:00 AM" (response_of (quoted "{'rate': 1e-400}"))
  = Throws (Error "AI returned 0 rate").
Proof. vm_compute. split; reflexivity. Qed.

(** A token whose fraction is lost in rounding is an integer, and rejected. *)
Example rounded_token_is_integer :
  rate_candidates (txt "1.00000000000000000001") = [Num 1] /\
  parse_response "10:15:00 AM" (response_of (txt "1.00000000000000000001"))
  = Throws (Error "AI returned 0 rate").
Proof. vm_compute. split; reflexivity. Qed.

(** An escape names any code unit. *)
Example escape_of_any_code_unit :
  JSON_parse (quoted "{'summary': '\u20a6 per $'}")
  = Some (JObj [(txt "summary", JStr (8358%N :: txt " per $"))]).
Proof. vm_compute. reflexivity. Qed.

(** A rate that is an object with a member [toString] cannot be converted:
    the error is caught, the parallel rate and the summary of the object
    are not read, and the token search runs on the text. *)
Example unconvertible_rate_stops_the_reading :
  let t := quoted "{'rate': {'toString': 1}, 'parallelRate': 7.5, 'summary': 'x'}" in
  json_path t (initial_parsing t) = initial_parsing t /\
  parse_response "10:15:00 AM" (response_of t)
  = Returns {| rate := JS.round 7.5; parallelRate := None; summary := t;
               lastUpdated := "10:15:00 AM"; sources := [] |}.
Proof. vm_compute. split; reflexivity. Qed.

(** An object without such a member is converted to NaN, and the reading
    goes on. *)
Example object_rate_is_not_a_number :
  let t := quoted "{'rate': {'value': 1}, 'parallelRate': 7.5, 'summary': 'x'}" in
  json_path t (initial_parsing t)
  = {| detectedRate := NaN; detectedParallel := Some (JS.round 7.5);
       summaryText := JStr (txt "x") |}.
Proof. vm_compute. reflexivity. Qed.

(** * Further properties *)

(** ** The persistent cache across resolutions *)

Lemma oracle_attempt_step from to w :
  oracle_step (after_select from to w) (snd (oracle_attempt from to w)).
Proof. apply attempt_step. Qed.

Lemma mapDb_upsert_row fmt q now :
  mapDbToExchangeData fmt (upsert_row q now) =
  {| rate := rate q; parallelRate := or_absent (parallelRate q);
     lastUpdated := fmt now; summary := summary q; sources := sources q |}.
Proof.
  unfold mapDbToExchangeData, upsert_row. simpl. f_equal.
  destruct (parallelRate q) as [p|]; [|reflexivity]. simpl.
  destruct (JS.truthy p) eqn:T; simpl; [now rewrite T | reflexivity].
Qed.

Lemma attempt_select_latency from to n w :
  select_latency (snd (attemptAIFetchWithRetry from to n w)) = select_latency w.
Proof.
  revert w; induction n as [|n IH]; intros w;
    [simpl | rewrite attempt_S];
    pose proof (fetchFromAI_world from to w) as Hw;
    destruct (fetchFromAI from to w) as [[d|err] w1]; cbn [snd] in *;
    subst w1; try reflexivity.
  destruct (isQuota err); [|reflexivity]. now rewrite IH.
Qed.

(** X1: a quote persisted by a resolution is served to any request of the
    same canonical pair whose cache read ends less than 30 minutes after
    the write, after the cache read alone; it carries the rate, summary and
    sources of the oracle quote. *)
Theorem persisted_quote_served (from to from' to' : CurrencyCode) (w : World)
  (aiResult : ExchangeData) (w2 : World) (dt : Z) :
  select_mode w = SelectAnswers ->
  upsert_fails w = false ->
  fst (cache_lookup from to w) = None ->
  oracle_attempt from to w = (Returns aiResult, w2) ->
  JS.ltb (Num 0) (rate aiResult) = true ->
  pairId from' to' = pairId from to ->
  (dt + Z.of_N (select_latency w (clock w2 + dt)) < CACHE_DURATION_MS)%Z ->
  let w' := elapse dt (snd (fetchRealTimeRate from to w)) in
  let q := {| rate := rate aiResult;
              parallelRate := or_absent (parallelRate aiResult);
              lastUpdated := locale_time w (clock w2);
              summary := summary aiResult;
              sources := sources aiResult |} in
  fetchRealTimeRate from' to' w' =
    (Returns (finish (shouldInvert from' to') q),
     advance (Z.of_N (select_latency w (clock w2 + dt)))
       (log_event (EvSelect (pairId from to)) w')).
Proof.
  intros Hm Hu Hc Ha Hpos Hk Hdt w' q.
  pose proof (oracle_attempt_step from to w) as [_ Hmode Hup _ Hloc _ _].
  pose proof (attempt_select_latency (searchFrom from to) (searchTo from to) 1
                (after_select from to w)) as Hlat.
  fold (oracle_attempt from to w) in Hlat.
  rewrite Ha in Hmode, Hup, Hloc, Hlat. cbn [snd] in *.
  assert (Hup2 : upsert_fails w2 = false) by (rewrite Hup; exact Hu).
  assert (Hmode2 : select_mode w2 = SelectAnswers) by (rewrite Hmode; exact Hm).
  assert (Hloc2 : locale_time w2 = locale_time w) by (rewrite Hloc; reflexivity).
  assert (Hlat2 : select_latency w2 = select_latency w)
    by (rewrite Hlat; reflexivity).
  assert (W : snd (fetchRealTimeRate from to w)
              = upsert (pairId from to) (upsert_row aiResult (clock w2)) w2).
  { rewrite fetchRealTimeRate_unfold, Hc, Ha. cbn [snd]. now rewrite Hpos. }
  assert (Hrow : store w' !! pairId from' to'
                 = Some (upsert_row aiResult (clock w2))).
  { unfold w'. rewrite W, Hk. simpl. rewrite Hup2. apply lookup_insert_eq. }
  assert (Hmode' : select_mode w' = SelectAnswers)
    by (unfold w'; rewrite W; exact Hmode2).
  assert (Hclock : clock w' = (clock w2 + dt)%Z)
    by (unfold w'; rewrite W; reflexivity).
  assert (Hl : locale_time w' = locale_time w)
    by (unfold w'; rewrite W; exact Hloc2).
  assert (Hs : select_latency w' = select_latency w)
    by (unfold w'; rewrite W; exact Hlat2).
  rewrite fetchRealTimeRate_unfold.
  rewrite (cache_lookup_row from' to' w' _ Hmode' Hrow).
  cbn [fst]. unfold read_end. rewrite Hs, Hclock.
  replace (clock w2 + dt + Z.of_N (select_latency w (clock w2 + dt))
           - db_updated_at (upsert_row aiResult (clock w2)))%Z
    with (dt + Z.of_N (select_latency w (clock w2 + dt)))%Z by (simpl; lia).
  destruct (Z.ltb_spec (dt + Z.of_N (select_latency w (clock w2 + dt)))
              CACHE_DURATION_MS); [|lia].
  rewrite mapDb_upsert_row, Hl. unfold after_select, select_single.
  cbn [snd]. now rewrite Hk, Hs, Hclock.
Qed.

Lemma persisted_quote_served_witness :
  fst (fetchRealTimeRate NGN USD
         (elapse 1797999
            (snd (fetchRealTimeRate USD NGN (slow_read world_scenario)))))
  = Returns (invertExchangeData quote_scenario) /\
  calls (snd (fetchRealTimeRate NGN USD
         (elapse 1797999
            (snd (fetchRealTimeRate USD NGN (slow_read world_scenario))))))
  = 1%nat.
Proof.
  assert (Ha : oracle_attempt USD NGN (slow_read world_scenario)
               = (Returns quote_scenario,
                  snd (oracle_attempt USD NGN (slow_read world_scenario))))
    by (vm_compute; reflexivity).
  assert (Hdt : (1797999
                 + Z.of_N (select_latency (slow_read world_scenario)
                             (clock (snd (oracle_attempt USD NGN
                                            (slow_read world_scenario)))
                              + 1797999))
                 < CACHE_DURATION_MS)%Z) by (vm_compute; reflexivity).
  pose proof (persisted_quote_served USD NGN NGN USD (slow_read world_scenario)
                quote_scenario _ 1797999 eq_refl eq_refl eq_refl Ha eq_refl
                eq_refl Hdt) as H.
  cbv zeta in H. rewrite H. split; reflexivity.
Defined.

(** ** What a resolution writes *)

Lemma upsert_row_clean aiResult now :
  JS.ltb (Num 0) (rate aiResult) = true -> clean_row (upsert_row aiResult now).
Proof.
  intros Hpos. split; [exact Hpos|]. simpl. intros p.
  destruct (parallelRate aiResult) as [p0|]; [|discriminate]. simpl.
  destruct (JS.truthy p0) eqn:T; [|discriminate]. now intros [= <-].
Qed.

Lemma fetch_store_cases from to w :
  store (snd (fetchRealTimeRate from to w)) = store w \/
  exists aiResult now,
    JS.ltb (Num 0) (rate aiResult) = true /\
    store (snd (fetchRealTimeRate from to w))
      = <[pairId from to := upsert_row aiResult now]> (store w).
Proof.
  rewrite fetchRealTimeRate_unfold.
  destruct (fst (cache_lookup from to w)); [now left|].
  pose proof (oracle_attempt_step from to w) as [Hs _ _ _ _ _ _].
  destruct (oracle_attempt from to w) as [[d|err] w2]; cbn [fst snd] in *.
  - destruct (JS.ltb (Num 0) (rate d)) eqn:Hpos; [|now left].
    simpl. destruct (upsert_fails w2); [now left|].
    right. exists d, (clock w2). now rewrite Hs.
  - destruct (snd (cache_lookup from to w)); [now left|].
    destruct (EMERGENCY_RATES !! pairId from to); now left.
Qed.

(** X2: a resolution never deletes a record, touches no key but the
    canonical one of its pair, and only ever writes a row with a positive
    rate and a parallel rate that is null or nonzero; so a store of such
    rows stays one. *)
Theorem store_stays_clean (from to : CurrencyCode) (w : World) :
  (forall k, is_Some (store w !! k) ->
             is_Some (store (snd (fetchRealTimeRate from to w)) !! k)) /\
  (forall k, k <> pairId from to ->
             store (snd (fetchRealTimeRate from to w)) !! k = store w !! k) /\
  (forall row,
     store (snd (fetchRealTimeRate from to w)) !! pairId from to = Some row ->
     store w !! pairId from to = Some row \/ clean_row row) /\
  (map_Forall (fun _ row => clean_row row) (store w) ->
   map_Forall (fun _ row => clean_row row)
     (store (snd (fetchRealTimeRate from to w)))).
Proof.
  destruct (fetch_store_cases from to w)
    as [E|(aiResult & now & Hpos & E)]; rewrite E.
  - split; [auto|]. split; [auto|]. split; [intros row H; now left | auto].
  - split; [|split; [|split]].
    + intros k Hk. destruct (decide (pairId from to = k)) as [<-|Hne].
      * rewrite lookup_insert_eq. eauto.
      * now rewrite lookup_insert_ne.
    + intros k Hk. now rewrite lookup_insert_ne.
    + intros row. rewrite lookup_insert_eq. intros [= <-]. right.
      now apply upsert_row_clean.
    + intros Hall. apply map_Forall_insert_2; [|exact Hall].
      now apply upsert_row_clean.
Qed.

Lemma store_stays_clean_witness :
  map_Forall (fun _ row => clean_row row)
    (store (snd (fetchRealTimeRate NGN USD world_scenario))) /\
  option_map db_rate
    (store (snd (fetchRealTimeRate NGN USD world_scenario)) !! "USD-NGN")
  = Some (JS.round 1550.25).
Proof.
  split.
  - apply (proj2 (proj2 (proj2 (store_stays_clean NGN USD world_scenario)))).
    apply map_Forall_empty.
  - vm_compute. reflexivity.
Defined.

(** ** The external calls of a resolution *)

Lemma attempt_zero_world from to w :
  snd (attemptAIFetchWithRetry from to 0 w) = snd (generateContent from to w).
Proof.
  simpl. pose proof (fetchFromAI_world from to w) as H.
  now destruct (fetchFromAI from to w) as [[d|err] w1].
Qed.

Lemma attempt_one_worlds from to w :
  snd (attemptAIFetchWithRetry from to 1 w) = snd (generateContent from to w) \/
  snd (attemptAIFetchWithRetry from to 1 w)
    = snd (generateContent from to
             (sleep 2000 (snd (generateContent from to w)))).
Proof.
  rewrite attempt_S.
  pose proof (fetchFromAI_world from to w) as H1.
  destruct (fetchFromAI from to w) as [[d|err] w1]; cbn [snd] in H1;
    [left; exact H1|]. subst w1.
  destruct (isQuota err); [|now left]. right. apply attempt_zero_world.
Qed.

(** X3: the external calls of a resolution follow one of five sequences:
    the cache read alone; the read and one oracle query; the read, a
    query, a pause of 2000 ms and a second query; and the last two
    followed by one upsert under the canonical key.  So there are at most
    two oracle queries, and the resolution takes the time of the calls it
    awaits, the read and the queries, and of the pause. *)
Theorem resolution_call_sequences (from to : CurrencyCode) (w : World) :
  let k := pairId from to in
  let G := EvGenerate (searchFrom from to) (searchTo from to) in
  let w' := snd (fetchRealTimeRate from to w) in
  let t0 := (clock w + Z.of_N (select_latency w (clock w)))%Z in
  let t1 := (t0 + Z.of_N (oracle_latency w (calls w)))%Z in
  let t2 := (t1 + 2000 + Z.of_N (oracle_latency w (S (calls w))))%Z in
  (trace w' = trace w ++ [EvSelect k] /\
   calls w' = calls w /\ clock w' = t0) \/
  ((trace w' = trace w ++ [EvSelect k; G] \/
    exists row, trace w' = trace w ++ [EvSelect k; G; EvUpsert k row]) /\
   calls w' = S (calls w) /\ clock w' = t1) \/
  ((trace w' = trace w ++ [EvSelect k; G; EvSleep 2000; G] \/
    exists row,
      trace w' = trace w ++ [EvSelect k; G; EvSleep 2000; G; EvUpsert k row]) /\
   calls w' = S (S (calls w)) /\ clock w' = t2).
Proof.
  intros k G w' t0 t1 t2. unfold w'. rewrite fetchRealTimeRate_unfold.
  destruct (fst (cache_lookup from to w)).
  { left. cbn [snd]. unfold after_select, select_single. simpl.
    now repeat split. }
  right.
  assert (A : forall w2,
             w2 = snd (oracle_attempt from to w) ->
             (trace w2 = trace w ++ [EvSelect k; G] /\
              calls w2 = S (calls w) /\ clock w2 = t1) \/
             (trace w2 = trace w ++ [EvSelect k; G; EvSleep 2000; G] /\
              calls w2 = S (S (calls w)) /\ clock w2 = t2)).
  { intros w2 ->. unfold oracle_attempt.
    destruct (attempt_one_worlds (searchFrom from to) (searchTo from to)
                (after_select from to w)) as [E|E]; rewrite E;
      unfold after_select, select_single; simpl;
      rewrite <- ?app_assoc; simpl; [left | right];
      (split; [reflexivity|split; [reflexivity|unfold t2, t1, t0; lia]]). }
  destruct (oracle_attempt from to w) as [[d|err] w2]; cbn [fst snd] in *.
  - destruct (A w2 eq_refl) as [(T & Hc & Hk)|(T & Hc & Hk)];
      [left | right];
      (destruct (JS.ltb (Num 0) (rate d)); simpl;
       [split; [|now split]; right; eexists; rewrite T, <- app_assoc;
        reflexivity
       | split; [now left | now split]]).
  - assert (B : forall x, x = w2 ->
               (trace x = trace w ++ [EvSelect k; G] \/
                exists row, trace x = trace w ++ [EvSelect k; G; EvUpsert k row]) /\
               calls x = S (calls w) /\ clock x = t1 \/
               (trace x = trace w ++ [EvSelect k; G; EvSleep 2000; G] \/
                exists row,
                  trace x
                  = trace w ++ [EvSelect k; G; EvSleep 2000; G; EvUpsert k row]) /\
               calls x = S (S (calls w)) /\ clock x = t2).
    { intros x ->.
      destruct (A w2 eq_refl) as [(T & Hc & Hk)|(T & Hc & Hk)];
        [left | right]; (split; [now left | now split]). }
    destruct (snd (cache_lookup from to w)); cbn [snd]; [now apply B|].
    destruct (EMERGENCY_RATES !! pairId from to); cbn [snd]; now apply B.
Qed.

Lemma resolution_call_sequences_witness :
  calls (snd (fetchRealTimeRate USD NGN (slow_read world_rate_limited))) = 2%nat /\
  clock (snd (fetchRealTimeRate USD NGN (slow_read world_rate_limited)))
  = (1700000000000 + 2000 + 700 + 2000 + 700)%Z.
Proof.
  destruct (resolution_call_sequences USD NGN (slow_read world_rate_limited))
    as [(T & _)|[([T|(row & T)] & _)|(_ & Hc & Hk)]].
  - vm_compute in T. discriminate T.
  - vm_compute in T. discriminate T.
  - vm_compute in T. discriminate T.
  - split; [exact Hc | rewrite Hk; reflexivity].
Defined.

(** ** Exhausting the retry budget *)

(** X4: against an oracle that keeps answering with a rate-limit error, the
    wrapper with budget n makes n + 1 queries and n pauses of 2000 ms, and
    then throws that error; the time it takes is that of the pauses and of
    the queries. *)
Theorem retry_exhaustion (from to : CurrencyCode) (e : JsError) :
  isQuota e = true ->
  forall retries w,
    (forall k, oracle w from to k = Fails e) ->
    fst (attemptAIFetchWithRetry from to retries w) = Throws e /\
    calls (snd (attemptAIFetchWithRetry from to retries w))
      = (calls w + S retries)%nat /\
    clock (snd (attemptAIFetchWithRetry from to retries w))
      = (clock w + 2000 * Z.of_nat retries
         + queries_time (oracle_latency w) (calls w) (S retries))%Z /\
    trace (snd (attemptAIFetchWithRetry from to retries w))
      = trace w ++ EvGenerate from to
                :: retries_events (EvGenerate from to) retries.
Proof.
  intros Hq. induction retries as [|n IH]; intros w Ho.
  - simpl. rewrite (fetchFromAI_fails _ _ _ _ (Ho (calls w))). simpl.
    split; [reflexivity|]. split; [lia|]. split; [lia|]. reflexivity.
  - rewrite attempt_S, (fetchFromAI_fails _ _ _ _ (Ho (calls w))), Hq.
    destruct (IH (sleep 2000 (snd (generateContent from to w))) Ho)
      as (H1 & H2 & H3 & H4).
    rewrite H1, H2, H3. split; [reflexivity|]. split; [simpl; lia|].
    split.
    + cbn [sleep advance log_event generateContent snd clock calls
           oracle_latency].
      change (queries_time (oracle_latency w) (calls w) (S (S n)))
        with (Z.of_N (oracle_latency w (calls w))
              + queries_time (oracle_latency w) (S (calls w)) (S n))%Z.
      lia.
    + rewrite H4. simpl. now rewrite <- !app_assoc.
Qed.

Lemma retry_exhaustion_witness :
  calls (snd (attemptAIFetchWithRetry EUR NGN 3 (slow_read world_rate_limited)))
    = 4%nat /\
  clock (snd (attemptAIFetchWithRetry EUR NGN 3 (slow_read world_rate_limited)))
    = (1700000000000 + 6000 + 2800)%Z.
Proof.
  destruct (retry_exhaustion EUR NGN error_429 eq_refl 3
              (slow_read world_rate_limited) (fun _ => eq_refl))
    as (_ & H2 & H3 & _).
  split; [exact H2 | rewrite H3; reflexivity].
Defined.

(** ** Pairs with the domestic currency *)

Lemma emergency_covers_foreign foreign :
  foreign <> NGN -> is_Some (EMERGENCY_RATES !! pairKey foreign NGN).
Proof.
  destruct foreign; try congruence; intros _; vm_compute; eauto.
Qed.

Lemma emergency_only_domestic from to :
  (from = NGN <-> to = NGN) -> EMERGENCY_RATES !! pairId from to = None.
Proof.
  destruct from, to; intros [H1 H2]; try reflexivity;
    try (specialize (H1 eq_refl); discriminate);
    try (specialize (H2 eq_refl); discriminate).
Qed.

Lemma fetch_returns_with_emergency from to w :
  is_Some (EMERGENCY_RATES !! pairId from to) ->
  exists q, fst (fetchRealTimeRate from to w) = Returns q.
Proof.
  intros [r Hr]. rewrite fetchRealTimeRate_unfold.
  destruct (fst (cache_lookup from to w)); [eauto|].
  destruct (oracle_attempt from to w) as [[d|err] w2]; [eauto|].
  destruct (snd (cache_lookup from to w)); [eauto|].
  rewrite Hr. eauto.
Qed.

(** X5: a resolution between NGN and a foreign currency, in either
    direction, never throws; for every other pair the emergency table has
    no entry, so a resolution that reads no record throws whenever the
    oracle path fails. *)
Theorem domestic_pairs_always_resolve (foreign : CurrencyCode) (w : World) :
  foreign <> NGN ->
  (exists q, fst (fetchRealTimeRate foreign NGN w) = Returns q) /\
  (exists q, fst (fetchRealTimeRate NGN foreign w) = Returns q) /\
  (forall from to e w2,
     (from = NGN <-> to = NGN) ->
     snd (cache_lookup from to w) = None ->
     oracle_attempt from to w = (Throws e, w2) ->
     fetchRealTimeRate from to w = (Throws e, w2)).
Proof.
  intros Hf.
  destruct (canonical_domestic_first foreign Hf) as [C1 C2].
  assert (K1 : pairId foreign NGN = pairKey foreign NGN)
    by (unfold pairId, searchFrom, searchTo; now rewrite C2).
  assert (K2 : pairId NGN foreign = pairKey foreign NGN)
    by (unfold pairId, searchFrom, searchTo; now rewrite C1).
  split; [|split].
  - apply fetch_returns_with_emergency. rewrite K1.
    now apply emergency_covers_foreign.
  - apply fetch_returns_with_emergency. rewrite K2.
    now apply emergency_covers_foreign.
  - intros from to e w2 Hp Hn Ha. rewrite fetchRealTimeRate_unfold.
    rewrite (cache_lookup_no_record from to w Hn), Ha, Hn.
    now rewrite (emergency_only_domestic from to Hp).
Qed.

Lemma domestic_pairs_always_resolve_witness :
  (exists q, fst (fetchRealTimeRate NGN CAD world_offline) = Returns q) /\
  fetchRealTimeRate GBP EUR world_offline
    = (Throws error_network, snd (oracle_attempt GBP EUR world_offline)).
Proof.
  assert (Hf : CAD <> NGN) by discriminate.
  destruct (domestic_pairs_always_resolve CAD world_offline Hf)
    as (_ & H2 & H3).
  split; [exact H2|].
  apply H3; [split; discriminate | reflexivity | vm_compute; reflexivity].
Defined.

(** ** The parser, further *)

Lemma not_In_by_existsb c (s : text) : existsb (N.eqb c) s = false -> ~ In c s.
Proof.
  intros H Hin. assert (E : existsb (N.eqb c) s = true).
  { apply existsb_exists. exists c. split; [exact Hin | apply N.eqb_refl]. }
  congruence.
Qed.

Lemma find_first_char c pre rest :
  ~ In c pre -> find_first [c] (pre ++ c :: rest) = Some (pre, rest).
Proof.
  induction pre as [|x pre IH]; intros Hn; simpl.
  - now rewrite N.eqb_refl.
  - destruct (N.eqb c x) eqn:E.
    + apply N.eqb_eq in E. subst. exfalso. apply Hn. now left.
    + rewrite IH; [reflexivity|]. intros H. apply Hn. now right.
Qed.

Lemma find_first_char_inv c s a b :
  find_first [c] s = Some (a, b) -> s = a ++ c :: b /\ ~ In c a.
Proof.
  revert a. induction s as [|x s IH]; intros a; simpl; [discriminate|].
  destruct (N.eqb c x) eqn:E.
  - apply N.eqb_eq in E. subst. intros [= <- <-]. split; [reflexivity | auto].
  - destruct (find_first [c] s) as [[a' b']|]; [|discriminate].
    intros [= <- <-]. destruct (IH a' eq_refl) as [-> Hn].
    split; [reflexivity|]. intros [H|H]; [|now apply Hn].
    subst. now rewrite N.eqb_refl in E.
Qed.

Lemma find_last_char_absent c s : ~ In c s <-> find_last [c] s = None.
Proof.
  induction s as [|x s IH]; simpl.
  - split; auto.
  - destruct (find_last [c] s) as [[a b]|].
    + split; [|discriminate]. intros Hn. exfalso.
      assert (H : ~ In c s) by (intros H; apply Hn; now right).
      apply IH in H. discriminate.
    + destruct (N.eqb c x) eqn:E.
      * apply N.eqb_eq in E. subst. split; [|discriminate].
        intros Hn. exfalso. apply Hn. now left.
      * split; [reflexivity|]. intros _ [H|H].
        -- subst. now rewrite N.eqb_refl in E.
        -- now apply (proj2 IH).
Qed.

Lemma find_last_char c mid post :
  ~ In c post -> find_last [c] (mid ++ c :: post) = Some (mid, post).
Proof.
  intros Hn. induction mid as [|x mid IH]; simpl.
  - apply find_last_char_absent in Hn. now rewrite Hn, N.eqb_refl.
  - now rewrite IH.
Qed.

Lemma find_last_char_inv c s a b :
  find_last [c] s = Some (a, b) -> s = a ++ c :: b /\ ~ In c b.
Proof.
  revert a. induction s as [|x s IH]; intros a; simpl; [discriminate|].
  destruct (find_last [c] s) as [[a' b']|] eqn:L.
  - intros [= <- <-]. destruct (IH a' eq_refl) as [-> Hn]. now split.
  - destruct (N.eqb c x) eqn:E; [|discriminate].
    apply N.eqb_eq in E. subst. intros [= <- <-].
    split; [reflexivity|]. now apply find_last_char_absent.
Qed.

Lemma match_object_spec t m :
  match_object t = Some m <->
  exists pre mid post,
    t = pre ++ brace_open :: mid ++ brace_close :: post /\
    ~ In brace_open pre /\ ~ In brace_close post /\
    occurs (quoted "'rate'") mid /\
    m = brace_open :: mid ++ [brace_close].
Proof.
  unfold match_object. change (txt "{") with [brace_open].
  change (txt "}") with [brace_close]. split.
  - destruct (find_first [brace_open] t) as [[pre rest]|] eqn:F; [|discriminate].
    destruct (find_last [brace_close] rest) as [[mid post]|] eqn:L; [|discriminate].
    destruct (includes _ mid) eqn:I; [|discriminate]. intros [= <-].
    apply find_first_char_inv in F as [-> Hpre].
    apply find_last_char_inv in L as [-> Hpost].
    apply includes_true in I. exists pre, mid, post. now repeat split.
  - intros (pre & mid & post & -> & Hpre & Hpost & Hocc & ->).
    rewrite (find_first_char _ _ _ Hpre), (find_last_char _ _ _ Hpost).
    apply includes_true in Hocc. now rewrite Hocc.
Qed.

(** X6: when the text holds no fenced block, the JSON candidate is the span
    from the first opening brace to the last closing brace of the text,
    provided the quoted key [rate] occurs in between; when that span parses
    to an object whose [rate] is a nonzero number, that number is the
    detected rate. *)
Theorem bare_object_span (t : text) :
  match_fenced t = None ->
  (forall m,
     jsonMatch t = Some m <->
     exists pre mid post,
       t = pre ++ brace_open :: mid ++ brace_close :: post /\
       ~ In brace_open pre /\ ~ In brace_close post /\
       occurs (quoted "'rate'") mid /\
       m = brace_open :: mid ++ [brace_close]) /\
  (forall m ms n,
     jsonMatch t = Some m ->
     JSON_parse m = Some (JObj ms) ->
     lookup_member (txt "rate") ms = Some (JNum n) ->
     JS.truthy n = true ->
     detectedRate (detect t) = n).
Proof.
  intros Hf.
  assert (J : jsonMatch t = match_object t) by (unfold jsonMatch; now rewrite Hf).
  split.
  - intros m. rewrite J. apply match_object_spec.
  - intros m ms n Hm Hp Hl Hr.
    now apply (json_rate_assigned t m ms n).
Qed.

Lemma bare_object_span_witness :
  jsonMatch text_bare_object
    = Some (quoted "{'rate': 1550.25, 'summary': 'Stable.'}") /\
  detectedRate (detect text_bare_object) = JS.round 1550.25.
Proof.
  destruct (bare_object_span text_bare_object eq_refl) as [Hspan Hrate].
  assert (Hm : jsonMatch text_bare_object
               = Some (quoted "{'rate': 1550.25, 'summary': 'Stable.'}")).
  { apply Hspan.
    exists (txt "Here you go: "),
           (quoted "'rate': 1550.25, 'summary': 'Stable.'"),
           (txt " as asked").
    split; [reflexivity|].
    split; [apply not_In_by_existsb; reflexivity|].
    split; [apply not_In_by_existsb; reflexivity|].
    split; [|reflexivity].
    exists [], (quoted ": 1550.25, 'summary': 'Stable.'"). reflexivity. }
  split; [exact Hm|].
  apply (Hrate _ [(txt "rate", JNum (JS.round 1550.25));
                  (txt "summary", JStr (txt "Stable."))]
           (JS.round 1550.25) Hm).
  - vm_compute. reflexivity.
  - reflexivity.
  - reflexivity.
Defined.

(** *** Answers without an object *)

Lemma skip_ws_suffix s : exists a, s = a ++ skip_ws s.
Proof.
  induction s as [|c s [a IH]]; [now exists []|]. simpl.
  destruct (json_ws c); [|now exists []].
  exists (c :: a). simpl. now f_equal.
Qed.

Lemma parse_literal_value word v s x r :
  parse_literal word v s = Some (x, r) -> x = v.
Proof.
  unfold parse_literal. destruct (strip_prefix _ _); [|discriminate].
  now intros [= <- _].
Qed.

Lemma json_object_has_brace s ms :
  JSON_parse s = Some (JObj ms) -> In brace_open s.
Proof.
  unfold JSON_parse.
  destruct (parse_value _ s) as [[v r]|] eqn:E; [|discriminate].
  destruct (skip_ws r); [|discriminate]. intros [= ->].
  change (2 + 2 * length s)%nat with (S (S (2 * length s))) in E.
  cbn [parse_value] in E. unfold value_step in E.
  destruct (skip_ws_suffix s) as [a Ha].
  destruct (skip_ws s) as [|c r'] eqn:W; [discriminate|].
  destruct (N.eqb c (ch "{")) eqn:B.
  - apply N.eqb_eq in B. subst c. rewrite Ha. apply in_or_app.
    right. now left.
  - exfalso.
    destruct (N.eqb c (ch "[")).
    { destruct (expect _ r'); [discriminate|].
      destruct (parse_elements _ r') as [[vs r1]|]; discriminate. }
    destruct (N.eqb c dq).
    { destruct (parse_string_body r') as [[cs r1]|]; discriminate. }
    destruct (N.eqb c (ch "t")).
    { apply parse_literal_value in E. discriminate. }
    destruct (N.eqb c (ch "f")).
    { apply parse_literal_value in E. discriminate. }
    destruct (N.eqb c (ch "n")).
    { apply parse_literal_value in E. discriminate. }
    destruct (parse_number (c :: r')) as [[q r1]|]; discriminate.
Qed.

Lemma jsonMatch_infix t j : jsonMatch t = Some j -> exists a b, t = a ++ j ++ b.
Proof.
  unfold jsonMatch, match_fenced, match_object.
  destruct (find_first fence_open t) as [[a rest]|] eqn:F.
  - apply find_first_Some in F.
    destruct (find_first fence_close rest) as [[cap b]|] eqn:C.
    + apply find_first_Some in C. subst rest. subst t.
      destruct cap as [|c cap].
      * intros [= <-]. exists a, b. now rewrite <- ?app_assoc.
      * intros [= <-]. exists (a ++ fence_open), (fence_close ++ b).
        now rewrite <- ?app_assoc.
    + destruct (find_first (txt "{") t) as [[a' rest']|] eqn:F'; [|discriminate].
      destruct (find_last (txt "}") rest') as [[mid post]|] eqn:L; [|discriminate].
      destruct (includes _ mid); [|discriminate]. intros [= <-].
      apply find_first_Some in F'. apply find_last_Some in L.
      exists a', post. rewrite F', L. simpl. now rewrite <- app_assoc.
  - destruct (find_first (txt "{") t) as [[a' rest']|] eqn:F'; [|discriminate].
    destruct (find_last (txt "}") rest') as [[mid post]|] eqn:L; [|discriminate].
    destruct (includes _ mid); [|discriminate]. intros [= <-].
    apply find_first_Some in F'. apply find_last_Some in L.
    exists a', post. rewrite F', L. simpl. now rewrite <- app_assoc.
Qed.

Lemma json_path_inert t st :
  ~ In brace_open t -> json_path t st = st.
Proof.
  intros Hn. unfold json_path.
  destruct (jsonMatch t) as [j|] eqn:J; [|reflexivity].
  destruct (JSON_parse j) as [v|] eqn:P; [|reflexivity].
  destruct v as [| | | | |ms]; try (destruct st; reflexivity).
  exfalso. apply Hn. apply json_object_has_brace in P.
  destruct (jsonMatch_infix _ _ J) as (a & b & ->).
  apply in_or_app. right. apply in_or_app. now left.
Qed.

Lemma strip_years_no_digit s :
  forallb (fun c => negb (is_digit c)) s = true -> strip_years s = s.
Proof.
  induction s as [|c s IH]; [reflexivity|].
  cbn [forallb]. rewrite andb_true_iff. intros [Hc Hs].
  specialize (IH Hs).
  rewrite strip_years_keep; [now rewrite IH|].
  intros (d & rest & [= -> ->] & _). vm_compute in Hc. discriminate Hc.
Qed.

Lemma rate_tokens_no_digit s :
  forallb (fun c => negb (is_digit c)) s = true -> rate_tokens s = [].
Proof.
  unfold rate_tokens. induction s as [|c s IH]; [reflexivity|].
  cbn [forallb]. rewrite andb_true_iff, negb_true_iff. intros [Hc Hs].
  cbn [length]. rewrite (scan_tokens_skip _ _ _ Hc). now apply IH.
Qed.

Lemma valid_candidate_nonzero v :
  valid_candidate v = true -> JS.truthy v = true /\ JS.eqb v (Num 0) = false.
Proof.
  intros H. destruct (valid_candidate_bounds _ H) as [Hpos _].
  split; [now apply ltb_zero_truthy | now apply ltb_zero_not_eqb].
Qed.

(** X7: a response whose text holds no opening brace is settled by the
    numeric tokens alone: its quote carries the first valid candidate as
    rate, no parallel rate, and the whole text, trimmed and stripped of its
    fence, as summary; without a valid candidate, and so whenever the text
    holds no digit at all, the zero-rate error is thrown. *)
Theorem prose_response (nowLabel : string) (response : GenerateContentResponse) :
  ~ In brace_open (response_text response) ->
  parse_response nowLabel response =
    match find valid_candidate (rate_candidates (response_text response)) with
    | Some v =>
        Returns {| rate := v;
                   parallelRate := None;
                   lastUpdated := nowLabel;
                   summary := trim (strip_fence (response_text response));
                   sources := extract_sources (groundingChunks response) |}
    | None => Throws (Error "AI returned 0 rate")
    end /\
  (forallb (fun c => negb (is_digit c)) (response_text response) = true ->
   parse_response nowLabel response = Throws (Error "AI returned 0 rate")).
Proof.
  intros Hn. unfold parse_response. fold (response_text response).
  set (t := response_text response) in *.
  assert (D : detect t = regex_path t (initial_parsing t)).
  { unfold detect. now rewrite json_path_inert. }
  assert (R : forall o,
    find valid_candidate (rate_candidates t) = o ->
    (if JS.eqb (detectedRate (detect t)) (Num 0)
     then Throws (Error "AI returned 0 rate")
     else
       match summaryText (detect t) with
       | JStr s =>
           Returns {| rate := detectedRate (detect t);
                      parallelRate := detectedParallel (detect t);
                      summary := trim (strip_fence s);
                      lastUpdated := nowLabel;
                      sources := extract_sources (groundingChunks response) |}
       | _ => Throws (Error "summaryText.replace is not a function")
       end) =
    match o with
    | Some v =>
        Returns {| rate := v;
                   parallelRate := None;
                   lastUpdated := nowLabel;
                   summary := trim (strip_fence t);
                   sources := extract_sources (groundingChunks response) |}
    | None => Throws (Error "AI returned 0 rate")
    end).
  { intros o Ho. rewrite D. unfold regex_path. cbn [initial_parsing detectedRate].
    change (JS.truthy (Num 0)) with false. cbv iota. rewrite Ho.
    destruct o as [v|]; [|reflexivity].
    apply find_some in Ho as [_ Hv].
    destruct (valid_candidate_nonzero v Hv) as [Ht Hz].
    rewrite Ht. cbn [detectedRate detectedParallel summaryText initial_parsing].
    now rewrite Hz. }
  split.
  - now apply R.
  - intros Hd. rewrite (R None); [reflexivity|].
    unfold rate_candidates.
    now rewrite (strip_years_no_digit _ Hd), (rate_tokens_no_digit _ Hd).
Qed.

Lemma prose_response_witness :
  parse_response "10:15:00 AM" (response_of text_no_number)
    = Throws (Error "AI returned 0 rate") /\
  match parse_response "10:15:00 AM" (response_of text_prose) with
  | Returns q => rate q = JS.round 1545.10 /\ parallelRate q = None
  | Throws _ => False
  end.
Proof.
  assert (H1 : ~ In brace_open (response_text (response_of text_no_number)))
    by (apply not_In_by_existsb; vm_compute; reflexivity).
  assert (H2 : ~ In brace_open (response_text (response_of text_prose)))
    by (apply not_In_by_existsb; vm_compute; reflexivity).
  split.
  - apply (proj2 (prose_response "10:15:00 AM" (response_of text_no_number) H1)).
    vm_compute. reflexivity.
  - rewrite (proj1 (prose_response "10:15:00 AM" (response_of text_prose) H2)).
    vm_compute. split; reflexivity.
Defined.

(** *** A fenced block that is not JSON *)

(** X8: when the first fenced block of the text is not valid JSON, the JSON
    path assigns nothing, whatever else the text holds: a bare object
    elsewhere in the text is not tried, and the rate is left to the numeric
    tokens. *)
Theorem malformed_fence_shadows (t cap : text) :
  first_fenced_block t cap ->
  JSON_parse cap = None ->
  (forall st, json_path t st = st) /\
  detect t = regex_path t (initial_parsing t).
Proof.
  intros Hm Hp. apply match_fenced_spec in Hm.
  assert (J : forall st, json_path t st = st).
  { intros st. unfold json_path, jsonMatch. rewrite Hm.
    destruct cap as [|c cap]; [reflexivity | now rewrite Hp]. }
  split; [exact J|]. unfold detect. now rewrite J.
Qed.

Lemma malformed_fence_shadows_witness :
  match_object text_malformed_fence <> None /\
  detectedRate (detect text_malformed_fence) = JS.round 0.25.
Proof.
  split; [vm_compute; discriminate|].
  assert (Hm : first_fenced_block text_malformed_fence (txt "{rate: 1550.25}")).
  { apply match_fenced_spec. vm_compute. reflexivity. }
  rewrite (proj2 (malformed_fence_shadows text_malformed_fence
                    (txt "{rate: 1550.25}") Hm eq_refl)).
  vm_compute. reflexivity.
Defined.

(** *** The summary *)

Lemma trim_start_head s c r : trim_start s = c :: r -> is_space c = false.
Proof.
  induction s as [|x s IH]; simpl; [discriminate|].
  destruct (is_space x) eqn:E; [exact IH|]. now intros [= <- _].
Qed.

Lemma trim_start_fixed s :
  match s with c :: _ => is_space c = false | [] => True end ->
  trim_start s = s.
Proof. destruct s as [|c s]; [reflexivity|]. simpl. now intros ->. Qed.

Lemma trim_first s c r : trim s = c :: r -> is_space c = false.
Proof.
  unfold trim. intros H.
  destruct (trim_start_suffix (rev (trim_start s))) as [a Ha].
  assert (U : trim_start s = rev (trim_start (rev (trim_start s))) ++ rev a).
  { rewrite <- rev_app_distr, <- Ha. now rewrite rev_involutive. }
  rewrite H in U. simpl in U. now apply trim_start_head in U.
Qed.

Lemma trim_last s init c : trim s = init ++ [c] -> is_space c = false.
Proof.
  unfold trim. intros H. apply (f_equal (@rev char)) in H.
  rewrite rev_involutive, rev_app_distr in H. simpl in H.
  now apply trim_start_head in H.
Qed.

Lemma trim_idempotent s : trim (trim s) = trim s.
Proof.
  assert (A : trim_start (trim s) = trim s).
  { apply trim_start_fixed. destruct (trim s) as [|c r] eqn:E; [exact I|].
    now apply trim_first in E. }
  unfold trim at 1. rewrite A. unfold trim. rewrite rev_involutive.
  rewrite (trim_start_fixed (trim_start (rev (trim_start s)))); [reflexivity|].
  destruct (trim_start (rev (trim_start s))) as [|c r] eqn:E; [exact I|].
  now apply trim_start_head in E.
Qed.

(** X9: the summary of a quote returned by the parser neither starts nor
    ends with white space, and trimming it again changes nothing. *)
Theorem summary_trimmed (nowLabel : string) (response : GenerateContentResponse)
  (q : ExchangeData) :
  parse_response nowLabel response = Returns q ->
  (forall c rest, summary q = c :: rest -> is_space c = false) /\
  (forall init c, summary q = init ++ [c] -> is_space c = false) /\
  trim (summary q) = summary q.
Proof.
  intros Hq. apply parse_response_fields in Hq as [_ (s & _ & ->)].
  split; [|split].
  - intros c rest. apply trim_first.
  - intros init c. apply trim_last.
  - apply trim_idempotent.
Qed.

Lemma summary_trimmed_witness :
  trim (summary quote_scenario) = summary quote_scenario.
Proof.
  apply (summary_trimmed "10:15:00 AM" (response_of text_scenario) quote_scenario).
  vm_compute. reflexivity.
Defined.

(** *** Answered queries *)

Lemma parse_response_errors nowLabel response e :
  parse_response nowLabel response = Throws e -> isQuota e = false.
Proof.
  unfold parse_response. destruct (JS.eqb _ _).
  - now intros [= <-].
  - destruct (summaryText _); try discriminate; now intros [= <-].
Qed.

(** X10: a query that the oracle answers is never repeated, whatever the
    budget: the wrapper returns what the parser makes of the response, a
    quote or an error, after one query and no pause, in the time that
    query takes. *)
Theorem answered_query_not_repeated (from to : CurrencyCode) (retries : nat)
  (w : World) (response : GenerateContentResponse) :
  oracle w from to (calls w) = Responds response ->
  attemptAIFetchWithRetry from to retries w =
    (parse_response
       (locale_time w (clock w + Z.of_N (oracle_latency w (calls w)))) response,
     snd (generateContent from to w)) /\
  calls (snd (attemptAIFetchWithRetry from to retries w)) = S (calls w) /\
  clock (snd (attemptAIFetchWithRetry from to retries w))
    = (clock w + Z.of_N (oracle_latency w (calls w)))%Z /\
  trace (snd (attemptAIFetchWithRetry from to retries w))
    = trace w ++ [EvGenerate from to].
Proof.
  intros Ho.
  assert (A : attemptAIFetchWithRetry from to retries w =
              (parse_response (locale_time w (query_end w)) response,
               snd (generateContent from to w))).
  { pose proof (fetchFromAI_responds _ _ _ _ Ho) as F.
    destruct (parse_response _ response) as [d|e] eqn:P.
    - destruct retries; simpl attemptAIFetchWithRetry; now rewrite F.
    - apply parse_response_errors in P.
      destruct retries; [simpl | rewrite attempt_S]; rewrite F;
        [reflexivity | now rewrite P]. }
  rewrite A. now repeat split.
Qed.

Lemma answered_query_not_repeated_witness :
  attemptAIFetchWithRetry USD NGN 5 world_no_number =
    (Throws (Error "AI returned 0 rate"),
     snd (generateContent USD NGN world_no_number)) /\
  calls (snd (attemptAIFetchWithRetry USD NGN 5 world_no_number)) = 1%nat.
Proof.
  destruct (answered_query_not_repeated USD NGN 5 world_no_number
              (response_of text_no_number) eq_refl) as (Ha & Hc & _).
  split; [|exact Hc]. rewrite Ha. vm_compute. reflexivity.
Defined.

(** ** The session cache, further *)

Lemma loadData_fetch forceRefresh st w :
  needs_fetch forceRefresh st -> loadData forceRefresh st w = fetch_and_cache st w.
Proof.
  unfold needs_fetch, cacheKey, inverseKey, loadData.
  intros [->|[Hc Hi]]; [reflexivity|]. rewrite Hc, Hi. now destruct forceRefresh.
Qed.

Lemma fetch_and_cache_returns st w result w' :
  fetchRealTimeRate (fromCurrency st) (toCurrency st) w = (Returns result, w') ->
  fetch_and_cache st w =
    (show_quote result
       (if JS.ltb (Num 0) (rate result)
        then <[inverseKey st := inverse_of_result result]>
               (<[cacheKey st := result]> (ratesCache st))
        else <[cacheKey st := result]> (ratesCache st)) st, w').
Proof. unfold fetch_and_cache. now intros ->. Qed.

Lemma pairKey_swap_neq a b : a <> b -> pairKey a b <> pairKey b a.
Proof. destruct a, b; intros H; try congruence; discriminate. Qed.

Lemma inverse_of_result_positive d :
  JS.ltb (Num 0) (rate d) = true -> inverse_of_result d = invertExchangeData d.
Proof. intros H. now rewrite (invert_positive d H). Qed.

Lemma invertedData_positive d :
  JS.ltb (Num 0) (rate d) = true -> invertedData d = invertExchangeData d.
Proof.
  intros H. rewrite (invert_positive d H). unfold invertedData.
  now rewrite (ltb_zero_truthy _ H).
Qed.

(** X11: after a quote with a positive rate was fetched for the pair on
    display, swapping the pair shows its inverse from the session cache
    without any external call, and that inverse is the one the service
    computes; when the two currencies differ, swapping back restores the
    state reached after the fetch. *)
Theorem swap_round_trip (forceRefresh : bool) (st : AppState) (w : World)
  (result : ExchangeData) (w' : World) :
  needs_fetch forceRefresh st ->
  fetchRealTimeRate (fromCurrency st) (toCurrency st) w = (Returns result, w') ->
  JS.ltb (Num 0) (rate result) = true ->
  let st1 := fst (loadData forceRefresh st w) in
  (forall w2,
     swap_and_load st1 w2 =
       (show_quote (inverse_of_result result) (ratesCache st1) (handleSwap st1),
        w2)) /\
  inverse_of_result result = invertExchangeData result /\
  (fromCurrency st <> toCurrency st ->
   forall w2 w3,
     swap_and_load (fst (swap_and_load st1 w2)) w3 = (st1, w3)).
Proof.
  intros Hn Hf Hpos st1.
  assert (E : st1 = show_quote result
                      (<[inverseKey st := inverse_of_result result]>
                         (<[cacheKey st := result]> (ratesCache st))) st).
  { unfold st1. rewrite (loadData_fetch _ _ _ Hn).
    rewrite (fetch_and_cache_returns _ _ _ _ Hf). now rewrite Hpos. }
  assert (S1 : forall w2,
             swap_and_load st1 w2 =
             (show_quote (inverse_of_result result) (ratesCache st1)
                (handleSwap st1), w2)).
  { intros w2. unfold swap_and_load, loadData. rewrite E.
    cbn [handleSwap show_quote fromCurrency toCurrency ratesCache].
    unfold inverseKey. now rewrite lookup_insert_eq. }
  split; [exact S1|]. split; [now apply inverse_of_result_positive|].
  intros Hne w2 w3. rewrite S1. cbn [fst]. unfold swap_and_load, loadData.
  rewrite E.
  cbn [handleSwap show_quote fromCurrency toCurrency ratesCache].
  unfold inverseKey, cacheKey.
  rewrite lookup_insert_ne by (now apply pairKey_swap_neq; congruence).
  now rewrite lookup_insert_eq.
Qed.

Lemma swap_round_trip_witness :
  fst (swap_and_load (fst (loadData false (app_with USD NGN ∅) world_scenario))
         world_offline)
  = show_quote (invertExchangeData quote_scenario)
      (ratesCache (fst (loadData false (app_with USD NGN ∅) world_scenario)))
      (app_with NGN USD ∅) /\
  snd (swap_and_load (fst (loadData false (app_with USD NGN ∅) world_scenario))
         world_offline) = world_offline.
Proof.
  assert (Hn : needs_fetch false (app_with USD NGN ∅))
    by (right; split; reflexivity).
  assert (Hf : fetchRealTimeRate USD NGN world_scenario
               = (Returns quote_scenario,
                  snd (fetchRealTimeRate USD NGN world_scenario)))
    by (vm_compute; reflexivity).
  destruct (swap_round_trip false (app_with USD NGN ∅) world_scenario
              quote_scenario _ Hn Hf eq_refl) as (Hs & Hi & _).
  rewrite (Hs world_offline), <- Hi. split; reflexivity.
Defined.

(** X12: the two inversions of the session cache agree with the inversion
    of the service on every quote with a positive rate; on a rate of zero
    all three keep the rate, and on a negative rate the session cache
    inverts where the service returns the quote as it is. *)
Theorem inversions_agree (d : ExchangeData) :
  (JS.ltb (Num 0) (rate d) = true ->
     invertedData d = invertExchangeData d /\
     inverse_of_result d = invertExchangeData d) /\
  (JS.eqb (rate d) (Num 0) = true ->
     rate (invertedData d) = Num 0 /\ invertExchangeData d = d) /\
  (JS.ltb (rate d) (Num 0) = true ->
     rate (invertedData d) = JS.recip (rate d) /\ invertExchangeData d = d).
Proof.
  split; [|split].
  - intros H. split;
      [now apply invertedData_positive | now apply inverse_of_result_positive].
  - intros H. split.
    + simpl. now rewrite (eqb_zero_falsy _ H).
    + apply invert_noop. destruct (rate d) as [q| |b]; try discriminate H.
      simpl in *. now apply Qeq_bool_zero_le.
  - intros H. destruct (rate d) as [q| |b] eqn:R; try discriminate H.
    + simpl in H. apply negb_true_iff in H.
      assert (Hq : (q < 0)%Q).
      { apply Qnot_le_lt. intros L. apply Qle_bool_iff in L. congruence. }
      split.
      * simpl. rewrite R. simpl.
        destruct (Qeq_bool q 0) eqn:E; [|reflexivity].
        apply Qeq_bool_iff in E. rewrite E in Hq. now apply Qlt_irrefl in Hq.
      * apply invert_noop. rewrite R. simpl. apply Qle_bool_iff.
        now apply Qlt_le_weak.
    + destruct b; [|discriminate H]. split.
      * simpl. now rewrite R.
      * apply invert_noop. now rewrite R.
Qed.

Lemma inversions_agree_witness :
  invertedData quote_1600 = invertExchangeData quote_1600 /\
  rate (invertedData quote_negative) = JS.recip (Num (-5)) /\
  invertExchangeData quote_negative = quote_negative.
Proof.
  split.
  - apply (proj1 (inversions_agree quote_1600)). reflexivity.
  - apply (proj2 (proj2 (inversions_agree quote_negative))). reflexivity.
Defined.

(** X13: after a fetch, a reload that is not forced is served from the
    session cache and changes nothing, as long as the two currencies differ
    or the rate is not positive; when they are the same currency and the
    rate is positive, the single key holds the inverse, which the reload
    shows in place of the fetched quote. *)
Theorem reload_after_fetch (forceRefresh : bool) (st : AppState) (w : World)
  (result : ExchangeData) (w' : World) :
  needs_fetch forceRefresh st ->
  fetchRealTimeRate (fromCurrency st) (toCurrency st) w = (Returns result, w') ->
  let st1 := fst (loadData forceRefresh st w) in
  data st1 = Some result /\
  (fromCurrency st <> toCurrency st \/ JS.ltb (Num 0) (rate result) = false ->
   forall w2, loadData false st1 w2 = (st1, w2)) /\
  (fromCurrency st = toCurrency st ->
   JS.ltb (Num 0) (rate result) = true ->
   forall w2,
     snd (loadData false st1 w2) = w2 /\
     data (fst (loadData false st1 w2)) = Some (inverse_of_result result)).
Proof.
  intros Hn Hf st1.
  assert (E : st1 = show_quote result
                      (if JS.ltb (Num 0) (rate result)
                       then <[inverseKey st := inverse_of_result result]>
                              (<[cacheKey st := result]> (ratesCache st))
                       else <[cacheKey st := result]> (ratesCache st)) st).
  { unfold st1. rewrite (loadData_fetch _ _ _ Hn).
    now rewrite (fetch_and_cache_returns _ _ _ _ Hf). }
  split; [now rewrite E|]. split.
  - intros Hc w2. rewrite E. unfold loadData.
    cbn [show_quote fromCurrency toCurrency ratesCache].
    fold (cacheKey st). fold (inverseKey st).
    destruct (JS.ltb (Num 0) (rate result)) eqn:P.
    + destruct Hc as [Hne|]; [|discriminate].
      rewrite lookup_insert_ne
        by (unfold inverseKey, cacheKey; apply pairKey_swap_neq; congruence).
      now rewrite lookup_insert_eq.
    + now rewrite lookup_insert_eq.
  - intros Heq Hpos w2. rewrite E, Hpos. unfold loadData.
    cbn [show_quote fromCurrency toCurrency ratesCache].
    unfold inverseKey. rewrite Heq. now rewrite lookup_insert_eq.
Qed.

Lemma reload_after_fetch_witness :
  loadData false (fst (loadData true (app_with USD NGN ∅) world_scenario))
    world_offline
  = (fst (loadData true (app_with USD NGN ∅) world_scenario), world_offline).
Proof.
  assert (Hf : fetchRealTimeRate USD NGN world_scenario
               = (Returns quote_scenario,
                  snd (fetchRealTimeRate USD NGN world_scenario)))
    by (vm_compute; reflexivity).
  destruct (reload_after_fetch true (app_with USD NGN ∅) world_scenario
              quote_scenario _ (or_introl eq_refl) Hf) as (_ & Hr & _).
  apply Hr. left. discriminate.
Defined.

(** X14: whatever it does, [loadData] keeps the pair on display, ends with
    the loading flag down, leaves every entry of the session cache under
    another key than the two of the pair as it was, and never removes an
    entry; it raises the error message only on a failed fetch, and then
    the quote on display and the cache are unchanged. *)
Theorem loadData_frame (forceRefresh : bool) (st : AppState) (w : World) :
  let st' := fst (loadData forceRefresh st w) in
  fromCurrency st' = fromCurrency st /\
  toCurrency st' = toCurrency st /\
  loading st' = false /\
  (forall k, k <> cacheKey st -> k <> inverseKey st ->
             ratesCache st' !! k = ratesCache st !! k) /\
  (forall k, is_Some (ratesCache st !! k) -> is_Some (ratesCache st' !! k)) /\
  (error st' = None \/
   (error st' = Some generic_error /\
    (exists e, fst (fetchRealTimeRate (fromCurrency st) (toCurrency st) w)
               = Throws e) /\
    data st' = data st /\ ratesCache st' = ratesCache st)).
Proof.
  intros st'.
  assert (F : let s := fst (fetch_and_cache st w) in
    fromCurrency s = fromCurrency st /\
    toCurrency s = toCurrency st /\
    loading s = false /\
    (forall k, k <> cacheKey st -> k <> inverseKey st ->
               ratesCache s !! k = ratesCache st !! k) /\
    (forall k, is_Some (ratesCache st !! k) -> is_Some (ratesCache s !! k)) /\
    (error s = None \/
     (error s = Some generic_error /\
      (exists e, fst (fetchRealTimeRate (fromCurrency st) (toCurrency st) w)
                 = Throws e) /\
      data s = data st /\ ratesCache s = ratesCache st))).
  { unfold fetch_and_cache. fold (cacheKey st). fold (inverseKey st).
    destruct (fetchRealTimeRate _ _ w) as [[result|e] w1]; cbn [fst].
    - split; [reflexivity|]. split; [reflexivity|]. split; [reflexivity|].
      cbn [show_quote ratesCache error]. split; [|split; [|now left]].
      + intros k H1 H2. destruct (JS.ltb (Num 0) (rate result)).
        * rewrite lookup_insert_ne by congruence.
          now rewrite lookup_insert_ne by congruence.
        * now rewrite lookup_insert_ne by congruence.
      + intros k Hk. destruct (JS.ltb (Num 0) (rate result));
          rewrite ?lookup_insert_is_Some'; auto.
    - split; [reflexivity|]. split; [reflexivity|]. split; [reflexivity|].
      cbn [ratesCache error data]. split; [auto|]. split; [auto|].
      right. split; [reflexivity|]. split; [now exists e|]. now split. }
  unfold st', loadData. fold (cacheKey st). fold (inverseKey st).
  destruct forceRefresh; [exact F|].
  destruct (ratesCache st !! cacheKey st) as [hit|] eqn:Hc.
  { cbn [fst show_quote fromCurrency toCurrency loading ratesCache error].
    repeat (split; [now auto|]). now left. }
  destruct (ratesCache st !! inverseKey st) as [invData|] eqn:Hi; [|exact F].
  cbn [fst show_quote fromCurrency toCurrency loading ratesCache error].
  split; [reflexivity|]. split; [reflexivity|]. split; [reflexivity|].
  split; [|split; [|now left]].
  - intros k H1 _. now rewrite lookup_insert_ne by congruence.
  - intros k Hk. rewrite lookup_insert_is_Some'. auto.
Qed.

Lemma loadData_frame_witness :
  ratesCache (fst (loadData true
                     (app_with EUR USD (<["USD-NGN" := quote_1600]> ∅))
                     world_offline)) !! "USD-NGN"
  = Some quote_1600.
Proof.
  destruct (loadData_frame true
              (app_with EUR USD (<["USD-NGN" := quote_1600]> ∅)) world_offline)
    as (_ & _ & _ & Hk & _).
  rewrite (Hk "USD-NGN").
  - vm_compute. reflexivity.
  - vm_compute. discriminate.
  - vm_compute. discriminate.
Defined.

(** X15: a forced refresh whose cache read ends within 30 minutes of the
    stored record of the pair does not reach the oracle: the record is
    displayed again, after the cache read alone. *)
Theorem refresh_within_window (st : AppState) (w : World) (row : DbRow) :
  select_mode w = SelectAnswers ->
  store w !! pairId (fromCurrency st) (toCurrency st) = Some row ->
  (clock w + Z.of_N (select_latency w (clock w)) - db_updated_at row
   < CACHE_DURATION_MS)%Z ->
  let st' := fst (loadData true st w) in
  let w' := snd (loadData true st w) in
  data st' = Some (finish (shouldInvert (fromCurrency st) (toCurrency st))
                     (mapDbToExchangeData (locale_time w) row)) /\
  error st' = None /\
  calls w' = calls w /\
  trace w' = trace w ++ [EvSelect (pairId (fromCurrency st) (toCurrency st))].
Proof.
  intros Hm Hr Hage st' w'.
  assert (F : fetchRealTimeRate (fromCurrency st) (toCurrency st) w =
              (Returns (finish (shouldInvert (fromCurrency st) (toCurrency st))
                          (mapDbToExchangeData (locale_time w) row)),
               after_select (fromCurrency st) (toCurrency st) w)).
  { rewrite fetchRealTimeRate_unfold.
    rewrite (cache_lookup_row _ _ _ _ Hm Hr). cbn [fst]. unfold read_end.
    destruct (Z.ltb_spec
                (clock w + Z.of_N (select_latency w (clock w))
                 - db_updated_at row) CACHE_DURATION_MS);
      [reflexivity | lia]. }
  unfold st', w', loadData.
  rewrite (fetch_and_cache_returns _ _ _ _ F). now repeat split.
Qed.

Lemma refresh_within_window_witness :
  option_map rate (data (fst (loadData true (app_with NGN USD ∅) world_fresh)))
    = Some (JS.recip (Num 1600)) /\
  calls (snd (loadData true (app_with NGN USD ∅) world_fresh)) = 0%nat.
Proof.
  assert (Hr : store world_fresh !! pairId NGN USD
               = Some (row_1600 (1700000000000 - minutes 29 59)))
    by (vm_compute; reflexivity).
  assert (Hage : (clock world_fresh
                  + Z.of_N (select_latency world_fresh (clock world_fresh))
                  - db_updated_at (row_1600 (1700000000000 - minutes 29 59))
                  < CACHE_DURATION_MS)%Z) by (vm_compute; reflexivity).
  destruct (refresh_within_window (app_with NGN USD ∅) world_fresh _
              eq_refl Hr Hage) as (Hd & _ & Hc & _).
  split; [now rewrite Hd | exact Hc].
Defined.

(** X16: for a pair with the domestic currency on exactly one side,
    [loadData] always ends with a quote on display and no error message,
    whatever the session cache, the store and the oracle do. *)
Theorem naira_pair_always_displayed (forceRefresh : bool) (st : AppState)
  (w : World) :
  naira_pair st ->
  (exists q, data (fst (loadData forceRefresh st w)) = Some q) /\
  error (fst (loadData forceRefresh st w)) = None.
Proof.
  intros Hp.
  assert (K : is_Some (EMERGENCY_RATES !! pairId (fromCurrency st) (toCurrency st))).
  { destruct Hp as [[Hf Ht]|[Hf Ht]].
    - rewrite Hf. destruct (canonical_domestic_first _ Ht) as [C _].
      unfold pairId, searchFrom, searchTo. rewrite C.
      now apply emergency_covers_foreign.
    - rewrite Ht. destruct (canonical_domestic_first _ Hf) as [_ C].
      unfold pairId, searchFrom, searchTo. rewrite C.
      now apply emergency_covers_foreign. }
  assert (F : (exists q, data (fst (fetch_and_cache st w)) = Some q) /\
              error (fst (fetch_and_cache st w)) = None).
  { destruct (fetch_returns_with_emergency _ _ w K) as [q Hq].
    unfold fetch_and_cache.
    destruct (fetchRealTimeRate _ _ w) as [[d|e] w1]; [|discriminate Hq].
    simpl. eauto. }
  unfold loadData. destruct forceRefresh; [exact F|].
  destruct (ratesCache st !! _); [simpl; eauto|].
  destruct (ratesCache st !! _); [simpl; eauto | exact F].
Qed.

Lemma naira_pair_always_displayed_witness :
  error (fst (loadData true (app_with NGN CAD ∅) world_offline)) = None.
Proof.
  apply (naira_pair_always_displayed true (app_with NGN CAD ∅) world_offline).
  left. split; [reflexivity | discriminate].
Defined.

(** ** The earlier variant of the service *)

Lemma legacy_fetchRealTimeRate_unfold from to w :
  Legacy.fetchRealTimeRate from to w =
  match fst (cache_lookup from to w) with
  | Some fresh =>
      (Returns (finish (shouldInvert from to) fresh), after_select from to w)
  | None =>
      match legacy_attempt from to w with
      | (Returns aiResult, w2) =>
          (Returns (finish (shouldInvert from to) aiResult),
           if JS.ltb (Num 0) (rate aiResult)
           then upsert (pairId from to) (upsert_row aiResult (clock w2)) w2
           else w2)
      | (Throws aiError, w2) =>
          match snd (cache_lookup from to w) with
          | Some stale =>
              (Returns (finish (shouldInvert from to)
                          (mark_cached (mapDbToExchangeData (locale_time w2) stale))),
               w2)
          | None => (Throws aiError, w2)
          end
      end
  end.
Proof.
  unfold Legacy.fetchRealTimeRate, cache_lookup, legacy_attempt, after_select,
    pairId, searchFrom, searchTo, shouldInvert.
  destruct (canonical from to) as [[sf st] flag].
  unfold select_single. cbn [fst snd].
  destruct (check_cache _ _) as [[fresh|] stale]; cbn [fst snd]; [reflexivity|].
  destruct (Legacy.attemptAIFetchWithRetry _ _ _ _) as [[d|err] w2];
    [reflexivity|].
  now destruct stale.
Qed.

Lemma legacy_attempt_O from to w :
  Legacy.attemptAIFetchWithRetry from to 0 w = Legacy.fetchFromAI from to w.
Proof.
  simpl. now destruct (Legacy.fetchFromAI from to w) as [[d|err] w1].
Qed.

Lemma legacy_attempt_S from to n w :
  Legacy.attemptAIFetchWithRetry from to (S n) w =
  match Legacy.fetchFromAI from to w with
  | (Returns d, w1) => (Returns d, w1)
  | (Throws err, w1) =>
      if isQuota err
      then Legacy.attemptAIFetchWithRetry from to n (sleep 2000 w1)
      else (Throws err, w1)
  end.
Proof. reflexivity. Qed.

Lemma legacy_attempt_returns from to n w d w1 :
  Legacy.fetchFromAI from to w = (Returns d, w1) ->
  Legacy.attemptAIFetchWithRetry from to n w = (Returns d, w1).
Proof.
  intros H. destruct n; [rewrite legacy_attempt_O | rewrite legacy_attempt_S];
    now rewrite H.
Qed.

Lemma legacy_fetchFromAI_fails from to w e :
  oracle w from to (calls w) = Fails e ->
  Legacy.fetchFromAI from to w = (Throws e, snd (generateContent from to w)).
Proof. intros H. unfold Legacy.fetchFromAI, generateContent. now rewrite H. Qed.

Lemma legacy_fetchFromAI_responds from to w response :
  oracle w from to (calls w) = Responds response ->
  Legacy.fetchFromAI from to w =
    (Legacy.parse_response from to (locale_time w (query_end w)) response,
     snd (generateContent from to w)).
Proof. intros H. unfold Legacy.fetchFromAI, generateContent. now rewrite H. Qed.

Lemma legacy_parse_agrees from to nowLabel response q :
  parse_response nowLabel response = Returns q ->
  Legacy.parse_response from to nowLabel response = Returns q.
Proof.
  unfold parse_response, Legacy.parse_response.
  destruct (JS.eqb _ _); [discriminate|]. exact (fun H => H).
Qed.

Lemma legacy_parse_zero from to nowLabel response s :
  JS.eqb (detectedRate (detect (response_text response))) (Num 0) = true ->
  summaryText (detect (response_text response)) = JStr s ->
  Legacy.parse_response from to nowLabel response =
    Returns (quote_of (if code_eqb from USD && code_eqb to NGN
                       then Num 1600
                       else detectedRate (detect (response_text response)))
               (detect (response_text response)) s nowLabel response).
Proof.
  intros Hz Hs. unfold Legacy.parse_response. fold (response_text response).
  cbv zeta. rewrite Hz, Hs. simpl andb. reflexivity.
Qed.

Lemma legacy_attempt_agrees from to n :
  forall w d w',
    attemptAIFetchWithRetry from to n w = (Returns d, w') ->
    forall m, (n <= m)%nat ->
    Legacy.attemptAIFetchWithRetry from to m w = (Returns d, w').
Proof.
  induction n as [|n IH]; intros w d w' H m Hm.
  - simpl in H. destruct (oracle w from to (calls w)) as [response|e] eqn:O.
    + rewrite (fetchFromAI_responds _ _ _ _ O) in H.
      destruct (parse_response _ response) as [d0|e] eqn:P; [|discriminate H].
      injection H as <- <-. apply legacy_attempt_returns.
      rewrite (legacy_fetchFromAI_responds _ _ _ _ O).
      now rewrite (legacy_parse_agrees from to _ _ _ P).
    + rewrite (fetchFromAI_fails _ _ _ _ O) in H. discriminate H.
  - rewrite attempt_S in H.
    destruct (oracle w from to (calls w)) as [response|e] eqn:O.
    + rewrite (fetchFromAI_responds _ _ _ _ O) in H.
      destruct (parse_response _ response) as [d0|e] eqn:P.
      * injection H as <- <-. apply legacy_attempt_returns.
        rewrite (legacy_fetchFromAI_responds _ _ _ _ O).
        now rewrite (legacy_parse_agrees from to _ _ _ P).
      * rewrite (parse_response_errors _ _ _ P) in H. discriminate H.
    + rewrite (fetchFromAI_fails _ _ _ _ O) in H.
      destruct (isQuota e) eqn:Q; [|discriminate H].
      destruct m as [|m]; [lia|]. rewrite legacy_attempt_S.
      rewrite (legacy_fetchFromAI_fails _ _ _ _ O), Q.
      apply (IH _ _ _ H). lia.
Qed.

(** X17: the earlier variant and the current service agree wherever the
    current one is settled by a fresh record or by a successful oracle
    attempt: same outcome, same calls, same store. *)
Theorem legacy_agrees_on_success (from to : CurrencyCode) (w : World) :
  is_Some (fst (cache_lookup from to w)) \/
  (exists aiResult w2, oracle_attempt from to w = (Returns aiResult, w2)) ->
  Legacy.fetchRealTimeRate from to w = fetchRealTimeRate from to w.
Proof.
  intros H. rewrite legacy_fetchRealTimeRate_unfold, fetchRealTimeRate_unfold.
  destruct (fst (cache_lookup from to w)) as [fresh|]; [reflexivity|].
  destruct H as [[x Hx]|(aiResult & w2 & Ha)]; [discriminate|].
  rewrite Ha. unfold legacy_attempt.
  now rewrite (legacy_attempt_agrees _ _ 1 _ _ _ Ha 2) by lia.
Qed.

Lemma legacy_agrees_on_success_witness :
  fst (Legacy.fetchRealTimeRate USD NGN world_scenario) = Returns quote_scenario /\
  fst (Legacy.fetchRealTimeRate NGN USD world_fresh)
    = fst (fetchRealTimeRate NGN USD world_fresh).
Proof.
  split.
  - rewrite (legacy_agrees_on_success USD NGN world_scenario).
    + vm_compute. reflexivity.
    + right. eexists _, _. vm_compute. reflexivity.
  - rewrite (legacy_agrees_on_success NGN USD world_fresh); [reflexivity|].
    left. vm_compute. eauto.
Defined.

Lemma legacy_exhaustion from to e :
  forall retries w,
    (forall k, oracle w from to k = Fails e) ->
    fst (Legacy.attemptAIFetchWithRetry from to retries w) = Throws e /\
    calls (snd (Legacy.attemptAIFetchWithRetry from to retries w))
      = (calls w + if isQuota e then S retries else 1)%nat /\
    store (snd (Legacy.attemptAIFetchWithRetry from to retries w)) = store w.
Proof.
  induction retries as [|n IH]; intros w Ho.
  - rewrite legacy_attempt_O, (legacy_fetchFromAI_fails _ _ _ _ (Ho (calls w))).
    simpl. destruct (isQuota e); repeat split; lia.
  - rewrite legacy_attempt_S, (legacy_fetchFromAI_fails _ _ _ _ (Ho (calls w))).
    destruct (isQuota e) eqn:Q.
    + destruct (IH (sleep 2000 (snd (generateContent from to w))) Ho)
        as (H1 & H2 & H3).
      rewrite H1, H2, H3. simpl. repeat split; lia.
    + simpl. repeat split; lia.
Qed.

(** X18: the earlier variant has no emergency tier: when no record is read
    and every oracle query fails, its resolution throws the oracle error for
    every pair, after three queries on a rate-limit signal and after one
    otherwise, and the store is left as it was. *)
Theorem legacy_has_no_emergency_tier (from to : CurrencyCode) (w : World)
  (e : JsError) :
  snd (cache_lookup from to w) = None ->
  (forall k, oracle w (searchFrom from to) (searchTo from to) k = Fails e) ->
  fst (Legacy.fetchRealTimeRate from to w) = Throws e /\
  calls (snd (Legacy.fetchRealTimeRate from to w))
    = (calls w + if isQuota e then 3 else 1)%nat /\
  store (snd (Legacy.fetchRealTimeRate from to w)) = store w.
Proof.
  intros Hn Ho. rewrite legacy_fetchRealTimeRate_unfold.
  rewrite (cache_lookup_no_record from to w Hn), Hn.
  destruct (legacy_exhaustion (searchFrom from to) (searchTo from to) e 2
              (after_select from to w) Ho) as (H1 & H2 & H3).
  unfold legacy_attempt.
  destruct (Legacy.attemptAIFetchWithRetry _ _ 2 _) as [[d|err] w2];
    cbn [fst snd] in *; [discriminate H1|].
  injection H1 as ->. split; [reflexivity|]. split; [exact H2 | exact H3].
Qed.

Lemma legacy_has_no_emergency_tier_witness :
  fst (Legacy.fetchRealTimeRate USD NGN world_rate_limited) = Throws error_429 /\
  calls (snd (Legacy.fetchRealTimeRate USD NGN world_rate_limited)) = 3%nat /\
  fst (fetchRealTimeRate USD NGN world_rate_limited)
    = Returns (emergency_quote (Num 1580.00)).
Proof.
  destruct (legacy_has_no_emergency_tier USD NGN world_rate_limited error_429
              eq_refl (fun _ => eq_refl)) as (H1 & H2 & _).
  split; [exact H1|]. split; [exact H2|]. vm_compute. reflexivity.
Defined.

(** X19: where the current parser throws the zero-rate error, the earlier
    variant returns a quote: for the canonical pair USD to NGN it carries
    the rate 1600, which the resolution persists under the canonical key
    and returns, inverted for the request NGN to USD; for every other pair
    it carries the rate zero, which is returned as it is and not
    persisted. *)
Theorem legacy_zero_rate_handling (from to : CurrencyCode) (w : World)
  (response : GenerateContentResponse) (s : text) :
  fst (cache_lookup from to w) = None ->
  oracle w (searchFrom from to) (searchTo from to) (calls w) = Responds response ->
  JS.eqb (detectedRate (detect (response_text response))) (Num 0) = true ->
  summaryText (detect (response_text response)) = JStr s ->
  let st := detect (response_text response) in
  let w2 := snd (generateContent (searchFrom from to) (searchTo from to)
                   (after_select from to w)) in
  let label := locale_time w (clock w2) in
  fst (oracle_attempt from to w) = Throws (Error "AI returned 0 rate") /\
  (pairId from to = "USD-NGN" ->
   Legacy.fetchRealTimeRate from to w =
     (Returns (finish (shouldInvert from to)
                 (quote_of (Num 1600) st s label response)),
      upsert "USD-NGN"
        (upsert_row (quote_of (Num 1600) st s label response) (clock w2)) w2)) /\
  (pairId from to <> "USD-NGN" ->
   Legacy.fetchRealTimeRate from to w =
     (Returns (quote_of (detectedRate st) st s label response), w2)).
Proof.
  intros Hc Ho Hz Hs st w2 label.
  assert (Ho' : oracle (after_select from to w) (searchFrom from to)
                  (searchTo from to) (calls (after_select from to w))
                = Responds response) by exact Ho.
  split; [|split].
  - unfold oracle_attempt.
    now rewrite (zero_rate_is_failure _ _ 1 _ _ Ho' Hz).
  - intros Hk. rewrite legacy_fetchRealTimeRate_unfold, Hc.
    unfold legacy_attempt.
    rewrite (legacy_attempt_returns _ _ 2 _
               (quote_of (Num 1600) st s label response) w2).
    + cbn [quote_of rate]. change (JS.ltb (Num 0) (Num 1600)) with true.
      cbv iota. now rewrite Hk.
    + rewrite (legacy_fetchFromAI_responds _ _ _ _ Ho').
      rewrite (legacy_parse_zero _ _ _ _ s Hz Hs). fold st.
      assert (E : code_eqb (searchFrom from to) USD
                  && code_eqb (searchTo from to) NGN = true).
      { revert Hk. unfold pairId. clear.
        destruct (searchFrom from to), (searchTo from to);
          try reflexivity; vm_compute; discriminate. }
      now rewrite E.
  - intros Hk. rewrite legacy_fetchRealTimeRate_unfold, Hc.
    unfold legacy_attempt.
    assert (Hle : JS.leb (detectedRate st) (Num 0) = true).
    { unfold st. destruct (detectedRate _) as [q| |b]; try discriminate Hz.
      simpl in *. now apply Qeq_bool_zero_le. }
    assert (Hlt : JS.ltb (Num 0) (detectedRate st) = false).
    { unfold st. destruct (detectedRate _) as [q| |b]; try discriminate Hz.
      simpl in *. apply Qeq_bool_zero_le in Hz. now rewrite Hz. }
    rewrite (legacy_attempt_returns _ _ 2 _
               (quote_of (detectedRate st) st s label response) w2).
    + cbn [quote_of rate]. rewrite Hlt. unfold finish.
      destruct (shouldInvert from to); [|reflexivity].
      now rewrite invert_noop.
    + rewrite (legacy_fetchFromAI_responds _ _ _ _ Ho').
      rewrite (legacy_parse_zero _ _ _ _ s Hz Hs). fold st.
      assert (E : code_eqb (searchFrom from to) USD
                  && code_eqb (searchTo from to) NGN = false).
      { revert Hk. unfold pairId. clear.
        destruct (searchFrom from to), (searchTo from to);
          try reflexivity; intros H; exfalso; apply H; reflexivity. }
      now rewrite E.
Qed.

Lemma legacy_zero_rate_handling_witness :
  option_map rate
    (match fst (Legacy.fetchRealTimeRate NGN USD world_no_number) with
     | Returns q => Some q
     | Throws _ => None
     end) = Some (JS.recip (Num 1600)) /\
  option_map db_rate
    (store (snd (Legacy.fetchRealTimeRate NGN USD world_no_number)) !! "USD-NGN")
    = Some (Num 1600).
Proof.
  destruct (legacy_zero_rate_handling NGN USD world_no_number
              (response_of text_no_number)
              (txt "I could not find a current rate for this pair.")
              eq_refl eq_refl eq_refl eq_refl) as (_ & H & _).
  rewrite (H eq_refl). split; vm_compute; reflexivity.
Defined.

(** ** A cache read that fails *)

Lemma attempt_select_irrelevant m from to n w :
  attemptAIFetchWithRetry from to n (with_select_mode m w) =
  (fst (attemptAIFetchWithRetry from to n w),
   with_select_mode m (snd (attemptAIFetchWithRetry from to n w))).
Proof.
  revert w; induction n as [|n IH]; intros w; simpl.
  - unfold fetchFromAI, generateContent. simpl.
    destruct (oracle w from to (calls w)) as [resp|e]; simpl.
    + now destruct (parse_response _ resp).
    + reflexivity.
  - unfold fetchFromAI, generateContent. simpl.
    destruct (oracle w from to (calls w)) as [resp|e]; simpl.
    + destruct (parse_response _ resp) as [d|err]; simpl; [reflexivity|].
      destruct (isQuota err); [|reflexivity].
      apply (IH (sleep 2000 (snd (generateContent from to w)))).
    + destruct (isQuota e); [|reflexivity].
      apply (IH (sleep 2000 (snd (generateContent from to w)))).
Qed.

Lemma cache_lookup_miss from to w m :
  m <> SelectAnswers \/ store w !! pairId from to = None ->
  cache_lookup from to (with_select_mode m w) = (None, None).
Proof.
  intros H. unfold cache_lookup, select_single. cbn [fst snd with_select_mode
    select_mode store].
  destruct m; try reflexivity.
  destruct H as [H|H]; [congruence|]. now rewrite H.
Qed.

(** X20: a cache read that fails, by an error result or by a rejected
    call, is a miss and nothing more: the resolution proceeds exactly as it
    does when the store answers and has no record of the pair, with the
    same outcome and the same calls. *)
Theorem failed_read_is_a_miss (from to : CurrencyCode) (w : World)
  (m : SelectMode) :
  m <> SelectAnswers \/ store w !! pairId from to = None ->
  cache_lookup from to (with_select_mode m w) = (None, None) /\
  fetchRealTimeRate from to (with_select_mode m w) =
    (fst (fetchRealTimeRate from to (with_select_mode SelectThrows w)),
     with_select_mode m
       (snd (fetchRealTimeRate from to (with_select_mode SelectThrows w)))).
Proof.
  intros H. pose proof (cache_lookup_miss from to w m H) as Hm.
  assert (Ht : cache_lookup from to (with_select_mode SelectThrows w)
               = (None, None)) by reflexivity.
  split; [exact Hm|].
  rewrite !fetchRealTimeRate_unfold, Hm, Ht. cbn [fst snd].
  unfold oracle_attempt.
  change (after_select from to (with_select_mode m w))
    with (with_select_mode m (after_select from to w)).
  change (after_select from to (with_select_mode SelectThrows w))
    with (with_select_mode SelectThrows (after_select from to w)).
  rewrite !attempt_select_irrelevant.
  destruct (attemptAIFetchWithRetry _ _ 1 (after_select from to w))
    as [[d|err] w2]; cbn [fst snd].
  - now destruct (JS.ltb (Num 0) (rate d)).
  - now destruct (EMERGENCY_RATES !! pairId from to).
Qed.

Lemma failed_read_is_a_miss_witness :
  fst (fetchRealTimeRate USD NGN (with_select_mode SelectErrors world_fresh))
    = Returns (emergency_quote (Num 1580.00)) /\
  fst (fetchRealTimeRate USD NGN world_fresh) = Returns quote_1600.
Proof.
  assert (H : SelectErrors <> SelectAnswers) by discriminate.
  destruct (failed_read_is_a_miss USD NGN world_fresh SelectErrors
              (or_introl H)) as [_ Hf].
  rewrite Hf. split; vm_compute; reflexivity.
Defined.
